(** * The credit ledger of grade-guardian

    A shallow embedding of the stored procedures [deduct_credits],
    [add_credits] and [add_plan_credits]
    (supabase/migrations/20240101000001_credits-system.sql and the later
    migration that adds the yearly plans) and of the client-side balance
    query [getRemainingCredits], followed by the properties of the ledger
    they maintain.

    Conventions of the model.
    - A PostgreSQL [INTEGER] is a [Z]; every arithmetic operator the
      procedures apply to one is range checked and raises
      [integer_out_of_range] outside of [-2^31, 2^31), as [int4pl] and
      [int4mi] do.  A call binds its arguments to the declared
      [INTEGER] parameters first and is refused with the same error when
      one does not fit.  Arguments and columns are not [NULL].
    - A [TIMESTAMP WITH TIME ZONE] is a [Z] counting microseconds from
      2000-01-01 00:00 UTC, as PostgreSQL stores it; the session time
      zone is UTC, so [interval 'n days'] is [n] times 86 400 000 000
      microseconds.  [now() + interval] raises [datetime_field_overflow]
      (timestamp out of range) when the sum leaves the range of the
      type.  [now()] is a reading of the clock and is taken to be at
      least 365 days away from both ends of that range, so that a sum
      with up to 365 days is a timestamp.
    - A [UUID] is an [N]; [gen_random_uuid()] draws from a supply kept
      with the tables, so a generated identifier was never used before.
    - A procedure runs in one transaction at one [now()]: an exception
      undoes whatever the procedure wrote, hence [Raise] carries no
      state.
    - The foreign keys into [auth.users] and [public.assignments] are
      taken to be satisfied by the identifiers the callers pass.
    - [ORDER BY expires_at ASC] fixes the order of the rows only up to
      rows with equal [expires_at].  [deduct_credits] is run with a
      stable sort of the table order; the properties of a deduction are
      stated for the loop over any sorted arrangement of the selected
      rows ([cursor_of]), of which that one is an instance
      ([deduct_credits_cursor], [deduct_credits_loop]). *)

From Stdlib Require Import ZArith NArith List String Bool Lia.
From Stdlib Require Import Permutation Sorting.Sorted.
Import ListNotations.
Open Scope Z_scope.

(** ** PostgreSQL values, errors and the transaction monad *)

Module Pg.

Inductive SqlError : Type :=
| integer_out_of_range
| check_violation (constraint : string)
| raise_exception (message : string)
| datetime_field_overflow.

Inductive Result (A : Type) : Type :=
| Ok (a : A)
| Raise (e : SqlError).
Arguments Ok {A} a.
Arguments Raise {A} e.

Definition int4_min : Z := - 2 ^ 31.
Definition int4_max : Z := 2 ^ 31 - 1.

Definition in_int4 (z : Z) : bool := (int4_min <=? z) && (z <=? int4_max).

Definition int4 (z : Z) : Result Z :=
  if in_int4 z then Ok z else Raise integer_out_of_range.

(** [a + b] and [a - b] on [INTEGER]. *)
Definition int4pl (a b : Z) : Result Z := int4 (a + b).
Definition int4mi (a b : Z) : Result Z := int4 (a - b).

Definition uuid : Type := N.
Definition timestamptz : Type := Z.

Definition usecs_per_day : Z := 86400000000.

(** The microseconds of [ts + interval 'n days'], which is the value of
    the sum when it is a timestamp; the operator, with its range check,
    is [now_pl_days] below. *)
Definition plus_days (ts : timestamptz) (n : Z) : timestamptz :=
  ts + n * usecs_per_day.

(** The range of [timestamptz], PostgreSQL's [MIN_TIMESTAMP] and
    [END_TIMESTAMP]: from Julian day 0 up to, and without, Julian day
    109 203 528, counted from Julian day 2 451 545, which is
    2000-01-01. *)
Definition min_timestamp : Z := (0 - 2451545) * usecs_per_day.
Definition end_timestamp : Z := (109203528 - 2451545) * usecs_per_day.

Definition in_timestamp (ts : Z) : bool :=
  (min_timestamp <=? ts) && (ts <? end_timestamp).

(** Whether [now() + interval 'n days'] is a timestamp: it is for up to
    365 days either way, [now()] being a reading of the clock, and
    otherwise when the sum is in the range of the type. *)
Definition clock_margin_days : Z := 365.

Definition days_in_range (now : timestamptz) (n : Z) : bool :=
  (Z.abs n <=? clock_margin_days) || in_timestamp (plus_days now n).

(** [now() + interval 'n days'], which raises "timestamp out of range"
    (SQLSTATE 22008) when the sum is no timestamp. *)
Definition now_pl_days (now : timestamptz) (n : Z) : Result timestamptz :=
  if days_in_range now n then Ok (plus_days now n)
  else Raise datetime_field_overflow.

End Pg.

Import Pg.

(** ** The tables *)

(** A row of [public.credit_batches]. *)
Record CreditBatch : Type := mkBatch {
  id : uuid;
  user_id : uuid;
  credits : Z;
  used_credits : Z;
  subscription_type : string;
  expires_at : timestamptz;
  created_at : timestamptz;
  updated_at : timestamptz
}.

(** A row of [public.credit_usage]. *)
Record CreditUsage : Type := mkUsage {
  usage_id : uuid;
  usage_user_id : uuid;
  batch_id : uuid;
  credits_used : Z;
  assignment_name : string;
  assignment_id : option uuid;
  usage_created_at : timestamptz
}.

(** The two tables, each in insertion order, and the identifier supply. *)
Record Ledger : Type := mkLedger {
  credit_batches : list CreditBatch;
  credit_usage : list CreditUsage;
  uuid_supply : N
}.

Definition empty_ledger : Ledger := mkLedger [] [] 0%N.

(** ** Transactions *)

Definition Tx (A : Type) : Type := Ledger -> Result (A * Ledger).

Definition ret {A : Type} (a : A) : Tx A := fun st => Ok (a, st).

Definition bind {A B : Type} (m : Tx A) (k : A -> Tx B) : Tx B :=
  fun st =>
    match m st with
    | Ok (a, st') => k a st'
    | Raise e => Raise e
    end.

Definition lift {A : Type} (r : Result A) : Tx A :=
  fun st =>
    match r with
    | Ok a => Ok (a, st)
    | Raise e => Raise e
    end.

Definition throw {A : Type} (e : SqlError) : Tx A := fun _ => Raise e.

Declare Scope tx_scope.
Delimit Scope tx_scope with tx.
Notation "x <- m ;; k" := (bind m (fun x => k))
  (at level 61, m at next level, right associativity) : tx_scope.
Notation "m ;;; k" := (bind m (fun _ => k))
  (at level 61, right associativity) : tx_scope.
Open Scope tx_scope.

(** The state a caller observes once the call is over: the procedure's
    writes when it returned, the state it started from when it raised. *)
Definition state_after {A : Type} (r : Result (A * Ledger)) (st : Ledger) : Ledger :=
  match r with
  | Ok (_, st') => st'
  | Raise _ => st
  end.

(** ** Statements on the tables *)

Definition gen_random_uuid : Tx uuid :=
  fun st =>
    Ok (uuid_supply st,
        mkLedger (credit_batches st) (credit_usage st) (N.succ (uuid_supply st))).

(** The rows of a table for which a [WHERE] clause holds, in table
    order; evaluating the clause on a row may raise. *)
Fixpoint select_where {R : Type} (qual : R -> Result bool) (rows : list R)
  : Result (list R) :=
  match rows with
  | [] => Ok []
  | row :: rest =>
      match qual row with
      | Raise e => Raise e
      | Ok keep =>
          match select_where qual rest with
          | Raise e => Raise e
          | Ok sel => Ok (if keep then row :: sel else sel)
          end
      end
  end.

(** The rows of a table after [UPDATE ... SET ... WHERE]: [set] is
    applied to the rows the clause selects and may raise. *)
Fixpoint update_where {R : Type} (set : R -> Result R) (qual : R -> bool)
  (rows : list R) : Result (list R) :=
  match rows with
  | [] => Ok []
  | row :: rest =>
      match (if qual row then set row else Ok row) with
      | Raise e => Raise e
      | Ok row' =>
          match update_where set qual rest with
          | Raise e => Raise e
          | Ok rest' => Ok (row' :: rest')
          end
      end
  end.

(** [CHECK (subscription_type IN ('free', 'student', 'pro',
    'student_yearly', 'pro_yearly'))], the constraint as the yearly-plans
    migration leaves it. *)
Definition subscription_types : list string :=
  ["free"; "student"; "pro"; "student_yearly"; "pro_yearly"]%string.

Definition credit_batches_subscription_type_check (t : string) : bool :=
  existsb (String.eqb t) subscription_types.

(** [INSERT INTO public.credit_batches (user_id, credits,
    subscription_type, expires_at) VALUES (...) RETURNING id]: [id],
    [used_credits], [created_at] and [updated_at] take their defaults. *)
Definition insert_credit_batch (p_user_id : uuid) (p_credits : Z)
  (p_subscription_type : string) (expiry_date now : timestamptz) : Tx uuid :=
  new_id <- gen_random_uuid ;;
  if credit_batches_subscription_type_check p_subscription_type then
    fun st =>
      Ok (new_id,
          mkLedger
            (credit_batches st ++
               [mkBatch new_id p_user_id p_credits 0 p_subscription_type
                  expiry_date now now])
            (credit_usage st) (uuid_supply st))
  else throw (check_violation "credit_batches_subscription_type_check").

(** [INSERT INTO public.credit_usage (user_id, batch_id, credits_used,
    assignment_name, assignment_id) VALUES (...)]. *)
Definition insert_credit_usage (p_user_id p_batch_id : uuid) (p_credits_used : Z)
  (p_assignment_name : string) (p_assignment_id : option uuid)
  (now : timestamptz) : Tx unit :=
  new_id <- gen_random_uuid ;;
  fun st =>
    Ok (tt,
        mkLedger (credit_batches st)
          (credit_usage st ++
             [mkUsage new_id p_user_id p_batch_id p_credits_used
                p_assignment_name p_assignment_id now])
          (uuid_supply st)).

(** The trigger [update_credit_batches_updated_at]: before a row of
    [credit_batches] is updated, [NEW.updated_at = now()]. *)
Definition update_updated_at_column (now : timestamptz) (new : CreditBatch)
  : CreditBatch :=
  mkBatch (id new) (user_id new) (credits new) (used_credits new)
    (subscription_type new) (expires_at new) (created_at new) now.

Definition with_used_credits (row : CreditBatch) (u : Z) (now : timestamptz)
  : CreditBatch :=
  mkBatch (id row) (user_id row) (credits row) u (subscription_type row)
    (expires_at row) (created_at row) now.

(** [UPDATE public.credit_batches SET ... WHERE id = p_id], each updated
    row passing through the trigger. *)
Definition update_credit_batches (set : CreditBatch -> Result CreditBatch)
  (p_id : uuid) (now : timestamptz) : Tx unit :=
  fun st =>
    match
      update_where
        (fun row =>
           match set row with
           | Ok row' => Ok (update_updated_at_column now row')
           | Raise e => Raise e
           end)
        (fun row => N.eqb (id row) p_id) (credit_batches st)
    with
    | Ok rows' => Ok (tt, mkLedger rows' (credit_usage st) (uuid_supply st))
    | Raise e => Raise e
    end.

(** [SET used_credits = used_credits + n, updated_at = now()]. *)
Definition set_used_plus (n : Z) (now : timestamptz) (row : CreditBatch)
  : Result CreditBatch :=
  match int4pl (used_credits row) n with
  | Ok u => Ok (with_used_credits row u now)
  | Raise e => Raise e
  end.

(** [SET used_credits = credits, updated_at = now()]. *)
Definition set_used_all (now : timestamptz) (row : CreditBatch)
  : Result CreditBatch :=
  Ok (with_used_credits row (credits row) now).

(** ** deduct_credits *)

(** [WHERE user_id = p_user_id AND expires_at > now() AND
    (credits - used_credits) > 0]: the conjuncts are tried from left to
    right and the first that fails settles the row. *)
Definition active_batch_qual (p_user_id : uuid) (now : timestamptz)
  (row : CreditBatch) : Result bool :=
  if negb (N.eqb (user_id row) p_user_id) then Ok false
  else if negb (expires_at row >? now) then Ok false
  else
    match int4mi (credits row) (used_credits row) with
    | Ok d => Ok (d >? 0)
    | Raise e => Raise e
    end.

(** [ORDER BY expires_at ASC], as a stable insertion sort: rows with
    equal [expires_at] stay in table order. *)
Fixpoint insert_by_expires_at (row : CreditBatch) (sorted : list CreditBatch)
  : list CreditBatch :=
  match sorted with
  | [] => [row]
  | r :: rest =>
      if expires_at row <=? expires_at r then row :: r :: rest
      else r :: insert_by_expires_at row rest
  end.

Definition order_by_expires_at (rows : list CreditBatch) : list CreditBatch :=
  fold_right insert_by_expires_at [] rows.

(** The query of the [FOR batch IN ... LOOP]. *)
Definition select_active_batches (p_user_id : uuid) (now : timestamptz)
  : Tx (list CreditBatch) :=
  fun st =>
    match select_where (active_batch_qual p_user_id now) (credit_batches st) with
    | Ok sel => Ok (order_by_expires_at sel, st)
    | Raise e => Raise e
    end.

(** The body of the loop, run over the rows the query returned. *)
Fixpoint deduct_loop (p_user_id : uuid) (p_assignment_name : string)
  (p_assignment_id : option uuid) (now : timestamptz)
  (rows : list CreditBatch) (remaining_to_deduct : Z) : Tx bool :=
  match rows with
  | [] => ret false
  | batch :: rest =>
      credits_available <- lift (int4mi (credits batch) (used_credits batch)) ;;
      if credits_available >=? remaining_to_deduct then
        update_credit_batches (set_used_plus remaining_to_deduct now)
          (id batch) now ;;;
        insert_credit_usage p_user_id (id batch) remaining_to_deduct
          p_assignment_name p_assignment_id now ;;;
        ret true
      else
        update_credit_batches (set_used_all now) (id batch) now ;;;
        insert_credit_usage p_user_id (id batch) credits_available
          p_assignment_name p_assignment_id now ;;;
        remaining <- lift (int4mi remaining_to_deduct credits_available) ;;
        deduct_loop p_user_id p_assignment_name p_assignment_id now rest
          remaining
  end.

(** [deduct_credits(p_user_id UUID, p_credits_to_deduct INTEGER,
    p_assignment_name TEXT, p_assignment_id UUID DEFAULT NULL)].  The
    first line is the declaration
    [remaining_to_deduct INTEGER := p_credits_to_deduct] of a parameter
    that only holds an [INTEGER]. *)
Definition deduct_credits (p_user_id : uuid) (p_credits_to_deduct : Z)
  (p_assignment_name : string) (p_assignment_id : option uuid)
  (now : timestamptz) : Tx bool :=
  remaining_to_deduct <- lift (int4 p_credits_to_deduct) ;;
  rows <- select_active_batches p_user_id now ;;
  deduct_loop p_user_id p_assignment_name p_assignment_id now rows
    remaining_to_deduct.

(** ** add_credits and add_plan_credits *)

(** The [CASE p_subscription_type] of [add_credits] as the yearly-plans
    migration redefines it: the expiry date it computes when no sum
    raises. *)
Definition expiry_date_of (p_subscription_type : string) (p_expiry_days : Z)
  (now : timestamptz) : timestamptz :=
  if String.eqb p_subscription_type "student" then plus_days now 30
  else if String.eqb p_subscription_type "student_yearly" then plus_days now 365
  else if String.eqb p_subscription_type "pro" then plus_days now 90
  else if String.eqb p_subscription_type "pro_yearly" then plus_days now 365
  else plus_days now p_expiry_days.

(** The [CASE] as it runs: each branch adds an interval to [now()],
    which raises when the sum is no timestamp. *)
Definition case_expiry_date (p_subscription_type : string) (p_expiry_days : Z)
  (now : timestamptz) : Result timestamptz :=
  if String.eqb p_subscription_type "student" then now_pl_days now 30
  else if String.eqb p_subscription_type "student_yearly" then
    now_pl_days now 365
  else if String.eqb p_subscription_type "pro" then now_pl_days now 90
  else if String.eqb p_subscription_type "pro_yearly" then now_pl_days now 365
  else now_pl_days now (p_expiry_days).

(** [add_credits(p_user_id UUID, p_credits INTEGER,
    p_subscription_type TEXT, p_expiry_days INTEGER)]; the first two
    lines bind the [INTEGER] parameters. *)
Definition add_credits (p_user_id : uuid) (p_credits : Z)
  (p_subscription_type : string) (p_expiry_days : Z) (now : timestamptz)
  : Tx uuid :=
  p_credits <- lift (int4 p_credits) ;;
  p_expiry_days <- lift (int4 p_expiry_days) ;;
  expiry_date <-
    lift (case_expiry_date p_subscription_type p_expiry_days now) ;;
  new_batch_id <-
    insert_credit_batch p_user_id p_credits p_subscription_type expiry_date now ;;
  ret new_batch_id.

(** [p_subscription_type TEXT DEFAULT 'free', p_expiry_days INTEGER
    DEFAULT 30]. *)
Definition default_subscription_type : string := "free".
Definition default_expiry_days : Z := 30.

(** The [CASE p_plan_type]: the credits and the subscription type of a
    plan, or nothing when the [ELSE] branch raises. *)
Definition plan_credits (p_plan_type : string) : option (Z * string) :=
  if String.eqb p_plan_type "student_monthly" then Some (50, "student"%string)
  else if String.eqb p_plan_type "student_yearly" then
    Some (605, "student_yearly"%string)
  else if String.eqb p_plan_type "pro_monthly" then Some (150, "pro"%string)
  else if String.eqb p_plan_type "pro_yearly" then
    Some (605, "pro_yearly"%string)
  else None.

Definition add_plan_credits (p_user_id : uuid) (p_plan_type : string)
  (now : timestamptz) : Tx uuid :=
  match plan_credits p_plan_type with
  | Some (credits_to_add, subscription_type) =>
      batch_id <-
        add_credits p_user_id credits_to_add subscription_type
          default_expiry_days now ;;
      ret batch_id
  | None =>
      throw (raise_exception ("Invalid plan type: " ++ p_plan_type))
  end.

(** The first migration's [add_credits], which the yearly-plans
    migration replaces ([CREATE OR REPLACE FUNCTION]): it knew three
    subscription types and other durations.  First the expiry date its
    [CASE] computes when no sum raises. *)
Definition initial_expiry_date_of (p_subscription_type : string)
  (p_expiry_days : Z) (now : timestamptz) : timestamptz :=
  if String.eqb p_subscription_type "student" then plus_days now 90
  else if String.eqb p_subscription_type "pro" then plus_days now 365
  else plus_days now p_expiry_days.

(** ** getRemainingCredits *)

(** [supabase.from('credit_batches').select('credits, used_credits')
    .eq('user_id', userId).gt('expires_at', now)]: a read of the table,
    the rows in table order, cut down to the two selected columns. *)
Definition select_credits_of (userId : uuid) (now : timestamptz)
  : Tx (list (Z * Z)) :=
  fun st =>
    Ok (map (fun row => (credits row, used_credits row))
          (filter
             (fun row => N.eqb (user_id row) userId && (expires_at row >? now))
             (credit_batches st)),
        st).

(** What awaiting the request gives: the object [{ data, error }], or an
    exception. *)
Inductive PostgrestResponse (A : Type) : Type :=
| Response (data : option A) (error : option string)
| Thrown.
Arguments Response {A} data error.
Arguments Thrown {A}.

(** The body of [getRemainingCredits] once the request is settled.  The
    numbers of JavaScript add and subtract integers exactly below 2^53,
    which sums of [INTEGER] columns stay under. *)
Definition remaining_of (response : PostgrestResponse (list (Z * Z))) : Z :=
  match response with
  | Thrown => 0
  | Response data error =>
      match error with
      | Some _ => 0
      | None =>
          match data with
          | None => 0
          | Some rows =>
              fold_left
                (fun total batch => total + (fst batch - snd batch)) rows 0
          end
      end
  end.

(** [getRemainingCredits(userId)] at client time [now], against a store
    that answers: the number returned and the ledger left behind.  A
    request the store fails comes back as [{ data: null, error }]. *)
Definition getRemainingCredits (userId : uuid) (now : timestamptz)
  (st : Ledger) : Z * Ledger :=
  match select_credits_of userId now st with
  | Ok (rows, st') => (remaining_of (Response (Some rows) None), st')
  | Raise e => (remaining_of (Response None (Some "error"%string)), st)
  end.

(** ** Sequences of calls *)

Inductive Call : Type :=
| call_add_credits (p_user_id : uuid) (p_credits : Z)
    (p_subscription_type : string) (p_expiry_days : Z) (now : timestamptz)
| call_add_plan_credits (p_user_id : uuid) (p_plan_type : string)
    (now : timestamptz)
| call_deduct_credits (p_user_id : uuid) (p_credits_to_deduct : Z)
    (p_assignment_name : string) (p_assignment_id : option uuid)
    (now : timestamptz).

(** One call run to its end, the loop of [deduct_credits] walking the
    rows in the order [order_by_expires_at] gives them. *)
Definition run_call (c : Call) (st : Ledger) : Ledger :=
  match c with
  | call_add_credits u n t d now => state_after (add_credits u n t d now st) st
  | call_add_plan_credits u p now => state_after (add_plan_credits u p now st) st
  | call_deduct_credits u n a i now =>
      state_after (deduct_credits u n a i now st) st
  end.

Definition run_calls (cs : list Call) (st : Ledger) : Ledger :=
  fold_left (fun s c => run_call c s) cs st.

(** The rows a [SELECT ... ORDER BY expires_at ASC] may hand to the
    loop: PostgreSQL leaves the order of rows with equal [expires_at]
    open, so any sorted arrangement of the selected rows is one. *)
Definition expires_le (a b : CreditBatch) : Prop := expires_at a <= expires_at b.

Definition cursor_of (st : Ledger) (p_user_id : uuid) (now : timestamptz)
  (rows : list CreditBatch) : Prop :=
  exists sel,
    select_where (active_batch_qual p_user_id now) (credit_batches st) = Ok sel
    /\ Permutation sel rows
    /\ StronglySorted expires_le rows.

(** One call as a step of the ledger, whatever order the query returns
    equal keys in. *)
Inductive step : Ledger -> Call -> Ledger -> Prop :=
| step_add_credits st u n t d now :
    step st (call_add_credits u n t d now)
      (state_after (add_credits u n t d now st) st)
| step_add_plan_credits st u p now :
    step st (call_add_plan_credits u p now)
      (state_after (add_plan_credits u p now st) st)
| step_deduct_credits st u n a i now rows :
    in_int4 n = true ->
    cursor_of st u now rows ->
    step st (call_deduct_credits u n a i now)
      (state_after (deduct_loop u a i now rows n st) st)
| step_deduct_credits_refused st u n a i now :
    in_int4 n = false ->
    step st (call_deduct_credits u n a i now) st
| step_deduct_credits_query_raise st u n a i now e :
    select_where (active_batch_qual u now) (credit_batches st) = Raise e ->
    step st (call_deduct_credits u n a i now) st.

Inductive steps : Ledger -> list Call -> Ledger -> Prop :=
| steps_nil st : steps st [] st
| steps_cons st c st1 cs st2 :
    step st c st1 -> steps st1 cs st2 -> steps st (c :: cs) st2.

(** ** Quantities the properties speak of *)

(** [sum(credits_used) WHERE batch_id = b] over [credit_usage]. *)
Fixpoint usage_total (b : uuid) (us : list CreditUsage) : Z :=
  match us with
  | [] => 0
  | u :: rest =>
      (if N.eqb (batch_id u) b then credits_used u else 0) + usage_total b rest
  end.

(** The row of [credit_batches] with a given [id]. *)
Definition find_batch (b : uuid) (st : Ledger) : option CreditBatch :=
  find (fun row => N.eqb (id row) b) (credit_batches st).

(** [credits - used_credits] of a row. *)
Definition available (b : CreditBatch) : Z := credits b - used_credits b.

(** [sum(credits - used_credits)] over a list of rows. *)
Fixpoint total_available (rows : list CreditBatch) : Z :=
  match rows with
  | [] => 0
  | row :: rest => (credits row - used_credits row) + total_available rest
  end.

(** What the schema guarantees of a stored state: the primary key of
    [credit_batches], its [INTEGER] columns in range, the foreign key
    from [credit_usage.batch_id], and a supply that is ahead of every
    stored batch. *)
Record schema (st : Ledger) : Prop := mkSchema {
  credit_batches_pkey : NoDup (map id (credit_batches st));
  credit_batches_int4 :
    Forall (fun row => in_int4 (credits row) = true
                       /\ in_int4 (used_credits row) = true)
      (credit_batches st);
  credit_usage_batch_id_fkey :
    Forall (fun u => In (batch_id u) (map id (credit_batches st)))
      (credit_usage st);
  supply_fresh :
    Forall (fun row => (id row < uuid_supply st)%N) (credit_batches st)
}.

(** ** Auxiliary notions of the proofs and the ledgers of the examples *)

(** [credit_batches] after [used_credits] of the rows with identifier
    [b] became [f row]. *)
Definition bump (b : uuid) (f : CreditBatch -> Z) (now : timestamptz)
  (rows : list CreditBatch) : list CreditBatch :=
  map (fun row => if N.eqb (id row) b then with_used_credits row (f row) now
                  else row) rows.

(** The ledger after one round of the loop: the rows with identifier [b]
    bumped and one usage row of [amount] appended. *)
Definition charged (p_user_id : uuid) (p_assignment_name : string)
  (p_assignment_id : option uuid) (now : timestamptz) (b : uuid)
  (f : CreditBatch -> Z) (amount : Z) (st : Ledger) : Ledger :=
  mkLedger (bump b f now (credit_batches st))
    (credit_usage st ++
       [mkUsage (uuid_supply st) p_user_id b amount p_assignment_name
          p_assignment_id now])
    (N.succ (uuid_supply st)).

Definition balanced (st : Ledger) : Prop :=
  forall b, In b (credit_batches st) ->
            usage_total (id b) (credit_usage st) = used_credits b.

(** The columns no statement of the procedures writes after the insert. *)
Definition fixed_columns (b b' : CreditBatch) : Prop :=
  id b' = id b /\ user_id b' = user_id b /\ credits b' = credits b
  /\ subscription_type b' = subscription_type b
  /\ expires_at b' = expires_at b /\ created_at b' = created_at b.

(** What the loop relies on: the stored state obeys the schema, and the
    rows to visit are distinct rows of the table whose available credits
    were computed and found positive. *)
Definition loop_ready (st : Ledger) (rows : list CreditBatch) : Prop :=
  schema st /\ NoDup (map id rows) /\ incl rows (credit_batches st)
  /\ Forall (fun b => in_int4 (available b) = true /\ 0 < available b) rows.

(** What the loop takes from which row, and whether it ends on
    [RETURN TRUE], read off the rows alone. *)
Fixpoint charges (rows : list CreditBatch) (remaining : Z)
  : list (CreditBatch * Z) :=
  match rows with
  | [] => []
  | b :: rest =>
      if available b >=? remaining then [(b, remaining)]
      else (b, available b) :: charges rest (remaining - available b)
  end.

Fixpoint covered (rows : list CreditBatch) (remaining : Z) : bool :=
  match rows with
  | [] => false
  | b :: rest =>
      if available b >=? remaining then true
      else covered rest (remaining - available b)
  end.

Fixpoint charge_all (u : uuid) (a : string) (i : option uuid)
  (now : timestamptz) (cs : list (CreditBatch * Z)) (st : Ledger) : Ledger :=
  match cs with
  | [] => st
  | (b, amount) :: rest =>
      charge_all u a i now rest
        (charged u a i now (id b) (fun row => used_credits row + amount)
           amount st)
  end.

(** The usage rows a list of charges inserts, identifiers drawn from
    [supply] on. *)
Fixpoint usage_rows (u : uuid) (a : string) (i : option uuid)
  (now : timestamptz) (supply : N) (cs : list (CreditBatch * Z))
  : list CreditUsage :=
  match cs with
  | [] => []
  | (b, amount) :: rest =>
      mkUsage supply u (id b) amount a i now
        :: usage_rows u a i now (N.succ supply) rest
  end.

(** A ledger to try the statements on: owner 7 is given 5 free credits
    that last 14 days and a student batch of 3, and has 6 credits
    deducted one day later. *)
Definition sample_calls : list Call :=
  [call_add_credits 7%N 5 "free" 14 0;
   call_add_credits 7%N 3 "student" 0 0;
   call_deduct_credits 7%N 6 "essay" None usecs_per_day].

Definition sample_ledger : Ledger :=
  run_calls
    [call_add_credits 7%N 5 "free" 14 0; call_add_credits 7%N 3 "student" 0 0]
    empty_ledger.

(** The ledger of the example of C2, the later-expiring batch stored
    first: owner 7 holds 10 student credits that expire in 30 days
    (batch 0) and 2 free credits that expire in 5 days (batch 1). *)
Definition two_batches : Ledger :=
  run_calls
    [call_add_credits 7%N 10 "student" 0 0; call_add_credits 7%N 2 "free" 5 0]
    empty_ledger.

(** The ledger of the example of C3: one batch of 5 credits, none used. *)
Definition one_batch : Ledger :=
  run_calls [call_add_credits 7%N 5 "free" 14 0] empty_ledger.

(** The ledger of the example of C4: B1 of 5 credits, all used, then B2
    of 3 and B3 of 2, expiring after 10, 20 and 30 days. *)
Definition three_batches : Ledger :=
  run_calls
    [call_add_credits 7%N 5 "free" 10 0;
     call_deduct_credits 7%N 5 "first" None 0;
     call_add_credits 7%N 3 "free" 20 0;
     call_add_credits 7%N 2 "free" 30 0]
    empty_ledger.

(** A call that neither allocates nor deducts a negative amount. *)
Definition non_negative_call (c : Call) : Prop :=
  match c with
  | call_add_credits _ n _ _ _ => 0 <= n
  | call_add_plan_credits _ _ _ => True
  | call_deduct_credits _ n _ _ _ => 0 <= n
  end.

Definition within_bounds (b : CreditBatch) : Prop :=
  0 <= used_credits b <= credits b.

(** How a batch may differ after a call with non-negative amounts. *)
Definition grown (b b' : CreditBatch) : Prop :=
  fixed_columns b b' /\ used_credits b <= used_credits b'
  /\ (within_bounds b -> within_bounds b').

(** A ledger whose one batch has [used_credits = -1]: 5 credits are
    allocated and -1 deducted. *)
Definition overdrawn_calls : list Call :=
  [call_add_credits 7%N 5 "free" 14 0;
   call_deduct_credits 7%N (-1) "essay" None 0].

Definition overdrawn : Ledger := run_calls overdrawn_calls empty_ledger.

(** The query of the loop can be evaluated: [credits - used_credits] is
    an [INTEGER] on every batch of the owner that has not expired, the
    rows on which the [WHERE] clause gets as far as that difference. *)
Definition query_in_range (p_user_id : uuid) (now : timestamptz)
  (rows : list CreditBatch) : Prop :=
  forall b, In b rows -> user_id b = p_user_id -> now < expires_at b ->
            in_int4 (credits b - used_credits b) = true.

(** The batches the query selects. *)
Definition active (p_user_id : uuid) (now : timestamptz) (b : CreditBatch)
  : Prop :=
  user_id b = p_user_id /\ now < expires_at b
  /\ 0 < credits b - used_credits b.

(** A ledger on which the query cannot be evaluated: the largest
    [INTEGER] is allocated and -1 deducted, which leaves a batch with
    [credits - used_credits = 2147483648]; 5 more credits that expire
    earlier are allocated then. *)
Definition overfull_calls : list Call :=
  [call_add_credits 7%N 2147483647 "free" 14 0;
   call_deduct_credits 7%N (-1) "essay" None 0;
   call_add_credits 7%N 5 "free" 5 0].

Definition overfull : Ledger := run_calls overfull_calls empty_ledger.

(** ** The credits service *)

(** The rest of the client-side service [getRemainingCredits] belongs
    to, each function run against a store that answers, at the time
    [now] of the client for a query and of the database for a procedure.
    A function returns what it resolves to and the ledger it leaves. *)

(** [getCreditCost(operation)]. *)
Definition getCreditCost (operation : string) : Z :=
  if String.eqb operation "text_analysis" then 3
  else if String.eqb operation "image_analysis" then 3
  else if String.eqb operation "image_ocr" then 3
  else if String.eqb operation "detailed_feedback" then 2
  else 1.

(** [hasEnoughCredits(userId, requiredCredits)]. *)
Definition hasEnoughCredits (userId : uuid) (requiredCredits : Z)
  (now : timestamptz) (st : Ledger) : bool * Ledger :=
  let (remainingCredits, st') := getRemainingCredits userId now st in
  (remainingCredits >=? requiredCredits, st').

(** [deductCredits(userId, creditsToDeduct, assignmentName,
    assignmentId?)]: [data === true], and [false] when the call comes
    back with an error. *)
Definition deductCredits (userId : uuid) (creditsToDeduct : Z)
  (assignmentName : string) (assignmentId : option uuid)
  (now : timestamptz) (st : Ledger) : bool * Ledger :=
  match
    deduct_credits userId creditsToDeduct assignmentName assignmentId now st
  with
  | Ok (data, st') => (Bool.eqb data true, st')
  | Raise _ => (false, st)
  end.

(** [addCredits(userId, credits, subscriptionType = 'free',
    expiryDays?)]: the identifier of the batch, or [null] on an error.
    A missing [expiryDays] leaves [p_expiry_days] to its default. *)
Definition addCredits (userId : uuid) (credits : Z)
  (subscriptionType : string) (expiryDays : option Z)
  (now : timestamptz) (st : Ledger) : option uuid * Ledger :=
  match
    add_credits userId credits subscriptionType
      (match expiryDays with
       | Some days => days
       | None => default_expiry_days
       end) now st
  with
  | Ok (data, st') => (Some data, st')
  | Raise _ => (None, st)
  end.

(** [addPlanCredits(userId, planType)]. *)
Definition addPlanCredits (userId : uuid) (planType : string)
  (now : timestamptz) (st : Ledger) : option uuid * Ledger :=
  match add_plan_credits userId planType now st with
  | Ok (data, st') => (Some data, st')
  | Raise _ => (None, st)
  end.

(** [initializeUserCredits(userId, credits = 1,
    subscriptionType = 'free')]: the identifiers of at most one batch of
    the user are read, and credits are added only when there is none. *)
Definition initializeUserCredits (userId : uuid) (credits : Z)
  (subscriptionType : string) (now : timestamptz) (st : Ledger) : Ledger :=
  let existingBatches :=
    firstn 1
      (map id
         (filter (fun row => N.eqb (user_id row) userId) (credit_batches st)))
  in
  if Nat.ltb 0 (List.length existingBatches) then st
  else snd (addCredits userId credits subscriptionType (Some 30) now st).

(** ** The first migration *)

(** [CHECK (subscription_type IN ('free', 'student', 'pro'))], the
    constraint the table is created with. *)
Definition initial_subscription_types : list string :=
  ["free"; "student"; "pro"]%string.

(** [add_credits] as the first migration defines it, on the table as
    that migration creates it. *)
Definition initial_add_credits (p_user_id : uuid) (p_credits : Z)
  (p_subscription_type : string) (p_expiry_days : Z) (now : timestamptz)
  : Tx uuid :=
  p_credits <- lift (int4 p_credits) ;;
  p_expiry_days <- lift (int4 p_expiry_days) ;;
  expiry_date <-
    lift (if String.eqb p_subscription_type "student" then now_pl_days now 90
          else if String.eqb p_subscription_type "pro" then
            now_pl_days now 365
          else now_pl_days now p_expiry_days) ;;
  new_batch_id <- gen_random_uuid ;;
  if existsb (String.eqb p_subscription_type) initial_subscription_types then
    fun st =>
      Ok (new_batch_id,
          mkLedger
            (credit_batches st ++
               [mkBatch new_batch_id p_user_id p_credits 0
                  p_subscription_type expiry_date now now])
            (credit_usage st) (uuid_supply st))
  else throw (check_violation "credit_batches_subscription_type_check").

(** ** Further notions of the properties *)

(** The batches of an owner that have not expired at [now]. *)
Definition unexpired_of (u : uuid) (now : timestamptz)
  (rows : list CreditBatch) : list CreditBatch :=
  filter (fun b => N.eqb (user_id b) u && (expires_at b >? now)) rows.

(** The batches of everyone but one owner. *)
Definition batches_of_others (u : uuid) (rows : list CreditBatch)
  : list CreditBatch :=
  filter (fun b => negb (N.eqb (user_id b) u)) rows.

(** The subscription types whose duration the [CASE] fixes. *)
Definition fixed_duration (t : string) : bool :=
  String.eqb t "student" || String.eqb t "student_yearly"
  || String.eqb t "pro" || String.eqb t "pro_yearly".

(** Whether the [CASE] of [add_credits] computes a timestamp. *)
Definition expiry_in_range (t : string) (d : Z) (now : timestamptz) : bool :=
  fixed_duration t || days_in_range now d.

(** A call that, when it allocates, allocates no negative amount. *)
Definition non_negative_allocation (c : Call) : Prop :=
  match c with
  | call_add_credits _ n _ _ _ => 0 <= n
  | _ => True
  end.

(** How a batch may differ after a call: the counter stays at or below
    the credits when it was. *)
Definition capped (b b' : CreditBatch) : Prop :=
  fixed_columns b b'
  /\ (used_credits b <= credits b -> used_credits b' <= credits b').

(** A call that, when it deducts, deducts no negative amount. *)
Definition non_negative_deduction (c : Call) : Prop :=
  match c with
  | call_deduct_credits _ n _ _ _ => 0 <= n
  | _ => True
  end.

(** How a batch may differ after a call that deducts no negative
    amount. *)
Definition raised (b b' : CreditBatch) : Prop :=
  id b' = id b /\ used_credits b <= used_credits b'.

(** A call that, when it deducts, deducts a positive amount. *)
Definition positive_deduction (c : Call) : Prop :=
  match c with
  | call_deduct_credits _ n _ _ _ => 0 < n
  | _ => True
  end.

(** What a run of the loop at [now] may make of a batch: nothing, or a
    batch with another counter and [updated_at = now]. *)
Definition touched_at (now : timestamptz) (b b' : CreditBatch) : Prop :=
  b' = b \/ (fixed_columns b b' /\ updated_at b' = now).

(** * Properties *)

(** ** Range-checked arithmetic *)

Lemma in_int4_iff (z : Z) : in_int4 z = true <-> int4_min <= z <= int4_max.
Proof. unfold in_int4. rewrite andb_true_iff, !Z.leb_le. tauto. Qed.

Lemma int4_ok (z r : Z) : int4 z = Ok r <-> in_int4 z = true /\ r = z.
Proof.
  unfold int4. destruct (in_int4 z); split; intros H.
  - inversion H. auto.
  - destruct H as [_ ->]. reflexivity.
  - discriminate.
  - destruct H. discriminate.
Qed.

Lemma int4_in (z : Z) : in_int4 z = true -> int4 z = Ok z.
Proof. intros H. apply int4_ok. auto. Qed.

Lemma int4_bounds : int4_min = -2147483648 /\ int4_max = 2147483647.
Proof. split; reflexivity. Qed.

(** Linear arithmetic with the bounds of [INTEGER] spelled out. *)
Ltac int4_lia :=
  repeat match goal with
         | H : in_int4 _ = true |- _ => apply in_int4_iff in H
         end;
  try apply in_int4_iff;
  unfold available in *;
  destruct int4_bounds as [Hint4_min Hint4_max];
  rewrite ?Hint4_min, ?Hint4_max in *;
  lia.

(** ** Updating the rows with one identifier *)

Lemma bump_ids b f now rows : map id (bump b f now rows) = map id rows.
Proof.
  unfold bump. rewrite map_map. apply map_ext. intros r.
  destruct (N.eqb (id r) b); reflexivity.
Qed.

Lemma bump_in_other b f now rows r :
  In r rows -> id r <> b -> In r (bump b f now rows).
Proof.
  intros Hin Hne. unfold bump. apply in_map_iff. exists r. split; auto.
  destruct (N.eqb_spec (id r) b); congruence.
Qed.

Lemma bump_in_inv b f now rows r' :
  In r' (bump b f now rows) ->
  exists r, In r rows /\
            ((id r = b /\ r' = with_used_credits r (f r) now)
             \/ (id r <> b /\ r' = r)).
Proof.
  unfold bump. rewrite in_map_iff. intros [r [E Hin]]. exists r. split; auto.
  destruct (N.eqb_spec (id r) b); [left | right]; auto.
Qed.

Lemma bump_in_same b f now rows r :
  In r rows -> id r = b -> In (with_used_credits r (f r) now) (bump b f now rows).
Proof.
  intros Hin E. unfold bump. apply in_map_iff. exists r. split; auto.
  rewrite E, N.eqb_refl. reflexivity.
Qed.

Lemma update_where_set_used_plus n now b rows rows' :
  update_where
    (fun row =>
       match set_used_plus n now row with
       | Ok row' => Ok (update_updated_at_column now row')
       | Raise e => Raise e
       end)
    (fun row => N.eqb (id row) b) rows = Ok rows' ->
  rows' = bump b (fun row => used_credits row + n) now rows
  /\ forall r, In r rows -> id r = b -> in_int4 (used_credits r + n) = true.
Proof.
  revert rows'. induction rows as [|r rest IH]; simpl; intros rows' H.
  - inversion H. split; [reflexivity | intros r []].
  - destruct (N.eqb_spec (id r) b) as [E|E].
    + unfold set_used_plus, int4pl, int4 in H.
      destruct (in_int4 (used_credits r + n)) eqn:Hr; [|discriminate].
      destruct (update_where _ _ rest) as [rest'|] eqn:Hrest; [|discriminate].
      destruct (IH _ eq_refl) as [-> Hall]. inversion H. split; [reflexivity|].
      intros r0 [<-|Hin] E0; auto.
    + destruct (update_where _ _ rest) as [rest'|] eqn:Hrest; [|discriminate].
      destruct (IH _ eq_refl) as [-> Hall]. inversion H. split; [reflexivity|].
      intros r0 [<-|Hin] E0; [congruence | auto].
Qed.

Lemma update_where_set_used_plus_ok n now b rows :
  (forall r, In r rows -> id r = b -> in_int4 (used_credits r + n) = true) ->
  update_where
    (fun row =>
       match set_used_plus n now row with
       | Ok row' => Ok (update_updated_at_column now row')
       | Raise e => Raise e
       end)
    (fun row => N.eqb (id row) b) rows
  = Ok (bump b (fun row => used_credits row + n) now rows).
Proof.
  induction rows as [|r rest IH]; intros H; [reflexivity|].
  cbn [update_where]. rewrite IH by (intros; apply H; simpl; auto).
  unfold bump. cbn [map].
  destruct (N.eqb_spec (id r) b) as [E|E]; [|reflexivity].
  unfold set_used_plus, int4pl. rewrite int4_in by (apply H; simpl; auto).
  reflexivity.
Qed.

Lemma update_where_set_used_all now b rows :
  update_where
    (fun row =>
       match set_used_all now row with
       | Ok row' => Ok (update_updated_at_column now row')
       | Raise e => Raise e
       end)
    (fun row => N.eqb (id row) b) rows
  = Ok (bump b credits now rows).
Proof.
  induction rows as [|r rest IH]; [reflexivity|].
  cbn [update_where]. rewrite IH. unfold bump. cbn [map].
  destruct (N.eqb (id r) b); reflexivity.
Qed.

(** ** One round of the loop *)

Section Loop.

Variables (p_user_id : uuid) (p_assignment_name : string)
  (p_assignment_id : option uuid) (now : timestamptz).

Let loop := deduct_loop p_user_id p_assignment_name p_assignment_id now.
Let charge := charged p_user_id p_assignment_name p_assignment_id now.

Lemma deduct_loop_nil remaining st : loop [] remaining st = Ok (false, st).
Proof. reflexivity. Qed.

(** The batch covers what remains: one update, one usage row, [TRUE]. *)
Lemma deduct_loop_enough batch rest remaining st :
  in_int4 (credits batch - used_credits batch) = true ->
  remaining <= credits batch - used_credits batch ->
  (forall r, In r (credit_batches st) -> id r = id batch ->
             in_int4 (used_credits r + remaining) = true) ->
  loop (batch :: rest) remaining st
  = Ok (true,
        charge (id batch) (fun row => used_credits row + remaining)
          remaining st).
Proof.
  intros Hr Hle Hall. unfold loop. simpl.
  unfold bind, lift, int4mi. rewrite int4_in by assumption.
  destruct (Z.geb_spec (credits batch - used_credits batch) remaining); [|lia].
  unfold update_credit_batches.
  rewrite update_where_set_used_plus_ok by assumption.
  reflexivity.
Qed.

(** The batch falls short: it is drained and the loop goes on. *)
Lemma deduct_loop_short batch rest remaining st :
  in_int4 (credits batch - used_credits batch) = true ->
  credits batch - used_credits batch < remaining ->
  in_int4 (remaining - (credits batch - used_credits batch)) = true ->
  loop (batch :: rest) remaining st
  = loop rest (remaining - (credits batch - used_credits batch))
      (charge (id batch) credits (credits batch - used_credits batch) st).
Proof.
  intros Hr Hlt Hr'. unfold loop. simpl.
  unfold bind, lift, int4mi. rewrite int4_in by assumption.
  destruct (Z.geb_spec (credits batch - used_credits batch) remaining); [lia|].
  unfold update_credit_batches. rewrite update_where_set_used_all.
  simpl. rewrite int4_in by assumption. reflexivity.
Qed.

(** Every way a round can return. *)
Lemma deduct_loop_cons_inv batch rest remaining st r st' :
  loop (batch :: rest) remaining st = Ok (r, st') ->
  in_int4 (credits batch - used_credits batch) = true /\
  ((remaining <= credits batch - used_credits batch
    /\ r = true
    /\ st' = charge (id batch) (fun row => used_credits row + remaining)
               remaining st
    /\ (forall row, In row (credit_batches st) -> id row = id batch ->
                    in_int4 (used_credits row + remaining) = true))
   \/
   (credits batch - used_credits batch < remaining
    /\ in_int4 (remaining - (credits batch - used_credits batch)) = true
    /\ loop rest (remaining - (credits batch - used_credits batch))
         (charge (id batch) credits (credits batch - used_credits batch) st)
       = Ok (r, st'))).
Proof.
  unfold loop. simpl. unfold bind at 1, lift, int4mi, int4.
  destruct (in_int4 (credits batch - used_credits batch)) eqn:Hr;
    [|discriminate].
  split; [reflexivity|].
  destruct (Z.geb_spec (credits batch - used_credits batch) remaining).
  - left. unfold bind, update_credit_batches in H.
    destruct (update_where _ _ (credit_batches st)) as [rows'|] eqn:Hu;
      [|discriminate].
    apply update_where_set_used_plus in Hu. destruct Hu as [-> Hall].
    simpl in H. inversion H. repeat split; auto; lia.
  - right. unfold bind, update_credit_batches in H.
    rewrite update_where_set_used_all in H. simpl in H.
    destruct (in_int4 (remaining - (credits batch - used_credits batch)))
      eqn:Hr'; [|discriminate].
    repeat split; auto.
Qed.

End Loop.

(** ** The query of the loop *)

Lemma active_batch_qual_true p_user_id now row :
  active_batch_qual p_user_id now row = Ok true <->
  user_id row = p_user_id /\ now < expires_at row
  /\ in_int4 (credits row - used_credits row) = true
  /\ 0 < credits row - used_credits row.
Proof.
  unfold active_batch_qual, int4mi, int4.
  destruct (N.eqb_spec (user_id row) p_user_id) as [E|E]; simpl.
  - destruct (Z.gtb_spec (expires_at row) now) as [G|G]; simpl.
    + destruct (in_int4 (credits row - used_credits row)).
      * destruct (Z.gtb_spec (credits row - used_credits row) 0) as [P|P];
          split; intros K; try discriminate; try (repeat split; auto; lia);
          try (destruct K as (_ & _ & _ & K); lia).
      * split; [discriminate | intros (_ & _ & H & _); discriminate].
    + split; [discriminate | intros (_ & H & _); lia].
  - split; [discriminate | intros (H & _); congruence].
Qed.

Lemma select_where_in {R : Type} (qual : R -> Result bool) rows sel r :
  select_where qual rows = Ok sel ->
  (In r sel <-> In r rows /\ qual r = Ok true).
Proof.
  revert sel. induction rows as [|x rest IH]; simpl; intros sel H.
  - inversion H. simpl. tauto.
  - destruct (qual x) as [keep|] eqn:Hq; [|discriminate].
    destruct (select_where qual rest) as [sel'|] eqn:Hs; [|discriminate].
    specialize (IH _ eq_refl). inversion H; subst; clear H.
    destruct keep; simpl; rewrite ?IH; split.
    + intros [<-|[Hin Hr]]; auto.
    + intros [[<-|Hin] Hr]; auto.
    + intros [Hin Hr]; auto.
    + intros [[<-|Hin] Hr]; [congruence | auto].
Qed.

Lemma select_where_nodup {R K : Type} (key : R -> K) (qual : R -> Result bool)
  rows sel :
  select_where qual rows = Ok sel ->
  NoDup (map key rows) -> NoDup (map key sel).
Proof.
  revert sel. induction rows as [|x rest IH]; simpl; intros sel H Hnd.
  - inversion H. constructor.
  - destruct (qual x) as [keep|] eqn:Hq; [|discriminate].
    destruct (select_where qual rest) as [sel'|] eqn:Hs; [|discriminate].
    inversion Hnd as [|? ? Hnot Hnd']; subst.
    inversion H; subst; clear H. destruct keep; [|auto].
    simpl. constructor; [|auto].
    intros Hin. apply Hnot. apply in_map_iff in Hin.
    destruct Hin as [y [E Hy]]. apply in_map_iff. exists y. split; auto.
    apply (select_where_in qual rest sel' y Hs). assumption.
Qed.

(** The query does not raise when every difference it computes fits. *)
Lemma select_where_active_ok p_user_id now rows :
  Forall (fun row => in_int4 (credits row - used_credits row) = true) rows ->
  exists sel, select_where (active_batch_qual p_user_id now) rows = Ok sel.
Proof.
  induction 1 as [|x rest Hx _ [sel IH]]; simpl; [eauto|].
  rewrite IH. unfold active_batch_qual, int4mi, int4. rewrite Hx.
  destruct (negb _); [eauto|]. destruct (negb _); eauto.
Qed.

Lemma insert_by_expires_at_perm row sorted :
  Permutation (row :: sorted) (insert_by_expires_at row sorted).
Proof.
  induction sorted as [|r rest IH]; simpl; [auto|].
  destruct (expires_at row <=? expires_at r); [auto|].
  eapply perm_trans; [apply perm_swap|]. apply perm_skip. exact IH.
Qed.

Lemma order_by_expires_at_perm rows :
  Permutation rows (order_by_expires_at rows).
Proof.
  induction rows as [|r rest IH]; simpl; [auto|].
  eapply perm_trans; [apply perm_skip; exact IH|].
  apply insert_by_expires_at_perm.
Qed.

Lemma insert_by_expires_at_sorted row sorted :
  StronglySorted expires_le sorted ->
  StronglySorted expires_le (insert_by_expires_at row sorted).
Proof.
  induction 1 as [|r rest Hs IH Hall]; simpl.
  - constructor; constructor.
  - destruct (Z.leb_spec (expires_at row) (expires_at r)) as [L|L].
    + constructor; [constructor; auto|].
      constructor; [exact L|].
      eapply Forall_impl; [|exact Hall]. unfold expires_le. intros; lia.
    + constructor; [exact IH|].
      eapply Permutation_Forall; [apply insert_by_expires_at_perm|].
      constructor; [unfold expires_le; lia | exact Hall].
Qed.

Lemma order_by_expires_at_sorted rows :
  StronglySorted expires_le (order_by_expires_at rows).
Proof.
  induction rows as [|r rest IH]; simpl; [constructor|].
  apply insert_by_expires_at_sorted. exact IH.
Qed.

(** What [select_active_batches] returns is one of the cursors. *)
Lemma select_active_batches_cursor p_user_id now st rows st' :
  select_active_batches p_user_id now st = Ok (rows, st') ->
  st' = st /\ cursor_of st p_user_id now rows.
Proof.
  unfold select_active_batches.
  destruct (select_where _ _) as [sel|] eqn:Hs; [|discriminate].
  intros H. inversion H; subst. split; [reflexivity|].
  exists sel. repeat split; auto.
  - apply order_by_expires_at_perm.
  - apply order_by_expires_at_sorted.
Qed.

(** The rows of a cursor: which they are, and what the schema gives. *)
Lemma cursor_of_in st p_user_id now rows row :
  cursor_of st p_user_id now rows ->
  (In row rows <->
   In row (credit_batches st) /\ user_id row = p_user_id
   /\ now < expires_at row
   /\ in_int4 (credits row - used_credits row) = true
   /\ 0 < credits row - used_credits row).
Proof.
  intros (sel & Hs & Hp & _).
  rewrite <- active_batch_qual_true.
  rewrite <- (select_where_in _ _ _ row Hs).
  split; intros H.
  - eapply Permutation_in; [apply Permutation_sym|]; eauto.
  - eapply Permutation_in; eauto.
Qed.

Lemma cursor_of_nodup st p_user_id now rows :
  NoDup (map id (credit_batches st)) ->
  cursor_of st p_user_id now rows -> NoDup (map id rows).
Proof.
  intros Hnd (sel & Hs & Hp & _).
  eapply Permutation_NoDup; [apply Permutation_map; exact Hp|].
  eapply select_where_nodup; eauto.
Qed.

(** ** The schema is kept *)

Lemma nodup_id_inj (rows : list CreditBatch) a b :
  NoDup (map id rows) -> In a rows -> In b rows -> id a = id b -> a = b.
Proof.
  induction rows as [|x rest IH]; simpl; intros Hnd Ha Hb E; [contradiction|].
  inversion Hnd as [|? ? Hnot Hnd']; subst.
  destruct Ha as [<-|Ha], Hb as [<-|Hb]; auto.
  - exfalso. apply Hnot. rewrite E. apply in_map. assumption.
  - exfalso. apply Hnot. rewrite <- E. apply in_map. assumption.
Qed.

Lemma schema_empty : schema empty_ledger.
Proof. split; simpl; constructor. Qed.

Lemma schema_charged u a i now b f amount st :
  schema st ->
  In b (map id (credit_batches st)) ->
  (forall r, In r (credit_batches st) -> id r = b -> in_int4 (f r) = true) ->
  schema (charged u a i now b f amount st).
Proof.
  intros [Hpk Hty Hfk Hsup] Hb Hf. split; simpl.
  - rewrite bump_ids. assumption.
  - apply Forall_forall. intros r' Hr'.
    apply bump_in_inv in Hr'. destruct Hr' as [r [Hr [[E ->]|[E ->]]]].
    + simpl. split; [|auto]. rewrite Forall_forall in Hty. apply Hty; auto.
    + rewrite Forall_forall in Hty. apply Hty; auto.
  - rewrite bump_ids. apply Forall_app. split.
    + assumption.
    + constructor; [exact Hb | constructor].
  - apply Forall_forall. intros r' Hr'.
    apply bump_in_inv in Hr'. destruct Hr' as [r [Hr [[E ->]|[E ->]]]];
      simpl; rewrite Forall_forall in Hsup; specialize (Hsup r Hr); lia.
Qed.

(** The [CASE] raises exactly when its [ELSE] branch is taken with days
    that lead out of the range of timestamps. *)
Lemma case_expiry_date_spec t d now :
  case_expiry_date t d now
  = if expiry_in_range t d now then Ok (expiry_date_of t d now)
    else Raise datetime_field_overflow.
Proof.
  unfold case_expiry_date, expiry_in_range, fixed_duration, expiry_date_of.
  destruct (String.eqb t "student"); [reflexivity|].
  destruct (String.eqb t "student_yearly"); [reflexivity|].
  destruct (String.eqb t "pro"); [reflexivity|].
  destruct (String.eqb t "pro_yearly"); [reflexivity|].
  reflexivity.
Qed.

Lemma expiry_in_range_small t d now :
  Z.abs d <= 365 -> expiry_in_range t d now = true.
Proof.
  intros H. unfold expiry_in_range, days_in_range, clock_margin_days.
  destruct (Z.leb_spec (Z.abs d) 365); [|lia].
  simpl. apply orb_true_r.
Qed.

Lemma expiry_in_range_checked t d now :
  In t subscription_types -> (t = "free"%string -> days_in_range now d = true) ->
  expiry_in_range t d now = true.
Proof.
  intros Ht Hfree. unfold expiry_in_range. simpl in Ht.
  destruct Ht as [<-|[<-|[<-|[<-|[<-|[]]]]]]; try reflexivity.
  rewrite Hfree by reflexivity. apply orb_true_r.
Qed.

(** [add_credits] returns when its arguments are [INTEGER]s, the expiry
    date is a timestamp and the subscription type passes the check; what
    it then does. *)
Lemma add_credits_ok u n t d now st :
  in_int4 n = true -> in_int4 d = true ->
  credit_batches_subscription_type_check t = true ->
  expiry_in_range t d now = true ->
  add_credits u n t d now st
  = Ok (uuid_supply st,
        mkLedger
          (credit_batches st ++
             [mkBatch (uuid_supply st) u n 0 t (expiry_date_of t d now) now now])
          (credit_usage st) (N.succ (uuid_supply st))).
Proof.
  intros Hn Hd Ht He.
  unfold add_credits, bind, lift, insert_credit_batch, bind.
  rewrite !int4_in by assumption. rewrite case_expiry_date_spec, He.
  simpl. rewrite Ht. reflexivity.
Qed.

Lemma add_credits_inv_expiry u n t d now st nid st' :
  add_credits u n t d now st = Ok (nid, st') ->
  expiry_in_range t d now = true.
Proof.
  unfold add_credits, bind, lift, int4.
  destruct (in_int4 n); [|discriminate].
  destruct (in_int4 d); [|discriminate].
  rewrite case_expiry_date_spec.
  destruct (expiry_in_range t d now); [reflexivity | discriminate].
Qed.

Lemma add_credits_inv u n t d now st nid st' :
  add_credits u n t d now st = Ok (nid, st') ->
  in_int4 n = true /\ in_int4 d = true
  /\ credit_batches_subscription_type_check t = true
  /\ nid = uuid_supply st
  /\ st' = mkLedger
             (credit_batches st ++
                [mkBatch (uuid_supply st) u n 0 t (expiry_date_of t d now)
                   now now])
             (credit_usage st) (N.succ (uuid_supply st)).
Proof.
  unfold add_credits, bind, lift, insert_credit_batch, bind, int4.
  destruct (in_int4 n); [|discriminate].
  destruct (in_int4 d); [|discriminate].
  rewrite case_expiry_date_spec.
  destruct (expiry_in_range t d now); [|discriminate]. simpl.
  destruct (credit_batches_subscription_type_check t); [|discriminate].
  intros H. inversion H. auto.
Qed.

Lemma add_plan_credits_inv u p now st nid st' :
  add_plan_credits u p now st = Ok (nid, st') ->
  exists n t, plan_credits p = Some (n, t)
              /\ add_credits u n t default_expiry_days now st = Ok (nid, st').
Proof.
  unfold add_plan_credits. destruct (plan_credits p) as [[n t]|];
    [|discriminate].
  unfold bind at 1. intros H. exists n, t. split; [reflexivity|].
  destruct (add_credits u n t default_expiry_days now st) as [[x s]|];
    [exact H | discriminate].
Qed.

Lemma schema_add_credits u n t d now st nid st' :
  schema st -> add_credits u n t d now st = Ok (nid, st') -> schema st'.
Proof.
  intros [Hpk Hty Hfk Hsup] H.
  apply add_credits_inv in H. destruct H as (Hn & _ & _ & _ & ->).
  split; simpl.
  - rewrite map_app. simpl. apply NoDup_app_remove_l with (l := []).
    simpl. apply Permutation_NoDup with (l := uuid_supply st :: map id (credit_batches st)).
    + apply Permutation_cons_append.
    + constructor; [|assumption].
      intros Hin. apply in_map_iff in Hin. destruct Hin as [r [E Hr]].
      rewrite Forall_forall in Hsup. specialize (Hsup r Hr). lia.
  - apply Forall_app. split; [assumption|].
    constructor; [|constructor]. simpl. split; [assumption | reflexivity].
  - eapply Forall_impl; [|exact Hfk]. intros u0 Hu. simpl in Hu.
    rewrite map_app. apply in_or_app. auto.
  - apply Forall_app. split.
    + eapply Forall_impl; [|exact Hsup]. simpl. intros; lia.
    + constructor; [simpl; lia | constructor].
Qed.

(** ** Usage rows match the consumed counters *)

Lemma usage_total_app b us vs :
  usage_total b (us ++ vs) = usage_total b us + usage_total b vs.
Proof. induction us as [|u rest IH]; simpl; [reflexivity | rewrite IH; lia]. Qed.

Lemma balanced_charged u a i now b f amount st :
  balanced st ->
  (forall r, In r (credit_batches st) -> id r = b ->
             f r = used_credits r + amount) ->
  balanced (charged u a i now b f amount st).
Proof.
  intros Hbal Hf r' Hr'. simpl in *.
  rewrite usage_total_app. simpl.
  apply bump_in_inv in Hr'. destruct Hr' as [r [Hr [[E ->]|[E ->]]]]; simpl.
  - rewrite E, N.eqb_refl, <- E, (Hbal r Hr), (Hf r Hr E). lia.
  - destruct (N.eqb_spec b (id r)); [congruence|]. rewrite (Hbal r Hr). lia.
Qed.

(** No usage row refers to an identifier the supply has yet to give. *)
Lemma usage_total_fresh st :
  schema st -> usage_total (uuid_supply st) (credit_usage st) = 0.
Proof.
  intros [_ _ Hfk Hsup].
  induction (credit_usage st) as [|x us IH]; simpl; [reflexivity|].
  inversion Hfk as [|? ? Hx Hfk']; subst. rewrite (IH Hfk').
  destruct (N.eqb_spec (batch_id x) (uuid_supply st)) as [E|E]; [|reflexivity].
  exfalso. apply in_map_iff in Hx. destruct Hx as [r [Er Hr]].
  rewrite Forall_forall in Hsup. specialize (Hsup r Hr). lia.
Qed.

Lemma balanced_add_credits u n t d now st nid st' :
  schema st -> balanced st ->
  add_credits u n t d now st = Ok (nid, st') -> balanced st'.
Proof.
  intros Hs Hbal H. apply add_credits_inv in H.
  destruct H as (_ & _ & _ & _ & ->). intros b Hb. simpl in *.
  apply in_app_or in Hb. destruct Hb as [Hb|[<-|[]]]; [auto|]. simpl.
  apply usage_total_fresh. assumption.
Qed.

Section LoopInvariant.

Variables (u : uuid) (a : string) (i : option uuid) (now : timestamptz).

(** The rows still to visit are rows of the table, untouched so far. *)
Lemma incl_rest_charged batch rest f amount st :
  NoDup (map id (batch :: rest)) ->
  incl (batch :: rest) (credit_batches st) ->
  incl rest (credit_batches (charged u a i now (id batch) f amount st)).
Proof.
  intros Hnd Hincl r Hr. simpl. apply bump_in_other.
  - apply Hincl. simpl. auto.
  - inversion Hnd as [|? ? Hnot _]; subst. intros E. apply Hnot.
    rewrite <- E. apply in_map. assumption.
Qed.

Lemma deduct_loop_invariant rows : forall n st r st',
  schema st -> balanced st ->
  NoDup (map id rows) -> incl rows (credit_batches st) ->
  deduct_loop u a i now rows n st = Ok (r, st') ->
  schema st' /\ balanced st'.
Proof.
  induction rows as [|batch rest IH]; intros n st r st' Hs Hbal Hnd Hincl H.
  - inversion H; subst. auto.
  - assert (Hb : In batch (credit_batches st)) by (apply Hincl; simpl; auto).
    apply deduct_loop_cons_inv in H.
    destruct H as [Hav [(Hle & -> & -> & Hall)|(Hlt & Hr & H)]].
    + split.
      * apply schema_charged; auto. apply in_map. assumption.
      * apply balanced_charged; auto.
    + apply IH in H; auto.
      * apply schema_charged; auto; [apply in_map; assumption|].
        intros x Hx _. destruct Hs as [_ Hty _ _].
        rewrite Forall_forall in Hty. apply (Hty x Hx).
      * apply balanced_charged; auto. intros x Hx E.
        assert (x = batch)
          by (apply (nodup_id_inj (credit_batches st)); auto;
              apply Hs).
        subst. lia.
      * inversion Hnd; assumption.
      * eapply incl_rest_charged; eauto.
Qed.

End LoopInvariant.

Lemma step_invariant st c st' :
  step st c st' -> schema st -> balanced st -> schema st' /\ balanced st'.
Proof.
  intros Hstep Hs Hbal. destruct Hstep as
    [st u n t d now | st u p now | st u n a i now rows Hn Hc | |]; auto.
  - destruct (add_credits u n t d now st) as [[nid st']|] eqn:H; simpl; auto.
    split; [eapply schema_add_credits | eapply balanced_add_credits]; eauto.
  - destruct (add_plan_credits u p now st) as [[nid st']|] eqn:H; simpl; auto.
    apply add_plan_credits_inv in H. destruct H as (n & t & _ & H).
    split; [eapply schema_add_credits | eapply balanced_add_credits]; eauto.
  - destruct (deduct_loop u a i now rows n st) as [[r st']|] eqn:H; simpl; auto.
    eapply deduct_loop_invariant; eauto.
    + eapply cursor_of_nodup; eauto. apply Hs.
    + intros r0 Hr0. apply (cursor_of_in _ _ _ _ r0 Hc). assumption.
Qed.

Lemma steps_invariant st cs st' :
  steps st cs st' -> schema st -> balanced st -> schema st' /\ balanced st'.
Proof.
  induction 1 as [|st c st1 cs st2 Hstep _ IH]; intros Hs Hbal; auto.
  destruct (step_invariant _ _ _ Hstep Hs Hbal). auto.
Qed.

(** ** What a call of the loop leaves alone *)

Lemma fixed_columns_refl b : fixed_columns b b.
Proof. repeat split. Qed.

Lemma Forall2_refl_on {A : Type} (R : A -> A -> Prop) (l : list A) :
  (forall x, R x x) -> Forall2 R l l.
Proof. intros HR. induction l; constructor; auto. Qed.

Lemma Forall2_trans_on {A : Type} (R : A -> A -> Prop) :
  (forall x y z, R x y -> R y z -> R x z) ->
  forall l1 l2 l3, Forall2 R l1 l2 -> Forall2 R l2 l3 -> Forall2 R l1 l3.
Proof.
  intros HR l1 l2 l3 H12. revert l3.
  induction H12; intros l3 H23; inversion H23; subst; constructor; eauto.
Qed.

Lemma Forall2_in_l {A B : Type} (R : A -> B -> Prop) l1 l2 x :
  Forall2 R l1 l2 -> In x l1 -> exists y, In y l2 /\ R x y.
Proof.
  induction 1 as [|a b l1' l2' Hab _ IH]; simpl; [contradiction|].
  intros [<-|Hin]; [eauto|]. destruct (IH Hin) as [y [Hy Hr]]. eauto.
Qed.

Lemma bump_Forall2 (R : CreditBatch -> CreditBatch -> Prop) b f now rows :
  (forall r, In r rows -> id r <> b -> R r r) ->
  (forall r, In r rows -> id r = b -> R r (with_used_credits r (f r) now)) ->
  Forall2 R rows (bump b f now rows).
Proof.
  induction rows as [|x rest IH]; simpl; intros H1 H2; constructor.
  - destruct (N.eqb_spec (id x) b); auto.
  - apply IH; auto.
Qed.

Section LoopFrame.

Variables (u : uuid) (a : string) (i : option uuid) (now : timestamptz).

(** Whatever the amount, a run of the loop neither adds nor removes a
    batch, writes no column but [used_credits] and [updated_at],
    leaves every batch outside the cursor as it was, and appends usage
    rows for batches of the cursor only. *)
Lemma deduct_loop_frame rows : forall n st r st',
  deduct_loop u a i now rows n st = Ok (r, st') ->
  Forall2 fixed_columns (credit_batches st) (credit_batches st')
  /\ (forall b, In b (credit_batches st) -> ~ In (id b) (map id rows) ->
                In b (credit_batches st'))
  /\ exists us, credit_usage st' = credit_usage st ++ us
                /\ Forall (fun x => In (batch_id x) (map id rows)) us.
Proof.
  induction rows as [|batch rest IH]; intros n st r st' H.
  - inversion H; subst. repeat split.
    + apply Forall2_refl_on. apply fixed_columns_refl.
    + auto.
    + exists []. rewrite app_nil_r. auto.
  - apply deduct_loop_cons_inv in H.
    destruct H as [Hav [(Hle & -> & -> & Hall)|(Hlt & Hr & H)]].
    + repeat split.
      * simpl. apply bump_Forall2; intros; repeat split.
      * intros b Hb Hnot. simpl. apply bump_in_other; auto.
        intros E. apply Hnot. simpl. auto.
      * eexists. split; [reflexivity|]. constructor; [|constructor].
        simpl. auto.
    + apply IH in H. destruct H as (Hfix & Hout & us & Hus & Hall).
      repeat split.
      * eapply Forall2_trans_on; [| |exact Hfix].
        -- unfold fixed_columns. intros x y z Hxy Hyz.
           repeat split; destruct Hxy as (?&?&?&?&?&?), Hyz as (?&?&?&?&?&?);
             congruence.
        -- simpl. apply bump_Forall2; intros; repeat split.
      * intros b Hb Hnot. apply Hout.
        -- simpl. apply bump_in_other; auto.
           intros E. apply Hnot. simpl. auto.
        -- intros Hin. apply Hnot. simpl. auto.
      * eexists. split.
        -- rewrite Hus. simpl. rewrite <- app_assoc. reflexivity.
        -- simpl. constructor; [simpl; auto|].
           eapply Forall_impl; [|exact Hall]. simpl. auto.
Qed.

End LoopFrame.

Lemma find_batch_in st b :
  NoDup (map id (credit_batches st)) -> In b (credit_batches st) ->
  find_batch (id b) st = Some b.
Proof.
  unfold find_batch. intros Hnd Hin.
  destruct (find _ _) as [x|] eqn:Hf.
  - apply find_some in Hf. destruct Hf as [Hx E]. apply N.eqb_eq in E.
    f_equal. eapply nodup_id_inj; eauto.
  - exfalso. apply (find_none _ _ Hf) in Hin. rewrite N.eqb_refl in Hin.
    discriminate.
Qed.

Lemma find_batch_some st b x :
  find_batch b st = Some x -> In x (credit_batches st) /\ id x = b.
Proof.
  unfold find_batch. intros Hf. apply find_some in Hf.
  destruct Hf as [Hx E]. apply N.eqb_eq in E. auto.
Qed.

(** ** The rows the loop starts from *)

Lemma cursor_ready st u now rows :
  schema st -> cursor_of st u now rows -> loop_ready st rows.
Proof.
  intros Hs Hc. split; [|split; [|split]].
  - assumption.
  - eapply cursor_of_nodup; eauto. apply Hs.
  - intros r Hr. apply (cursor_of_in _ _ _ _ r Hc). assumption.
  - apply Forall_forall. intros r Hr.
    apply (cursor_of_in _ _ _ _ r Hc) in Hr. unfold available. tauto.
Qed.

Lemma loop_ready_typed st rows b :
  loop_ready st rows -> In b rows ->
  in_int4 (credits b) = true /\ in_int4 (used_credits b) = true.
Proof.
  intros ([_ Hty _ _] & _ & Hincl & _) Hb.
  rewrite Forall_forall in Hty. apply Hty. apply Hincl. assumption.
Qed.

Lemma loop_ready_unique st batch rest r :
  loop_ready st (batch :: rest) ->
  In r (credit_batches st) -> id r = id batch -> r = batch.
Proof.
  intros ([Hpk _ _ _] & _ & Hincl & _) Hr E.
  apply (nodup_id_inj (credit_batches st)); auto. apply Hincl. simpl. auto.
Qed.

Lemma total_available_nonneg rows :
  Forall (fun b => in_int4 (available b) = true /\ 0 < available b) rows ->
  0 <= total_available rows.
Proof.
  induction 1 as [|b rest [_ Hb] _ IH]; simpl; unfold available in *; lia.
Qed.

Lemma total_available_pos b rest :
  Forall (fun b => in_int4 (available b) = true /\ 0 < available b) (b :: rest) ->
  0 < total_available (b :: rest).
Proof.
  intros H. inversion H as [|? ? [_ Hb] Hrest]; subst.
  apply total_available_nonneg in Hrest. simpl. unfold available in *. lia.
Qed.

Lemma bump_ext b f g now rows :
  (forall r, In r rows -> id r = b -> f r = g r) ->
  bump b f now rows = bump b g now rows.
Proof.
  intros H. unfold bump. apply map_ext_in. intros r Hr.
  destruct (N.eqb_spec (id r) b); [|reflexivity]. rewrite (H r Hr); auto.
Qed.

Section LoopReady.

Variables (u : uuid) (a : string) (i : option uuid) (now : timestamptz).

Lemma loop_ready_charged batch rest f amount st :
  loop_ready st (batch :: rest) ->
  in_int4 (f batch) = true ->
  loop_ready (charged u a i now (id batch) f amount st) rest.
Proof.
  intros Hready Hf.
  pose proof Hready as (Hs & Hnd & Hincl & Hall). split; [|split; [|split]].
  - apply schema_charged; auto.
    + apply in_map. apply Hincl. simpl. auto.
    + intros r Hr E.
      rewrite (loop_ready_unique _ _ _ _ Hready Hr E). assumption.
  - inversion Hnd; assumption.
  - eapply incl_rest_charged; eauto.
  - inversion Hall; assumption.
Qed.

(** Draining a batch sets its counter to what it was plus what was
    available. *)
Lemma charged_drain batch rest amount st :
  loop_ready st (batch :: rest) ->
  charged u a i now (id batch) credits amount st
  = charged u a i now (id batch)
      (fun row => used_credits row + available batch) amount st.
Proof.
  intros Hready. unfold charged. f_equal. apply bump_ext. intros r Hr E.
  rewrite (loop_ready_unique _ _ _ _ Hready Hr E). unfold available. lia.
Qed.

End LoopReady.

(** ** The plan of a deduction *)

Section Plan.

Variables (u : uuid) (a : string) (i : option uuid) (now : timestamptz).

(** With an amount from 0 to the largest [INTEGER] the loop cannot
    raise, and does what the plan says. *)
Lemma deduct_loop_charges rows : forall n st,
  loop_ready st rows -> 0 <= n -> in_int4 n = true ->
  deduct_loop u a i now rows n st
  = Ok (covered rows n, charge_all u a i now (charges rows n) st).
Proof.
  induction rows as [|batch rest IH]; intros n st Hready Hn Hty;
    [reflexivity|].
  pose proof Hready as (Hs & Hnd & Hincl & Hall).
  inversion Hall as [|? ? [Hav Hpos] Hall']; subst.
  destruct (loop_ready_typed _ _ batch Hready) as [Hc Hu]; [simpl; auto|].
  cbn [charges covered].
  destruct (Z.geb_spec (available batch) n) as [G|G].
  - cbn [charge_all]. apply deduct_loop_enough.
    + assumption.
    + assumption.
    + intros r Hr E. rewrite (loop_ready_unique _ _ _ _ Hready Hr E).
      int4_lia.
  - cbn [charge_all]. rewrite deduct_loop_short.
    + rewrite (charged_drain u a i now batch rest _ st Hready).
      apply IH.
      * apply loop_ready_charged; auto. int4_lia.
      * unfold available in *. lia.
      * int4_lia.
    + assumption.
    + assumption.
    + int4_lia.
Qed.

Lemma charge_all_ids cs : forall st,
  map id (credit_batches (charge_all u a i now cs st))
  = map id (credit_batches st).
Proof.
  induction cs as [|[b amount] rest IH]; intros st; simpl; [reflexivity|].
  rewrite IH. simpl. apply bump_ids.
Qed.

Lemma charge_all_other cs : forall st b,
  In b (credit_batches st) ->
  ~ In (id b) (map (fun c => id (fst c)) cs) ->
  In b (credit_batches (charge_all u a i now cs st)).
Proof.
  induction cs as [|[x amount] rest IH]; intros st b Hb Hnot; simpl; auto.
  apply IH.
  - simpl. apply bump_in_other; auto. intros E. apply Hnot. simpl. auto.
  - intros Hin. apply Hnot. simpl. auto.
Qed.

Lemma charge_all_usage cs : forall st,
  credit_usage (charge_all u a i now cs st)
  = credit_usage st ++ usage_rows u a i now (uuid_supply st) cs.
Proof.
  induction cs as [|[x amount] rest IH]; intros st; simpl.
  - rewrite app_nil_r. reflexivity.
  - rewrite IH. simpl. rewrite <- app_assoc. reflexivity.
Qed.

Lemma charge_all_charged cs : forall st,
  NoDup (map (fun c => id (fst c)) cs) ->
  (forall c, In c cs -> In (fst c) (credit_batches st)) ->
  forall c, In c cs ->
    In (with_used_credits (fst c) (used_credits (fst c) + snd c) now)
       (credit_batches (charge_all u a i now cs st)).
Proof.
  induction cs as [|[x amount] rest IH]; intros st Hnd Hin c Hc;
    [contradiction|].
  inversion Hnd as [|? ? Hnot Hnd']; subst. simpl in Hnot.
  simpl. destruct Hc as [<-|Hc].
  - apply charge_all_other.
    + simpl. apply (bump_in_same (id x)
        (fun row => used_credits row + amount) now _ x); auto.
      apply (Hin (x, amount)). simpl. auto.
    + exact Hnot.
  - apply IH; auto. intros c' Hc'. simpl. apply bump_in_other.
    + apply Hin. simpl. auto.
    + intros E. apply Hnot. rewrite <- E.
      apply (in_map (fun c => id (fst c)) rest c'). assumption.
Qed.

Lemma usage_rows_fields supply cs :
  map (fun x => (batch_id x, credits_used x)) (usage_rows u a i now supply cs)
  = map (fun c => (id (fst c), snd c)) cs.
Proof.
  revert supply. induction cs as [|[x amount] rest IH]; intros supply; simpl;
    [reflexivity | rewrite IH; reflexivity].
Qed.

End Plan.

(** The rows a plan charges are the first rows of the cursor. *)
Lemma charges_prefix rows : forall n,
  exists k, map fst (charges rows n) = firstn k rows.
Proof.
  induction rows as [|b rest IH]; intros n; simpl.
  - exists 0%nat. reflexivity.
  - destruct (available b >=? n).
    + exists 1%nat. reflexivity.
    + destruct (IH (n - available b)) as [k Hk]. exists (S k). simpl.
      rewrite Hk. reflexivity.
Qed.

(** An amount that reaches the total available drains every row. *)
Lemma charges_drain_all rows : forall n,
  Forall (fun b => in_int4 (available b) = true /\ 0 < available b) rows ->
  total_available rows <= n ->
  charges rows n = map (fun b => (b, available b)) rows.
Proof.
  induction rows as [|b rest IH]; intros n Hall Hn; [reflexivity|].
  inversion Hall as [|? ? [_ Hb] Hrest]; subst. simpl in *.
  fold (available b) in Hn.
  pose proof (total_available_nonneg rest Hrest) as Hnn.
  destruct (Z.geb_spec (available b) n) as [G|G].
  - assert (n = available b) by lia. subst n.
    destruct rest as [|b' rest']; [reflexivity|].
    pose proof (total_available_pos b' rest' Hrest). lia.
  - f_equal. apply IH; auto. lia.
Qed.

Lemma covered_iff rows : forall n,
  Forall (fun b => in_int4 (available b) = true /\ 0 < available b) rows ->
  0 < n ->
  (covered rows n = true <-> n <= total_available rows).
Proof.
  induction rows as [|b rest IH]; intros n Hall Hn; simpl.
  - split; [discriminate | lia].
  - inversion Hall as [|? ? [_ Hb] Hrest]; subst. fold (available b).
    pose proof (total_available_nonneg rest Hrest) as Hnn.
    destruct (Z.geb_spec (available b) n) as [G|G].
    + split; [lia | reflexivity].
    + rewrite IH by (auto; lia). lia.
Qed.

(** The plan charges the amount asked for when it is covered, and
    everything available when it is not. *)
Lemma charges_sum rows : forall n,
  Forall (fun b => in_int4 (available b) = true /\ 0 < available b) rows ->
  0 < n ->
  fold_right (fun c acc => snd c + acc) 0 (charges rows n)
  = if covered rows n then n else total_available rows.
Proof.
  induction rows as [|b rest IH]; intros n Hall Hn; simpl; [reflexivity|].
  inversion Hall as [|? ? [_ Hb] Hrest]; subst. fold (available b).
  destruct (Z.geb_spec (available b) n) as [G|G]; simpl; [lia|].
  rewrite IH by (auto; lia).
  destruct (covered rest (n - available b)); lia.
Qed.

(** ** Counter and usage rows move together *)

Section Delta.

Variables (u : uuid) (a : string) (i : option uuid) (now : timestamptz).

Lemma charged_delta bid f amount st b :
  In b (credit_batches st) ->
  (forall r, In r (credit_batches st) -> id r = bid ->
             f r = used_credits r + amount) ->
  exists b1,
    In b1 (credit_batches (charged u a i now bid f amount st))
    /\ id b1 = id b
    /\ used_credits b1 - used_credits b
       = usage_total (id b)
           (credit_usage (charged u a i now bid f amount st))
         - usage_total (id b) (credit_usage st).
Proof.
  intros Hb Hf. simpl. rewrite usage_total_app. simpl.
  destruct (N.eqb_spec bid (id b)) as [E|E].
  - exists (with_used_credits b (f b) now). split; [|split].
    + apply bump_in_same; auto.
    + reflexivity.
    + simpl. rewrite (Hf b Hb) by auto. lia.
  - exists b. split; [|split].
    + apply bump_in_other; auto.
    + reflexivity.
    + lia.
Qed.

Lemma deduct_loop_delta rows : forall n st r st',
  loop_ready st rows ->
  deduct_loop u a i now rows n st = Ok (r, st') ->
  forall b, In b (credit_batches st) ->
    exists b', In b' (credit_batches st') /\ id b' = id b
               /\ used_credits b' - used_credits b
                  = usage_total (id b) (credit_usage st')
                    - usage_total (id b) (credit_usage st).
Proof.
  induction rows as [|batch rest IH]; intros n st r st' Hready H b Hb.
  - inversion H; subst. exists b. repeat split; auto. lia.
  - apply deduct_loop_cons_inv in H.
    destruct H as [Hav [(Hle & -> & -> & Hall)|(Hlt & Hr & H)]].
    + apply charged_delta; auto.
    + destruct (charged_delta (id batch) credits
                  (credits batch - used_credits batch) st b Hb)
        as (b1 & Hb1 & E1 & D1).
      { intros x Hx E. rewrite (loop_ready_unique _ _ _ _ Hready Hx E). lia. }
      destruct (IH _ _ _ _
                  (loop_ready_charged u a i now batch rest credits _ st Hready
                     (proj1 (loop_ready_typed _ _ batch Hready
                               (or_introl eq_refl))))
                  H b1 Hb1)
        as (b' & Hb' & E' & D').
      exists b'. split; [assumption|]. split; [congruence|].
      rewrite E1 in D'. lia.
Qed.

End Delta.

(** ** Running calls *)

Lemma run_call_step st c : step st c (run_call c st).
Proof.
  destruct c as [u n t d now | u p now | u n a i now]; simpl.
  - constructor.
  - constructor.
  - unfold deduct_credits, bind at 1, lift, int4.
    destruct (in_int4 n) eqn:Hn.
    + unfold bind. destruct (select_active_batches u now st) as [[rows st1]|e] eqn:Hq.
      * apply select_active_batches_cursor in Hq. destruct Hq as [-> Hc].
        apply step_deduct_credits; assumption.
      * simpl. unfold select_active_batches in Hq.
        destruct (select_where _ _) as [sel|e'] eqn:Hs; [discriminate|].
        eapply step_deduct_credits_query_raise; eauto.
    + simpl. apply step_deduct_credits_refused. assumption.
Qed.

Lemma run_calls_steps cs : forall st, steps st cs (run_calls cs st).
Proof.
  induction cs as [|c rest IH]; intros st; simpl.
  - constructor.
  - econstructor; [apply run_call_step | apply IH].
Qed.

Lemma steps_schema cs st :
  steps empty_ledger cs st -> schema st /\ balanced st.
Proof.
  intros H. eapply steps_invariant; eauto.
  - apply schema_empty.
  - intros b [].
Qed.

(** * The claims *)

Lemma sample_ledger_schema : schema sample_ledger.
Proof. apply (steps_schema _ _ (run_calls_steps _ _)). Qed.

(** C1. After every sequence of [add_credits], [add_plan_credits] and
    [deduct_credits] calls on an empty ledger, the usage rows of each
    batch add up to its [used_credits].  A deduction moves the counter
    of a batch by exactly the sum of the usage rows it inserts for that
    batch, and [add_credits] appends one batch with [used_credits = 0],
    writes no usage row, and none refers to the new batch. *)
Theorem C1_usage_rows_sum_to_used_credits :
  (forall cs st, steps empty_ledger cs st ->
     forall b, In b (credit_batches st) ->
       usage_total (id b) (credit_usage st) = used_credits b)
  /\ (forall st u n a i now rows r st',
        schema st -> cursor_of st u now rows ->
        deduct_loop u a i now rows n st = Ok (r, st') ->
        forall b, In b (credit_batches st) ->
          exists b', find_batch (id b) st' = Some b'
            /\ used_credits b' - used_credits b
               = usage_total (id b) (credit_usage st')
                 - usage_total (id b) (credit_usage st))
  /\ (forall st u n t d now nid st',
        schema st -> add_credits u n t d now st = Ok (nid, st') ->
        credit_usage st' = credit_usage st
        /\ usage_total nid (credit_usage st') = 0
        /\ exists b, credit_batches st' = credit_batches st ++ [b]
                     /\ id b = nid /\ used_credits b = 0).
Proof.
  split; [|split].
  - intros cs st H. apply (steps_schema cs st H).
  - intros st u n a i now rows r st' Hs Hc H b Hb.
    pose proof (cursor_ready _ _ _ _ Hs Hc) as Hready.
    destruct (deduct_loop_delta u a i now rows n st r st' Hready H b Hb)
      as (b' & Hb' & E & D).
    exists b'. split; [|assumption].
    rewrite <- E. apply find_batch_in; [|assumption].
    apply deduct_loop_frame in H. destruct H as (Hfix & _).
    assert (Hids : map id (credit_batches st') = map id (credit_batches st)).
    { clear -Hfix. induction Hfix as [|x y l l' Hxy _ IH]; simpl;
        [reflexivity|]. rewrite IH. destruct Hxy as [-> _]. reflexivity. }
    rewrite Hids. apply Hs.
  - intros st u n t d now nid st' Hs H.
    apply add_credits_inv in H. destruct H as (_ & _ & _ & -> & ->). simpl.
    split; [reflexivity|]. split; [apply usage_total_fresh; assumption|].
    eexists. split; [reflexivity|]. simpl. auto.
Qed.

Lemma C1_usage_rows_sum_to_used_credits_witness :
  let st := sample_ledger in
  let st' := run_calls sample_calls empty_ledger in
  let st0 := run_calls [call_add_credits 7%N 5 "free" 14 0] empty_ledger in
  (forall b, In b (credit_batches st') ->
     usage_total (id b) (credit_usage st') = used_credits b)
  /\ (forall b, In b (credit_batches st) ->
        exists b', find_batch (id b) st' = Some b'
          /\ used_credits b' - used_credits b
             = usage_total (id b) (credit_usage st')
               - usage_total (id b) (credit_usage st))
  /\ (credit_usage st0 = credit_usage empty_ledger
      /\ usage_total 0%N (credit_usage st0) = 0
      /\ exists b, credit_batches st0 = credit_batches empty_ledger ++ [b]
                   /\ id b = 0%N /\ used_credits b = 0).
Proof.
  intros st st' st0.
  destruct C1_usage_rows_sum_to_used_credits as (H1 & H2 & H3).
  split; [|split].
  - apply (H1 sample_calls). apply run_calls_steps.
  - apply (H2 st 7%N 6 "essay"%string None usecs_per_day
             (order_by_expires_at (credit_batches st)) true st').
    + exact sample_ledger_schema.
    + apply (select_active_batches_cursor 7%N usecs_per_day st _ st).
      reflexivity.
    + reflexivity.
  - apply (H3 empty_ledger 7%N 5 "free"%string 14 0 0%N st0).
    + exact schema_empty.
    + reflexivity.
Defined.

(** ** What a deduction of a non-negative amount does *)

Lemma select_where_evaluated {R : Type} (qual : R -> Result bool) rows sel r :
  select_where qual rows = Ok sel -> In r rows -> exists k, qual r = Ok k.
Proof.
  revert sel. induction rows as [|x rest IH]; simpl; intros sel H Hin;
    [contradiction|].
  destruct (qual x) as [keep|] eqn:Hq; [|discriminate].
  destruct (select_where qual rest) as [sel'|] eqn:Hs; [|discriminate].
  destruct Hin as [<-|Hin]; [eauto | eapply IH; eauto].
Qed.

(** The rows of a cursor are the owner's unexpired batches with credits
    left, no more and no less. *)
Lemma cursor_of_active st u now rows b :
  cursor_of st u now rows ->
  (In b rows <->
   In b (credit_batches st) /\ user_id b = u /\ now < expires_at b
   /\ 0 < credits b - used_credits b).
Proof.
  intros Hc. rewrite (cursor_of_in _ _ _ _ b Hc). split; [tauto|].
  intros (Hb & Hu & He & Hpos). repeat split; auto.
  destruct Hc as (sel & Hs & _).
  destruct (select_where_evaluated _ _ _ b Hs Hb) as [k Hk].
  unfold active_batch_qual, int4mi, int4 in Hk.
  destruct (N.eqb_spec (user_id b) u); [|contradiction].
  destruct (Z.gtb_spec (expires_at b) now); [|lia].
  simpl in Hk.
  destruct (in_int4 (credits b - used_credits b)); [reflexivity|discriminate].
Qed.

Lemma charges_ready st rows : forall n,
  NoDup (map id rows) -> incl rows (credit_batches st) ->
  NoDup (map (fun c => id (fst c)) (charges rows n))
  /\ (forall c, In c (charges rows n) -> In (fst c) rows)
  /\ (forall c, In c (charges rows n) -> In (fst c) (credit_batches st)).
Proof.
  induction rows as [|b rest IH]; intros n Hnd Hincl; simpl.
  - repeat split; try constructor; intros c [].
  - inversion Hnd as [|? ? Hnot Hnd']; subst.
    destruct (available b >=? n).
    + repeat split.
      * constructor; [intros []|constructor].
      * intros c [<-|[]]. simpl. auto.
      * intros c [<-|[]]. apply Hincl. simpl. auto.
    + destruct (IH (n - available b) Hnd') as (IH1 & IH2 & IH3).
      { intros x Hx. apply Hincl. simpl. auto. }
      repeat split.
      * simpl. constructor; [|assumption]. intros Hin.
        apply in_map_iff in Hin. destruct Hin as [c [E Hc]].
        apply Hnot. rewrite <- E. apply in_map. apply IH2. assumption.
      * intros c [<-|Hc]; simpl; auto.
      * intros c [<-|Hc]; [apply Hincl; simpl; auto | auto].
Qed.

Section Effect.

Variables (u : uuid) (a : string) (i : option uuid) (now : timestamptz).

(** The loop on a non-negative [INTEGER]: it returns, with the rows of
    the plan charged, every other batch as it was, and one usage row
    per charge in the order of the cursor. *)
Lemma deduct_loop_effect rows n st :
  loop_ready st rows -> 0 <= n -> in_int4 n = true ->
  exists st',
    deduct_loop u a i now rows n st = Ok (covered rows n, st')
    /\ map id (credit_batches st') = map id (credit_batches st)
    /\ (forall c, In c (charges rows n) ->
          In (with_used_credits (fst c) (used_credits (fst c) + snd c) now)
             (credit_batches st'))
    /\ (forall b, In b (credit_batches st) ->
          ~ In (id b) (map (fun c => id (fst c)) (charges rows n)) ->
          In b (credit_batches st'))
    /\ credit_usage st'
       = credit_usage st ++ usage_rows u a i now (uuid_supply st) (charges rows n).
Proof.
  intros Hready Hn Hty.
  exists (charge_all u a i now (charges rows n) st).
  pose proof Hready as (Hs & Hnd & Hincl & Hall).
  destruct (charges_ready st rows n Hnd Hincl) as (C1 & _ & C3).
  split; [|split; [|split; [|split]]].
  - apply deduct_loop_charges; assumption.
  - apply charge_all_ids.
  - apply charge_all_charged; assumption.
  - intros b Hb Hnot. apply charge_all_other; assumption.
  - apply charge_all_usage.
Qed.


End Effect.

Lemma sorted_head_least b1 rest b :
  StronglySorted expires_le (b1 :: rest) -> In b rest ->
  expires_at b1 <= expires_at b.
Proof.
  intros Hs Hb. inversion Hs as [|? ? _ Hall]; subst.
  rewrite Forall_forall in Hall. apply (Hall b Hb).
Qed.



(** [deduct_credits] is the loop over one of the cursors. *)
Lemma deduct_credits_cursor u n a i now st r st' :
  deduct_credits u n a i now st = Ok (r, st') ->
  in_int4 n = true
  /\ exists rows, cursor_of st u now rows
                  /\ deduct_loop u a i now rows n st = Ok (r, st').
Proof.
  unfold deduct_credits, bind at 1, lift, int4.
  destruct (in_int4 n); [|discriminate]. unfold bind.
  destruct (select_active_batches u now st) as [[rows st1]|] eqn:Hq;
    [|discriminate].
  apply select_active_batches_cursor in Hq. destruct Hq as [-> Hc].
  intros H. split; [reflexivity|]. exists rows. auto.
Qed.

Lemma deduct_credits_loop u n a i now st sel :
  in_int4 n = true ->
  select_where (active_batch_qual u now) (credit_batches st) = Ok sel ->
  deduct_credits u n a i now st
  = deduct_loop u a i now (order_by_expires_at sel) n st.
Proof.
  intros Hn Hs. unfold deduct_credits, bind at 1, lift.
  rewrite int4_in by assumption. unfold bind, select_active_batches.
  rewrite Hs. reflexivity.
Qed.

(** On a ledger whose counters are within bounds, [deduct_credits]
    returns for every non-negative [INTEGER] amount. *)
Lemma deduct_credits_returns u n a i now st :
  schema st ->
  Forall (fun b => 0 <= used_credits b <= credits b) (credit_batches st) ->
  0 <= n -> in_int4 n = true ->
  exists r st', deduct_credits u n a i now st = Ok (r, st').
Proof.
  intros Hs Hb Hn Hty.
  destruct (select_where_active_ok u now (credit_batches st)) as [sel Hsel].
  { destruct Hs as [_ Hint _ _]. rewrite Forall_forall in *.
    intros row Hrow. specialize (Hb row Hrow).
    destruct (Hint row Hrow) as [Hc Hu]. int4_lia. }
  rewrite (deduct_credits_loop u n a i now st sel Hty Hsel).
  assert (Hc : cursor_of st u now (order_by_expires_at sel)).
  { exists sel. split; [assumption|]. split.
    - apply order_by_expires_at_perm.
    - apply order_by_expires_at_sorted. }
  destruct (deduct_loop_effect u a i now _ n st
              (cursor_ready _ _ _ _ Hs Hc) Hn Hty) as (st' & H & _).
  eauto.
Qed.

Lemma usage_rows_sum u a i now supply cs :
  fold_right (fun x acc => credits_used x + acc) 0
    (usage_rows u a i now supply cs)
  = fold_right (fun c acc => snd c + acc) 0 cs.
Proof.
  revert supply. induction cs as [|[b amount] rest IH]; intros supply; simpl;
    [reflexivity | rewrite IH; reflexivity].
Qed.

Lemma with_used_credits_drained b now :
  with_used_credits b (used_credits b + available b) now
  = with_used_credits b (credits b) now.
Proof. unfold available. f_equal. lia. Qed.

Lemma not_in_rows_ids st rows b :
  loop_ready st rows -> In b (credit_batches st) -> ~ In b rows ->
  ~ In (id b) (map id rows).
Proof.
  intros ([Hpk _ _ _] & _ & Hincl & _) Hb Hnot Hin.
  apply in_map_iff in Hin. destruct Hin as [r [E Hr]].
  apply Hnot. rewrite <- (nodup_id_inj _ r b Hpk (Hincl r Hr) Hb E).
  assumption.
Qed.

Section Drain.

Variables (u : uuid) (a : string) (i : option uuid) (now : timestamptz).

(** An amount that reaches or exceeds what the cursor holds drains
    every row of it and records what each row had. *)
Lemma deduct_loop_drain rows n st :
  loop_ready st rows -> 0 <= n -> in_int4 n = true ->
  total_available rows <= n ->
  exists st' us,
    deduct_loop u a i now rows n st = Ok (covered rows n, st')
    /\ (forall b, In b rows ->
          In (with_used_credits b (credits b) now) (credit_batches st'))
    /\ (forall b, In b (credit_batches st) -> ~ In b rows ->
          In b (credit_batches st'))
    /\ credit_usage st' = credit_usage st ++ us
    /\ map (fun x => (batch_id x, credits_used x)) us
       = map (fun b => (id b, credits b - used_credits b)) rows.
Proof.
  intros Hready Hn Hty Htot.
  destruct (deduct_loop_effect u a i now rows n st Hready Hn Hty)
    as (st' & Hrun & Hids & Hch & Hother & Hus).
  pose proof Hready as (_ & _ & _ & Hall).
  rewrite (charges_drain_all rows n Hall Htot) in Hch, Hother, Hus.
  exists st', (usage_rows u a i now (uuid_supply st)
                 (map (fun b => (b, available b)) rows)).
  split; [assumption|]. split; [|split; [|split]].
  - intros b Hb. rewrite <- with_used_credits_drained.
    apply (Hch (b, available b)). apply in_map_iff. eauto.
  - intros b Hb Hnot. apply Hother; [assumption|].
    rewrite map_map. simpl. eapply not_in_rows_ids; eauto.
  - assumption.
  - rewrite usage_rows_fields, map_map. reflexivity.
Qed.

End Drain.



(** C4. For a positive amount [deduct_credits] returns, and returns
    [TRUE] exactly when the usage rows it inserted add up to the amount,
    which is exactly when the active batches hold that much.  An amount
    equal to what they hold drains each of them and returns [TRUE]: with
    B1 exhausted, B2 of 3 and B3 of 2, deducting 5 sets B2 to 3 and B3 to
    2 used, inserts usage rows of 3 and 2, and returns [TRUE]. *)
Theorem C4_true_iff_fully_deducted :
  (forall st u n a i now rows,
     schema st -> cursor_of st u now rows -> 0 < n -> in_int4 n = true ->
     exists r st' us,
       deduct_loop u a i now rows n st = Ok (r, st')
       /\ credit_usage st' = credit_usage st ++ us
       /\ (r = true <->
           fold_right (fun x acc => credits_used x + acc) 0 us = n)
       /\ (r = true <-> n <= total_available rows)
       /\ (n = total_available rows ->
           r = true
           /\ (forall b, In b rows ->
                 In (with_used_credits b (credits b) now) (credit_batches st'))
           /\ map (fun x => (batch_id x, credits_used x)) us
              = map (fun b => (id b, credits b - used_credits b)) rows))
  /\ (map (fun b => (id b, credits b, used_credits b, expires_at b))
        (credit_batches three_batches)
      = [(0%N, 5, 5, 10 * usecs_per_day); (2%N, 3, 0, 20 * usecs_per_day);
         (3%N, 2, 0, 30 * usecs_per_day)]
      /\ exists st' us,
           deduct_credits 7%N 5 "essay" None 0 three_batches = Ok (true, st')
           /\ map (fun b => (id b, credits b, used_credits b))
                (credit_batches st')
              = [(0%N, 5, 5); (2%N, 3, 3); (3%N, 2, 2)]
           /\ credit_usage st' = credit_usage three_batches ++ us
           /\ map (fun x => (batch_id x, credits_used x)) us
              = [(2%N, 3); (3%N, 2)]).
Proof.
  split.
  - intros st u n a i now rows Hs Hc Hn Hty.
    pose proof (cursor_ready _ _ _ _ Hs Hc) as Hready.
    pose proof Hready as (_ & _ & _ & Hall).
    destruct (deduct_loop_effect u a i now rows n st Hready)
      as (st' & Hrun & Hids & Hch & Hother & Hus); [lia | assumption |].
    exists (covered rows n), st',
      (usage_rows u a i now (uuid_supply st) (charges rows n)).
    split; [assumption|]. split; [assumption|].
    pose proof (covered_iff rows n Hall Hn) as Hcov.
    pose proof (charges_sum rows n Hall Hn) as Hsum.
    rewrite usage_rows_sum, Hsum.
    split; [|split; [assumption|]].
    + destruct (covered rows n).
      * split; auto.
      * split; [discriminate|]. intros E.
        assert (~ n <= total_available rows)
          by (intros K; apply Hcov in K; discriminate).
        lia.
    + intros E.
      destruct (deduct_loop_drain u a i now rows n st Hready)
        as (st2 & us & Hrun2 & H1 & _ & H3 & H4); [lia | assumption | lia |].
      rewrite Hrun in Hrun2. inversion Hrun2; subst st2.
      split; [apply Hcov; lia|]. split; [assumption|].
      rewrite Hus in H3. apply app_inv_head in H3. rewrite H3. assumption.
  - split; [reflexivity|].
    eexists.
    exists (skipn 1
              (credit_usage
                 (state_after
                    (deduct_credits 7%N 5 "essay" None 0 three_batches)
                    three_batches))).
    split; [reflexivity|]. split; [reflexivity|]. split; reflexivity.
Qed.

Lemma C4_true_iff_fully_deducted_witness :
  let rows := order_by_expires_at
                (filter (fun b => 0 <? available b) (credit_batches three_batches)) in
  exists r st' us,
    deduct_loop 7%N "essay" None 0 rows 5 three_batches = Ok (r, st')
    /\ credit_usage st' = credit_usage three_batches ++ us
    /\ (r = true <->
        fold_right (fun x acc => credits_used x + acc) 0 us = 5)
    /\ (r = true <-> 5 <= total_available rows)
    /\ (5 = total_available rows ->
        r = true
        /\ (forall b, In b rows ->
              In (with_used_credits b (credits b) 0) (credit_batches st'))
        /\ map (fun x => (batch_id x, credits_used x)) us
           = map (fun b => (id b, credits b - used_credits b)) rows).
Proof.
  intros rows.
  apply (proj1 C4_true_iff_fully_deducted
           three_batches 7%N 5 "essay"%string None 0 rows).
  - apply (steps_schema _ _ (run_calls_steps _ _)).
  - apply (select_active_batches_cursor 7%N 0 three_batches rows three_batches).
    reflexivity.
  - lia.
  - reflexivity.
Defined.

(** ** The balance *)

Lemma fold_left_remaining rows : forall acc,
  fold_left (fun total batch => total + (fst batch - snd batch))
    (map (fun row => (credits row, used_credits row)) rows) acc
  = acc + total_available rows.
Proof.
  induction rows as [|b rest IH]; intros acc; simpl; [lia|].
  rewrite IH. lia.
Qed.




(** ** Allocation *)

Lemma subscription_types_check t :
  In t subscription_types ->
  credit_batches_subscription_type_check t = true.
Proof.
  intros H. unfold credit_batches_subscription_type_check.
  apply existsb_exists. exists t. split; [assumption | apply String.eqb_refl].
Qed.

Lemma expiry_date_of_free d now :
  expiry_date_of "free" d now = now + d * usecs_per_day.
Proof. reflexivity. Qed.

(** The durations of the first migration are not those [add_credits]
    has once the yearly-plans migration ran. *)
Lemma initial_expiry_date_of_replaced now :
  initial_expiry_date_of "student" 30 now = now + 90 * usecs_per_day
  /\ expiry_date_of "student" 30 now = now + 30 * usecs_per_day
  /\ initial_expiry_date_of "pro" 30 now = now + 365 * usecs_per_day
  /\ expiry_date_of "pro" 30 now = now + 90 * usecs_per_day.
Proof. repeat split. Qed.

(** A subscription type outside the check is refused, whatever the
    [CASE] made of it, and the ledger is as before. *)
Lemma add_credits_check_violation u n t d now st :
  in_int4 n = true -> in_int4 d = true ->
  days_in_range now d = true ->
  credit_batches_subscription_type_check t = false ->
  add_credits u n t d now st
  = Raise (check_violation "credit_batches_subscription_type_check")
  /\ state_after (add_credits u n t d now st) st = st.
Proof.
  intros Hn Hd He Ht.
  assert (E : add_credits u n t d now st
              = Raise (check_violation "credit_batches_subscription_type_check")).
  { unfold add_credits, bind, lift, insert_credit_batch, bind.
    rewrite !int4_in by assumption. rewrite case_expiry_date_spec.
    unfold expiry_in_range. rewrite He, orb_true_r.
    simpl. rewrite Ht. reflexivity. }
  rewrite E. auto.
Qed.

(** Days that lead out of the range of timestamps make the [ELSE] branch
    raise, before anything is inserted. *)
Lemma add_credits_overflow u n t d now st :
  in_int4 n = true -> in_int4 d = true ->
  expiry_in_range t d now = false ->
  add_credits u n t d now st = Raise datetime_field_overflow
  /\ state_after (add_credits u n t d now st) st = st.
Proof.
  intros Hn Hd He.
  assert (E : add_credits u n t d now st = Raise datetime_field_overflow).
  { unfold add_credits, bind, lift.
    rewrite !int4_in by assumption. rewrite case_expiry_date_spec, He.
    reflexivity. }
  rewrite E. auto.
Qed.

(** The days passed in for [free] are not validated: 2147483647 days
    from 2000-01-01 are no timestamp, the call raises and no batch is
    inserted. *)
Lemma C6_counterexample :
  in_int4 5 = true /\ in_int4 2147483647 = true
  /\ In "free"%string subscription_types
  /\ add_credits 7%N 5 "free" 2147483647 0 empty_ledger
     = Raise datetime_field_overflow
  /\ credit_batches
       (state_after (add_credits 7%N 5 "free" 2147483647 0 empty_ledger)
          empty_ledger) = [].
Proof.
  repeat split; try reflexivity. simpl. auto.
Qed.

(** C6. A call of [add_credits] with [INTEGER] arguments and one of the
    five subscription types, where for [free] now plus the days passed
    in is a timestamp, appends exactly one batch, of the size asked for
    and with [used_credits = 0], writes no usage row, and returns the
    identifier of the batch, which no batch had before.  [expires_at] is
    set then: now plus the days passed in for [free], 30 days for
    [student], 365 for [student_yearly], 90 for [pro], 365 for
    [pro_yearly].  The same call made twice appends two batches with
    different identifiers.  A [free] call whose days lead out of the
    range of timestamps raises and leaves the ledger as it was. *)
Theorem C6_add_credits_inserts_one_batch :
  (forall st u n t d now,
     in_int4 n = true -> in_int4 d = true -> In t subscription_types ->
     (t = "free"%string -> days_in_range now d = true) ->
     exists b,
       add_credits u n t d now st
       = Ok (id b,
             mkLedger (credit_batches st ++ [b]) (credit_usage st)
               (N.succ (uuid_supply st)))
       /\ user_id b = u /\ credits b = n /\ used_credits b = 0
       /\ subscription_type b = t /\ created_at b = now
       /\ (t = "free"%string -> expires_at b = now + d * usecs_per_day)
       /\ (t = "student"%string -> expires_at b = now + 30 * usecs_per_day)
       /\ (t = "student_yearly"%string ->
           expires_at b = now + 365 * usecs_per_day)
       /\ (t = "pro"%string -> expires_at b = now + 90 * usecs_per_day)
       /\ (t = "pro_yearly"%string ->
           expires_at b = now + 365 * usecs_per_day)
       /\ (schema st -> ~ In (id b) (map id (credit_batches st))))
  /\ (forall st u n t d now,
        in_int4 n = true -> in_int4 d = true -> In t subscription_types ->
        (t = "free"%string -> days_in_range now d = true) ->
        exists b1 b2 st1 st2,
          add_credits u n t d now st = Ok (id b1, st1)
          /\ add_credits u n t d now st1 = Ok (id b2, st2)
          /\ credit_batches st2 = credit_batches st ++ [b1; b2]
          /\ credit_usage st2 = credit_usage st
          /\ id b1 <> id b2
          /\ credits b1 = n /\ credits b2 = n
          /\ used_credits b1 = 0 /\ used_credits b2 = 0)
  /\ (forall st u n d now,
        in_int4 n = true -> in_int4 d = true ->
        days_in_range now d = false ->
        add_credits u n "free" d now st = Raise datetime_field_overflow
        /\ state_after (add_credits u n "free" d now st) st = st).
Proof.
  split; [|split].
  - intros st u n t d now Hn Hd Ht Hfree.
    exists (mkBatch (uuid_supply st) u n 0 t (expiry_date_of t d now) now now).
    split; [apply add_credits_ok; auto using subscription_types_check,
                                    expiry_in_range_checked|].
    simpl. repeat split; try (intros ->; reflexivity).
    intros [_ _ _ Hsup] Hin. apply in_map_iff in Hin.
    destruct Hin as [r [E Hr]]. rewrite Forall_forall in Hsup.
    specialize (Hsup r Hr). lia.
  - intros st u n t d now Hn Hd Ht Hfree.
    pose proof (subscription_types_check t Ht) as Hck.
    pose proof (expiry_in_range_checked t d now Ht Hfree) as He.
    eexists (mkBatch _ _ _ _ _ _ _ _), (mkBatch _ _ _ _ _ _ _ _), _, _.
    split; [apply add_credits_ok; assumption|].
    split; [apply add_credits_ok; assumption|].
    simpl. rewrite <- app_assoc. simpl.
    repeat split. lia.
  - intros st u n d now Hn Hd He.
    apply add_credits_overflow; try assumption.
Qed.

Lemma C6_add_credits_inserts_one_batch_witness :
  (exists b,
     add_credits 7%N 10 "free" 14 0 empty_ledger
     = Ok (id b,
           mkLedger (credit_batches empty_ledger ++ [b])
             (credit_usage empty_ledger) (N.succ (uuid_supply empty_ledger)))
     /\ user_id b = 7%N /\ credits b = 10 /\ used_credits b = 0
     /\ subscription_type b = "free"%string /\ created_at b = 0
     /\ ("free"%string = "free"%string ->
         expires_at b = 0 + 14 * usecs_per_day)
     /\ ("free"%string = "student"%string ->
         expires_at b = 0 + 30 * usecs_per_day)
     /\ ("free"%string = "student_yearly"%string ->
         expires_at b = 0 + 365 * usecs_per_day)
     /\ ("free"%string = "pro"%string ->
         expires_at b = 0 + 90 * usecs_per_day)
     /\ ("free"%string = "pro_yearly"%string ->
         expires_at b = 0 + 365 * usecs_per_day)
     /\ (schema empty_ledger ->
         ~ In (id b) (map id (credit_batches empty_ledger))))
  /\ (exists b1 b2 st1 st2,
        add_credits 7%N 50 "student" 30 0 empty_ledger = Ok (id b1, st1)
        /\ add_credits 7%N 50 "student" 30 0 st1 = Ok (id b2, st2)
        /\ credit_batches st2 = credit_batches empty_ledger ++ [b1; b2]
        /\ credit_usage st2 = credit_usage empty_ledger
        /\ id b1 <> id b2
        /\ credits b1 = 50 /\ credits b2 = 50
        /\ used_credits b1 = 0 /\ used_credits b2 = 0)
  /\ (add_credits 7%N 5 "free" 2147483647 0 empty_ledger
      = Raise datetime_field_overflow
      /\ state_after (add_credits 7%N 5 "free" 2147483647 0 empty_ledger)
           empty_ledger = empty_ledger).
Proof.
  split; [|split].
  - apply (proj1 C6_add_credits_inserts_one_batch
             empty_ledger 7%N 10 "free"%string 14 0).
    + reflexivity.
    + reflexivity.
    + simpl. auto.
    + intros _. reflexivity.
  - apply (proj1 (proj2 C6_add_credits_inserts_one_batch)
             empty_ledger 7%N 50 "student"%string 30 0).
    + reflexivity.
    + reflexivity.
    + simpl. auto.
    + intros H. discriminate H.
  - apply (proj2 (proj2 C6_add_credits_inserts_one_batch)
             empty_ledger 7%N 5 2147483647 0).
    + reflexivity.
    + reflexivity.
    + reflexivity.
Defined.

(** C7. [add_plan_credits] turns each of its four plan types into a
    fixed number of credits and a subscription type and hands them to
    [add_credits]; [pro_yearly] gives a batch of 605 credits of type
    [pro_yearly] that expires 365 days later.  Any other plan type
    raises an exception, so that no batch is created and the ledger is
    as before. *)
Theorem C7_add_plan_credits_maps_plans :
  (plan_credits "student_monthly" = Some (50, "student"%string)
   /\ plan_credits "student_yearly" = Some (605, "student_yearly"%string)
   /\ plan_credits "pro_monthly" = Some (150, "pro"%string)
   /\ plan_credits "pro_yearly" = Some (605, "pro_yearly"%string))
  /\ (forall u p n t now st,
        plan_credits p = Some (n, t) ->
        add_plan_credits u p now st
        = add_credits u n t default_expiry_days now st)
  /\ (forall u now st,
        exists b,
          add_plan_credits u "pro_yearly" now st
          = Ok (id b,
                mkLedger (credit_batches st ++ [b]) (credit_usage st)
                  (N.succ (uuid_supply st)))
          /\ user_id b = u /\ credits b = 605 /\ used_credits b = 0
          /\ subscription_type b = "pro_yearly"%string
          /\ expires_at b = now + 365 * usecs_per_day)
  /\ (forall u p now st,
        p <> "student_monthly"%string -> p <> "student_yearly"%string ->
        p <> "pro_monthly"%string -> p <> "pro_yearly"%string ->
        add_plan_credits u p now st
        = Raise (raise_exception ("Invalid plan type: " ++ p))
        /\ state_after (add_plan_credits u p now st) st = st)
  /\ (forall u now st,
        add_plan_credits u "bogus" now st
        = Raise (raise_exception "Invalid plan type: bogus")).
Proof.
  split; [repeat split|]. split; [|split; [|split]].
  - intros u p n t now st Hp. unfold add_plan_credits. rewrite Hp.
    unfold bind, ret.
    destruct (add_credits u n t default_expiry_days now st) as [[x s]|];
      reflexivity.
  - intros u now st.
    exists (mkBatch (uuid_supply st) u 605 0 "pro_yearly"
              (now + 365 * usecs_per_day) now now).
    split; [reflexivity|]. repeat split.
  - intros u p now st H1 H2 H3 H4. unfold add_plan_credits, plan_credits.
    apply String.eqb_neq in H1, H2, H3, H4. rewrite H1, H2, H3, H4.
    split; reflexivity.
  - reflexivity.
Qed.

Lemma C7_add_plan_credits_maps_plans_witness :
  (add_plan_credits 7%N "pro_monthly" 0 empty_ledger
   = add_credits 7%N 150 "pro" default_expiry_days 0 empty_ledger)
  /\ (add_plan_credits 7%N "enterprise" 0 sample_ledger
      = Raise (raise_exception ("Invalid plan type: " ++ "enterprise"))
      /\ state_after (add_plan_credits 7%N "enterprise" 0 sample_ledger)
           sample_ledger
         = sample_ledger).
Proof.
  destruct C7_add_plan_credits_maps_plans as (_ & H2 & _ & H4 & _).
  split.
  - apply H2. reflexivity.
  - apply H4; discriminate.
Defined.

Lemma expiry_date_of_later t d now :
  0 < d -> now < expiry_date_of t d now.
Proof.
  intros Hd. unfold expiry_date_of, plus_days, usecs_per_day.
  repeat match goal with |- context [if ?c then _ else _] => destruct c end;
    lia.
Qed.

(** An allocation of 10 credits with the positive expiry offset
    2147483647 raises, and the balance stays 0. *)
Lemma C9_counterexample :
  0 <= 10 /\ 0 < 2147483647
  /\ in_int4 10 = true /\ in_int4 2147483647 = true
  /\ fst (getRemainingCredits 7%N 0 empty_ledger) = 0
  /\ add_credits 7%N 10 "free" 2147483647 0 empty_ledger
     = Raise datetime_field_overflow
  /\ fst (getRemainingCredits 7%N 0
            (state_after
               (add_credits 7%N 10 "free" 2147483647 0 empty_ledger)
               empty_ledger))
     = 0.
Proof.
  repeat split; try reflexivity; lia.
Qed.

(** C9. On an empty ledger, [add_credits(owner, 10, 'free', 14)]
    followed at once by the balance query gives 10.  In general, after
    an allocation with [INTEGER] arguments, a checked subscription type
    and a positive number of expiry days, which for [free] keep now
    plus the days a timestamp, the owner's balance read before the new
    batch expires is what it was plus the credits allocated, and every
    other owner's balance is what it was.  A [free] allocation whose
    days lead out of the range of timestamps leaves every balance as it
    was. *)
Theorem C9_allocation_adds_to_balance :
  fst (getRemainingCredits 7%N 0
         (state_after (add_credits 7%N 10 "free" 14 0 empty_ledger)
            empty_ledger))
  = 10
  /\ (forall st u n t d now,
        in_int4 n = true -> in_int4 d = true -> In t subscription_types ->
        0 < d -> (t = "free"%string -> days_in_range now d = true) ->
        fst (getRemainingCredits u now
               (state_after (add_credits u n t d now st) st))
        = fst (getRemainingCredits u now st) + n)
  /\ (forall st u n t d now later,
        in_int4 n = true -> in_int4 d = true -> In t subscription_types ->
        (t = "free"%string -> days_in_range now d = true) ->
        later < expiry_date_of t d now ->
        fst (getRemainingCredits u later
               (state_after (add_credits u n t d now st) st))
        = fst (getRemainingCredits u later st) + n)
  /\ (forall st u n t d now other later,
        other <> u ->
        fst (getRemainingCredits other later
               (state_after (add_credits u n t d now st) st))
        = fst (getRemainingCredits other later st))
  /\ (forall st u n d now anyone later,
        in_int4 n = true -> in_int4 d = true ->
        days_in_range now d = false ->
        fst (getRemainingCredits anyone later
               (state_after (add_credits u n "free" d now st) st))
        = fst (getRemainingCredits anyone later st)).
Proof.
  assert (Hgen : forall st u n t d now later,
             in_int4 n = true -> in_int4 d = true ->
             In t subscription_types ->
             (t = "free"%string -> days_in_range now d = true) ->
             later < expiry_date_of t d now ->
             fst (getRemainingCredits u later
                    (state_after (add_credits u n t d now st) st))
             = fst (getRemainingCredits u later st) + n).
  { intros st u n t d now later Hn Hd Ht Hfree Hlater.
    rewrite add_credits_ok
      by auto using subscription_types_check, expiry_in_range_checked.
    unfold getRemainingCredits, select_credits_of. simpl.
    rewrite !fold_left_remaining, filter_app. simpl.
    rewrite N.eqb_refl.
    destruct (Z.gtb_spec (expiry_date_of t d now) later); [|lia].
    simpl. clear. induction (filter _ _) as [|b rest IH]; simpl; lia. }
  split; [reflexivity|]. split; [|split; [|split]].
  - intros st u n t d now Hn Hd Ht Hpos Hfree. apply Hgen; auto.
    apply expiry_date_of_later. assumption.
  - exact Hgen.
  - intros st u n t d now other later Hne.
    destruct (add_credits u n t d now st) as [[nid st']|] eqn:H;
      [|reflexivity].
    apply add_credits_inv in H. destruct H as (_ & _ & _ & _ & ->).
    unfold getRemainingCredits, select_credits_of. simpl.
    rewrite !fold_left_remaining, filter_app. simpl.
    destruct (N.eqb_spec u other); [congruence|]. simpl.
    rewrite app_nil_r. reflexivity.
  - intros st u n d now anyone later Hn Hd He.
    destruct (add_credits_overflow u n "free" d now st Hn Hd He) as [_ ->].
    reflexivity.
Qed.

Lemma C9_allocation_adds_to_balance_witness :
  fst (getRemainingCredits 7%N 0
         (state_after (add_credits 7%N 10 "free" 14 0 sample_ledger)
            sample_ledger))
  = fst (getRemainingCredits 7%N 0 sample_ledger) + 10
  /\ fst (getRemainingCredits 7%N usecs_per_day
            (state_after (add_credits 7%N 10 "free" 14 0 sample_ledger)
               sample_ledger))
     = fst (getRemainingCredits 7%N usecs_per_day sample_ledger) + 10
  /\ fst (getRemainingCredits 8%N 0
            (state_after (add_credits 7%N 10 "free" 14 0 sample_ledger)
               sample_ledger))
     = fst (getRemainingCredits 8%N 0 sample_ledger)
  /\ fst (getRemainingCredits 7%N 0
            (state_after
               (add_credits 7%N 10 "free" 2147483647 0 sample_ledger)
               sample_ledger))
     = fst (getRemainingCredits 7%N 0 sample_ledger).
Proof.
  destruct C9_allocation_adds_to_balance as (_ & H2 & H3 & H4 & H5).
  split; [|split; [|split]].
  - apply H2; [reflexivity | reflexivity | simpl; auto | lia |].
    intros _. reflexivity.
  - apply H3; [reflexivity | reflexivity | simpl; auto | | reflexivity].
    intros _. reflexivity.
  - apply H4. discriminate.
  - apply H5; reflexivity.
Defined.

(** ** Bounds and monotonicity of the counter *)

Lemma Forall2_in_r {A B : Type} (R : A -> B -> Prop) l1 l2 y :
  Forall2 R l1 l2 -> In y l2 -> exists x, In x l1 /\ R x y.
Proof.
  induction 1 as [|a b l1' l2' Hab _ IH]; simpl; [contradiction|].
  intros [<-|Hin]; [eauto|]. destruct (IH Hin) as [x [Hx Hr]]. eauto.
Qed.

Lemma grown_refl b : grown b b.
Proof. split; [apply fixed_columns_refl|]. split; [lia | auto]. Qed.

Lemma grown_trans x y z : grown x y -> grown y z -> grown x z.
Proof.
  intros (F1 & L1 & B1) (F2 & L2 & B2). split; [|split; [lia | auto]].
  unfold fixed_columns in *.
  destruct F1 as (?&?&?&?&?&?), F2 as (?&?&?&?&?&?). repeat split; congruence.
Qed.

Section Monotone.

Variables (u : uuid) (a : string) (i : option uuid) (now : timestamptz).

Lemma deduct_loop_grown rows : forall n st r st',
  loop_ready st rows -> 0 <= n ->
  deduct_loop u a i now rows n st = Ok (r, st') ->
  Forall2 grown (credit_batches st) (credit_batches st').
Proof.
  induction rows as [|batch rest IH]; intros n st r st' Hready Hn H.
  - inversion H; subst. apply Forall2_refl_on. apply grown_refl.
  - pose proof Hready as (_ & _ & _ & Hall).
    inversion Hall as [|? ? [_ Hpos] _]; subst. unfold available in Hpos.
    apply deduct_loop_cons_inv in H.
    destruct H as [Hav [(Hle & -> & -> & Hin)|(Hlt & Hr & H)]].
    + simpl. apply bump_Forall2.
      * intros x _ _. apply grown_refl.
      * intros x Hx E. rewrite (loop_ready_unique _ _ _ _ Hready Hx E).
        unfold grown, within_bounds. simpl.
        split; [repeat split|]. lia.
    + eapply Forall2_trans_on; [exact grown_trans| |].
      * simpl. apply (bump_Forall2 grown (id batch) credits now).
        -- intros x _ _. apply grown_refl.
        -- intros x Hx E. rewrite (loop_ready_unique _ _ _ _ Hready Hx E).
           unfold grown, within_bounds. simpl.
           split; [repeat split|]. lia.
      * apply (IH (n - (credits batch - used_credits batch))
                 (charged u a i now (id batch) credits
                    (credits batch - used_credits batch) st) r st');
          [|lia|exact H].
        apply loop_ready_charged; auto.
        apply (loop_ready_typed _ _ batch Hready). simpl. auto.
Qed.

End Monotone.

Lemma step_grown st c st' :
  schema st -> non_negative_call c -> step st c st' ->
  exists rows' new,
    credit_batches st' = rows' ++ new
    /\ Forall2 grown (credit_batches st) rows'
    /\ Forall (fun b => used_credits b = 0 /\ 0 <= credits b) new.
Proof.
  intros Hs Hc Hstep.
  assert (Hsame : exists rows' new,
             credit_batches st = rows' ++ new
             /\ Forall2 grown (credit_batches st) rows'
             /\ Forall (fun b => used_credits b = 0 /\ 0 <= credits b) new).
  { exists (credit_batches st), []. rewrite app_nil_r.
    split; [reflexivity|]. split; [|constructor].
    apply Forall2_refl_on. apply grown_refl. }
  assert (Hadd : forall u n t d now,
             0 <= n ->
             exists rows' new,
               credit_batches (state_after (add_credits u n t d now st) st)
               = rows' ++ new
               /\ Forall2 grown (credit_batches st) rows'
               /\ Forall (fun b => used_credits b = 0 /\ 0 <= credits b) new).
  { intros u n t d now Hn.
    destruct (add_credits u n t d now st) as [[nid s]|] eqn:H; [|exact Hsame].
    apply add_credits_inv in H. destruct H as (_ & _ & _ & _ & ->). simpl.
    eexists _, _. split; [reflexivity|].
    split; [apply Forall2_refl_on; apply grown_refl|].
    constructor; [simpl; auto | constructor]. }
  destruct Hstep as
    [st u n t d now | st u p now | st u n a i now rows Hn Hcur | |];
    try exact Hsame.
  - apply Hadd. exact Hc.
  - unfold add_plan_credits.
    destruct (plan_credits p) as [[n t]|] eqn:Hp; [|exact Hsame].
    assert (Hn : 0 <= n).
    { unfold plan_credits in Hp.
      repeat match type of Hp with
             | (if ?c then _ else _) = _ => destruct c
             end; inversion Hp; lia. }
    specialize (Hadd u n t default_expiry_days now Hn).
    unfold bind, ret.
    destruct (add_credits u n t default_expiry_days now st) as [[x s]|];
      exact Hadd.
  - destruct (deduct_loop u a i now rows n st) as [[r s]|] eqn:H;
      [|exact Hsame].
    simpl. exists (credit_batches s), []. rewrite app_nil_r.
    split; [reflexivity|]. split; [|constructor].
    eapply deduct_loop_grown; eauto. eapply cursor_ready; eauto.
Qed.

Lemma deduct_loop_schema u a i now rows : forall n st r st',
  loop_ready st rows ->
  deduct_loop u a i now rows n st = Ok (r, st') -> schema st'.
Proof.
  induction rows as [|batch rest IH]; intros n st r st' Hready H.
  - inversion H; subst. apply Hready.
  - apply deduct_loop_cons_inv in H.
    destruct H as [Hav [(Hle & -> & -> & Hin)|(Hlt & Hr & H)]].
    + destruct Hready as (Hs & _ & Hincl & _).
      apply schema_charged; auto. apply in_map. apply Hincl. simpl. auto.
    + eapply IH; [|exact H]. apply loop_ready_charged; auto.
      apply (loop_ready_typed _ _ batch Hready). simpl. auto.
Qed.

Lemma step_schema st c st' : schema st -> step st c st' -> schema st'.
Proof.
  intros Hs Hstep.
  destruct Hstep as
    [st u n t d now | st u p now | st u n a i now rows Hn Hcur | |]; auto.
  - destruct (add_credits u n t d now st) as [[nid s]|] eqn:H; simpl; auto.
    eapply schema_add_credits; eauto.
  - destruct (add_plan_credits u p now st) as [[nid s]|] eqn:H; simpl; auto.
    apply add_plan_credits_inv in H. destruct H as (n & t & _ & H).
    eapply schema_add_credits; eauto.
  - destruct (deduct_loop u a i now rows n st) as [[r s]|] eqn:H; simpl; auto.
    eapply deduct_loop_schema; [|exact H]. eapply cursor_ready; eauto.
Qed.

Lemma steps_within_bounds st cs st' :
  steps st cs st' -> schema st -> Forall non_negative_call cs ->
  Forall within_bounds (credit_batches st) ->
  Forall within_bounds (credit_batches st').
Proof.
  induction 1 as [|st c st1 cs st2 Hstep _ IH]; intros Hs Hcs Hb; auto.
  inversion Hcs as [|? ? Hc Hcs']; subst.
  apply IH; auto.
  - eapply step_schema; eauto.
  - destruct (step_grown _ _ _ Hs Hc Hstep) as (rows' & new & E & Hg & Hnew).
    rewrite E. apply Forall_app. split.
    + apply Forall_forall. intros y Hy.
      destruct (Forall2_in_r _ _ _ y Hg Hy) as (x & Hx & (_ & _ & Hxy)).
      apply Hxy. rewrite Forall_forall in Hb. apply Hb. assumption.
    + eapply Forall_impl; [|exact Hnew]. unfold within_bounds.
      intros b0 [E0 H0]. lia.
Qed.

Lemma step_fixed st c st' :
  step st c st' ->
  exists rows' new,
    credit_batches st' = rows' ++ new
    /\ Forall2 fixed_columns (credit_batches st) rows'
    /\ match c with
       | call_deduct_credits _ _ _ _ _ => new = []
       | _ => rows' = credit_batches st
       end.
Proof.
  intros Hstep.
  assert (Hrefl : Forall2 fixed_columns (credit_batches st) (credit_batches st))
    by (apply Forall2_refl_on; apply fixed_columns_refl).
  assert (Hadd : forall u n t d now,
             exists rows' new,
               credit_batches (state_after (add_credits u n t d now st) st)
               = rows' ++ new
               /\ Forall2 fixed_columns (credit_batches st) rows'
               /\ rows' = credit_batches st).
  { intros u n t d now.
    destruct (add_credits u n t d now st) as [[nid s]|] eqn:H.
    - apply add_credits_inv in H. destruct H as (_ & _ & _ & _ & ->). simpl.
      eexists _, _. split; [reflexivity|]. auto.
    - exists (credit_batches st), []. rewrite app_nil_r. auto. }
  destruct Hstep as
    [st u n t d now | st u p now | st u n a i now rows Hn Hcur | |].
  - apply Hadd.
  - unfold add_plan_credits.
    destruct (plan_credits p) as [[n t]|].
    + specialize (Hadd u n t default_expiry_days now). unfold bind, ret.
      destruct (add_credits u n t default_expiry_days now st) as [[x s]|];
        exact Hadd.
    + exists (credit_batches st), []. rewrite app_nil_r. auto.
  - destruct (deduct_loop u a i now rows n st) as [[r s]|] eqn:H; simpl.
    + apply deduct_loop_frame in H. destruct H as (Hfix & _).
      exists (credit_batches s), []. rewrite app_nil_r. auto.
    + exists (credit_batches st), []. rewrite app_nil_r. auto.
  - exists (credit_batches st), []. rewrite app_nil_r. auto.
  - exists (credit_batches st), []. rewrite app_nil_r. auto.
Qed.

Lemma capped_refl b : capped b b.
Proof. split; [apply fixed_columns_refl | auto]. Qed.

Lemma capped_trans x y z : capped x y -> capped y z -> capped x z.
Proof.
  intros (F1 & B1) (F2 & B2). split; [|auto].
  unfold fixed_columns in *.
  destruct F1 as (?&?&?&?&?&?), F2 as (?&?&?&?&?&?). repeat split; congruence.
Qed.

Section Capped.

Variables (u : uuid) (a : string) (i : option uuid) (now : timestamptz).

(** Whatever the amount, the loop gives a batch it visits a counter that
    is at most the credits: the amount left when that is at most what is
    available, all of the credits otherwise. *)
Lemma deduct_loop_capped rows : forall n st r st',
  loop_ready st rows ->
  deduct_loop u a i now rows n st = Ok (r, st') ->
  Forall2 capped (credit_batches st) (credit_batches st').
Proof.
  induction rows as [|batch rest IH]; intros n st r st' Hready H.
  - inversion H; subst. apply Forall2_refl_on. apply capped_refl.
  - apply deduct_loop_cons_inv in H.
    destruct H as [Hav [(Hle & -> & -> & Hin)|(Hlt & Hr & H)]].
    + simpl. apply bump_Forall2.
      * intros x _ _. apply capped_refl.
      * intros x Hx E. rewrite (loop_ready_unique _ _ _ _ Hready Hx E).
        unfold capped. simpl.
        split; [repeat split|]. lia.
    + eapply Forall2_trans_on; [exact capped_trans| |].
      * simpl. apply (bump_Forall2 capped (id batch) credits now).
        -- intros x _ _. apply capped_refl.
        -- intros x Hx E. rewrite (loop_ready_unique _ _ _ _ Hready Hx E).
           unfold capped. simpl.
           split; [repeat split|]. lia.
      * apply (IH (n - (credits batch - used_credits batch))
                 (charged u a i now (id batch) credits
                    (credits batch - used_credits batch) st) r st');
          [|exact H].
        apply loop_ready_charged; auto.
        apply (loop_ready_typed _ _ batch Hready). simpl. auto.
Qed.

End Capped.

Lemma plan_credits_non_negative p n t :
  plan_credits p = Some (n, t) -> 0 <= n.
Proof.
  unfold plan_credits. intros Hp.
  repeat match type of Hp with
         | (if ?c then _ else _) = _ => destruct c
         end; inversion Hp; lia.
Qed.

Lemma step_capped st c st' :
  schema st -> non_negative_allocation c -> step st c st' ->
  exists rows' new,
    credit_batches st' = rows' ++ new
    /\ Forall2 capped (credit_batches st) rows'
    /\ Forall (fun b => used_credits b <= credits b) new.
Proof.
  intros Hs Hc Hstep.
  assert (Hsame : exists rows' new,
             credit_batches st = rows' ++ new
             /\ Forall2 capped (credit_batches st) rows'
             /\ Forall (fun b => used_credits b <= credits b) new).
  { exists (credit_batches st), []. rewrite app_nil_r.
    split; [reflexivity|]. split; [|constructor].
    apply Forall2_refl_on. apply capped_refl. }
  assert (Hadd : forall u n t d now,
             0 <= n ->
             exists rows' new,
               credit_batches (state_after (add_credits u n t d now st) st)
               = rows' ++ new
               /\ Forall2 capped (credit_batches st) rows'
               /\ Forall (fun b => used_credits b <= credits b) new).
  { intros u n t d now Hn.
    destruct (add_credits u n t d now st) as [[nid s]|] eqn:H; [|exact Hsame].
    apply add_credits_inv in H. destruct H as (_ & _ & _ & _ & ->). simpl.
    eexists _, _. split; [reflexivity|].
    split; [apply Forall2_refl_on; apply capped_refl|].
    constructor; [simpl; auto | constructor]. }
  destruct Hstep as
    [st u n t d now | st u p now | st u n a i now rows Hn Hcur | |];
    try exact Hsame.
  - apply Hadd. exact Hc.
  - unfold add_plan_credits.
    destruct (plan_credits p) as [[n t]|] eqn:Hp; [|exact Hsame].
    pose proof (plan_credits_non_negative _ _ _ Hp) as Hn.
    specialize (Hadd u n t default_expiry_days now Hn).
    unfold bind, ret.
    destruct (add_credits u n t default_expiry_days now st) as [[x s]|];
      exact Hadd.
  - destruct (deduct_loop u a i now rows n st) as [[r s]|] eqn:H;
      [|exact Hsame].
    simpl. exists (credit_batches s), []. rewrite app_nil_r.
    split; [reflexivity|]. split; [|constructor].
    eapply deduct_loop_capped; eauto. eapply cursor_ready; eauto.
Qed.

Lemma steps_capped st cs st' :
  steps st cs st' -> schema st -> Forall non_negative_allocation cs ->
  Forall (fun b => used_credits b <= credits b) (credit_batches st) ->
  Forall (fun b => used_credits b <= credits b) (credit_batches st').
Proof.
  induction 1 as [|st c st1 cs st2 Hstep _ IH]; intros Hs Hcs Hb; auto.
  inversion Hcs as [|? ? Hc Hcs']; subst.
  apply IH; auto.
  - eapply step_schema; eauto.
  - destruct (step_capped _ _ _ Hs Hc Hstep) as (rows' & new & E & Hg & Hnew).
    rewrite E. apply Forall_app. split; [|exact Hnew].
    apply Forall_forall. intros y Hy.
    destruct (Forall2_in_r _ _ _ y Hg Hy) as (x & Hx & (_ & Hxy)).
    apply Hxy. rewrite Forall_forall in Hb. apply Hb. assumption.
Qed.

(** A call that deducts no negative amount lowers no counter, whatever
    it allocates. *)
Lemma step_raised st c st' :
  schema st -> non_negative_deduction c -> step st c st' ->
  exists rows' new,
    credit_batches st' = rows' ++ new
    /\ Forall2 raised (credit_batches st) rows'
    /\ Forall (fun b => used_credits b = 0) new.
Proof.
  intros Hs Hc Hstep.
  assert (Hrefl : Forall2 raised (credit_batches st) (credit_batches st)).
  { apply Forall2_refl_on. intros x. split; [reflexivity | lia]. }
  assert (Hsame : exists rows' new,
             credit_batches st = rows' ++ new
             /\ Forall2 raised (credit_batches st) rows'
             /\ Forall (fun b => used_credits b = 0) new).
  { exists (credit_batches st), []. rewrite app_nil_r.
    split; [reflexivity|]. split; [exact Hrefl | constructor]. }
  assert (Hadd : forall u n t d now,
             exists rows' new,
               credit_batches (state_after (add_credits u n t d now st) st)
               = rows' ++ new
               /\ Forall2 raised (credit_batches st) rows'
               /\ Forall (fun b => used_credits b = 0) new).
  { intros u n t d now.
    destruct (add_credits u n t d now st) as [[nid s]|] eqn:H; [|exact Hsame].
    apply add_credits_inv in H. destruct H as (_ & _ & _ & _ & ->). simpl.
    eexists _, _. split; [reflexivity|]. split; [exact Hrefl|].
    constructor; [reflexivity | constructor]. }
  destruct Hstep as
    [st u n t d now | st u p now | st u n a i now rows Hn Hcur | |];
    try exact Hsame.
  - apply Hadd.
  - unfold add_plan_credits.
    destruct (plan_credits p) as [[n t]|] eqn:Hp; [|exact Hsame].
    specialize (Hadd u n t default_expiry_days now).
    unfold bind, ret.
    destruct (add_credits u n t default_expiry_days now st) as [[x s]|];
      exact Hadd.
  - destruct (deduct_loop u a i now rows n st) as [[r s]|] eqn:H;
      [|exact Hsame].
    simpl. exists (credit_batches s), []. rewrite app_nil_r.
    split; [reflexivity|]. split; [|constructor].
    assert (Hg : Forall2 grown (credit_batches st) (credit_batches s)).
    { eapply deduct_loop_grown; [eapply cursor_ready; eauto | exact Hc
                                 | exact H]. }
    clear - Hg. induction Hg as [|x y l l' (F & L & _) _ IH]; constructor.
    + split; [apply F | exact L].
    + exact IH.
Qed.

Lemma steps_raised st cs st' :
  steps st cs st' -> schema st -> Forall non_negative_deduction cs ->
  Forall (fun b => 0 <= used_credits b) (credit_batches st) ->
  Forall (fun b => 0 <= used_credits b) (credit_batches st').
Proof.
  induction 1 as [|st c st1 cs st2 Hstep _ IH]; intros Hs Hcs Hb; auto.
  inversion Hcs as [|? ? Hc Hcs']; subst.
  apply IH; auto.
  - eapply step_schema; eauto.
  - destruct (step_raised _ _ _ Hs Hc Hstep) as (rows' & new & E & Hg & Hnew).
    rewrite E. apply Forall_app. split.
    + apply Forall_forall. intros y Hy.
      destruct (Forall2_in_r _ _ _ y Hg Hy) as (x & Hx & (_ & Hxy)).
      rewrite Forall_forall in Hb. specialize (Hb x Hx). simpl in Hb. lia.
    + eapply Forall_impl; [|exact Hnew]. simpl. intros b0 ->. lia.
Qed.

(** C8, as the code has it.  The procedures validate no amount, and a
    negative deduction lowers a counter, below 0 if need be.  What
    holds: whatever the amounts deducted, every batch of a history that
    allocates no negative amount has [used_credits <= credits]; along
    calls that deduct no negative amount every batch has
    [0 <= used_credits] and a call never lowers [used_credits]; and
    whatever the amounts, no call changes the [credits] or the
    [subscription_type] (nor the owner, the expiry or the creation
    time) of a stored batch, [add_credits] and [add_plan_credits] leave
    every stored batch as it is, and [deduct_credits] creates none. *)
Theorem C8_used_credits_bounded_for_non_negative_amounts :
  (forall cs st,
     Forall non_negative_allocation cs -> steps empty_ledger cs st ->
     forall b, In b (credit_batches st) -> used_credits b <= credits b)
  /\ (forall cs st,
        Forall non_negative_deduction cs -> steps empty_ledger cs st ->
        forall b, In b (credit_batches st) -> 0 <= used_credits b)
  /\ (forall cs st,
        Forall non_negative_call cs -> steps empty_ledger cs st ->
        forall b, In b (credit_batches st) ->
                  0 <= used_credits b <= credits b)
  /\ (forall st c st',
        schema st -> non_negative_deduction c -> step st c st' ->
        forall b, In b (credit_batches st) ->
          exists b', In b' (credit_batches st') /\ id b' = id b
                     /\ used_credits b <= used_credits b')
  /\ (forall st c st',
        step st c st' ->
        exists rows' new,
          credit_batches st' = rows' ++ new
          /\ Forall2 fixed_columns (credit_batches st) rows'
          /\ match c with
             | call_deduct_credits _ _ _ _ _ => new = []
             | _ => rows' = credit_batches st
             end).
Proof.
  split; [|split; [|split; [|split]]].
  - intros cs st Hcs Hsteps b Hb.
    assert (H : Forall (fun b => used_credits b <= credits b)
                  (credit_batches st))
      by (apply (steps_capped _ _ _ Hsteps schema_empty Hcs); constructor).
    rewrite Forall_forall in H. apply H. assumption.
  - intros cs st Hcs Hsteps b Hb.
    assert (H : Forall (fun b => 0 <= used_credits b) (credit_batches st))
      by (apply (steps_raised _ _ _ Hsteps schema_empty Hcs); constructor).
    rewrite Forall_forall in H. apply H. assumption.
  - intros cs st Hcs Hsteps b Hb.
    assert (H : Forall within_bounds (credit_batches st))
      by (apply (steps_within_bounds _ _ _ Hsteps schema_empty Hcs);
          constructor).
    rewrite Forall_forall in H. apply H. assumption.
  - intros st c st' Hs Hc Hstep b Hb.
    destruct (step_raised _ _ _ Hs Hc Hstep) as (rows' & new & E & Hg & _).
    destruct (Forall2_in_l _ _ _ b Hg Hb) as (b' & Hb' & (F & L)).
    exists b'. rewrite E. split; [apply in_or_app; auto|].
    split; assumption.
  - intros st c st'. apply step_fixed.
Qed.

Lemma C8_used_credits_bounded_for_non_negative_amounts_witness :
  (forall b, In b (credit_batches (run_calls overdrawn_calls empty_ledger)) ->
             used_credits b <= credits b)
  /\ (forall b, In b (credit_batches (run_calls sample_calls empty_ledger)) ->
                0 <= used_credits b)
  /\ (forall b, In b (credit_batches (run_calls sample_calls empty_ledger)) ->
                0 <= used_credits b <= credits b)
  /\ (forall b, In b (credit_batches sample_ledger) ->
        exists b',
          In b' (credit_batches (run_calls sample_calls empty_ledger))
          /\ id b' = id b /\ used_credits b <= used_credits b')
  /\ (exists rows' new,
        credit_batches (run_calls sample_calls empty_ledger) = rows' ++ new
        /\ Forall2 fixed_columns (credit_batches sample_ledger) rows'
        /\ new = []).
Proof.
  destruct C8_used_credits_bounded_for_non_negative_amounts
    as (H1 & H2 & H3 & H4 & H5).
  split; [|split; [|split; [|split]]].
  - apply (H1 overdrawn_calls).
    + repeat constructor; simpl; lia.
    + apply run_calls_steps.
  - apply (H2 sample_calls).
    + repeat constructor; simpl; lia.
    + apply run_calls_steps.
  - apply (H3 sample_calls).
    + repeat constructor; simpl; lia.
    + apply run_calls_steps.
  - apply (H4 sample_ledger
             (call_deduct_credits 7%N 6 "essay" None usecs_per_day)).
    + exact sample_ledger_schema.
    + simpl. lia.
    + apply (run_call_step sample_ledger).
  - apply (H5 sample_ledger
             (call_deduct_credits 7%N 6 "essay" None usecs_per_day)).
    apply (run_call_step sample_ledger).
Defined.

(** C8 as stated fails: after 5 credits are allocated, deducting -3
    takes [used_credits] from 0 to -3.  And a batch allocated with the
    size -5, which nothing forbids either, has its counter above its
    size from the start. *)
Lemma C8_counterexample :
  let cs := [call_add_credits 7%N 5 "free" 14 0;
             call_deduct_credits 7%N (-3) "essay" None 0] in
  steps empty_ledger cs (run_calls cs empty_ledger)
  /\ map (fun b => (id b, credits b, used_credits b))
       (credit_batches one_batch)
     = [(0%N, 5, 0)]
  /\ deduct_credits 7%N (-3) "essay" None 0 one_batch
     = Ok (true, run_calls cs empty_ledger)
  /\ map (fun b => (id b, credits b, used_credits b))
       (credit_batches (run_calls cs empty_ledger))
     = [(0%N, 5, -3)]
  /\ ~ (forall cs st,
          steps empty_ledger cs st ->
          forall b, In b (credit_batches st) ->
                    0 <= used_credits b <= credits b)
  /\ map (fun b => (id b, credits b, used_credits b))
       (credit_batches
          (run_calls [call_add_credits 7%N (-5) "free" 14 0] empty_ledger))
     = [(0%N, -5, 0)].
Proof.
  intros cs. split; [apply run_calls_steps|].
  split; [reflexivity|]. split; [reflexivity|]. split; [reflexivity|].
  split; [|reflexivity].
  intros H.
  assert (K : 0 <= -3 <= 5).
  { apply (H cs _ (run_calls_steps cs empty_ledger)
             (mkBatch 0%N 7%N 5 (-3) "free" (14 * usecs_per_day) 0 0)).
    left. reflexivity. }
  lia.
Qed.

(** ** Deducting nothing or less *)

Lemma update_where_set_used_plus_raise n now b rows :
  (exists r, In r rows /\ id r = b /\ in_int4 (used_credits r + n) = false) ->
  update_where
    (fun row =>
       match set_used_plus n now row with
       | Ok row' => Ok (update_updated_at_column now row')
       | Raise e => Raise e
       end)
    (fun row => N.eqb (id row) b) rows
  = Raise integer_out_of_range.
Proof.
  induction rows as [|x rest IH]; intros (r & Hr & E & Hf); [contradiction|].
  cbn [update_where].
  destruct (N.eqb_spec (id x) b) as [Ex|Ex].
  - destruct (in_int4 (used_credits x + n)) eqn:Hx.
    + rewrite IH by (destruct Hr as [<-|Hr]; [congruence | eauto]).
      unfold set_used_plus, int4pl, int4. rewrite Hx. reflexivity.
    + unfold set_used_plus, int4pl, int4. rewrite Hx. reflexivity.
  - rewrite IH; [reflexivity|].
    destruct Hr as [<-|Hr]; [congruence | eauto].
Qed.

(** The [WHERE] clause of the loop's query raises on the rows where the
    subtraction does, and on no other. *)
Lemma active_batch_qual_raise u now row :
  (exists k, active_batch_qual u now row = Ok k
             /\ (user_id row = u -> now < expires_at row ->
                 in_int4 (credits row - used_credits row) = true))
  \/ (active_batch_qual u now row = Raise integer_out_of_range
      /\ user_id row = u /\ now < expires_at row
      /\ in_int4 (credits row - used_credits row) = false).
Proof.
  unfold active_batch_qual, int4mi, int4.
  destruct (N.eqb_spec (user_id row) u) as [E|E]; simpl;
    [|left; eexists; split; [reflexivity | intros; contradiction]].
  destruct (Z.gtb_spec (expires_at row) now) as [G|G]; simpl;
    [|left; eexists; split; [reflexivity | intros; lia]].
  destruct (in_int4 (credits row - used_credits row)) eqn:H.
  - left. eexists. split; [reflexivity | auto].
  - right. auto.
Qed.

Lemma select_where_active_cases u now rows :
  ((exists sel, select_where (active_batch_qual u now) rows = Ok sel)
   /\ query_in_range u now rows)
  \/ (select_where (active_batch_qual u now) rows = Raise integer_out_of_range
      /\ ~ query_in_range u now rows).
Proof.
  induction rows as [|x rest IH]; simpl.
  - left. split; [eauto|]. intros b [].
  - destruct (active_batch_qual_raise u now x)
      as [(k & Hk & Hx)|(Hk & Hu & He & Hx)]; rewrite Hk.
    + destruct IH as [[[sel Hs] Hq]|[Hs Hq]]; rewrite Hs.
      * left. split; [eauto|].
        intros b [<-|Hb]; [exact Hx | apply Hq; assumption].
      * right. split; [reflexivity|].
        intros H. apply Hq. intros b Hb. apply H. simpl. auto.
    + right. split; [reflexivity|].
      intros H. specialize (H x (or_introl eq_refl) Hu He). congruence.
Qed.

Lemma cursor_of_query st u now :
  (exists rows, cursor_of st u now rows)
  <-> query_in_range u now (credit_batches st).
Proof.
  destruct (select_where_active_cases u now (credit_batches st))
    as [[[sel Hs] Hq]|[Hs Hq]]; split; intros H.
  - exact Hq.
  - exists (order_by_expires_at sel), sel. split; [assumption|]. split.
    + apply order_by_expires_at_perm.
    + apply order_by_expires_at_sorted.
  - destruct H as (rows & sel & Hsel & _). congruence.
  - contradiction.
Qed.

Lemma deduct_credits_query u n a i now st :
  in_int4 n = true -> query_in_range u now (credit_batches st) ->
  exists rows,
    cursor_of st u now rows
    /\ deduct_credits u n a i now st = deduct_loop u a i now rows n st.
Proof.
  intros Hn Hq.
  destruct (select_where_active_cases u now (credit_batches st))
    as [[[sel Hs] _]|[_ Hnq]]; [|contradiction].
  exists (order_by_expires_at sel). split.
  - exists sel. split; [assumption|]. split.
    + apply order_by_expires_at_perm.
    + apply order_by_expires_at_sorted.
  - apply deduct_credits_loop; assumption.
Qed.

Lemma deduct_credits_query_raise u n a i now st :
  ~ query_in_range u now (credit_batches st) ->
  deduct_credits u n a i now st = Raise integer_out_of_range.
Proof.
  intros Hq.
  destruct (select_where_active_cases u now (credit_batches st))
    as [[_ Hq']|[Hs _]]; [contradiction|].
  unfold deduct_credits, bind at 1, lift, int4.
  destruct (in_int4 n); [|reflexivity].
  unfold bind, select_active_batches. rewrite Hs. reflexivity.
Qed.

(** The loop on a non-positive amount. *)
Lemma deduct_loop_non_positive st u n a i now b1 rest :
  schema st -> cursor_of st u now (b1 :: rest) ->
  n <= 0 -> in_int4 n = true ->
  (forall b, In b rest -> expires_at b1 <= expires_at b)
  /\ (in_int4 (used_credits b1 + n) = true ->
      exists st',
        deduct_loop u a i now (b1 :: rest) n st = Ok (true, st')
        /\ In (with_used_credits b1 (used_credits b1 + n) now)
             (credit_batches st')
        /\ (n < 0 -> used_credits b1 + n < used_credits b1)
        /\ (forall b, In b (credit_batches st) -> id b <> id b1 ->
                      In b (credit_batches st'))
        /\ map id (credit_batches st') = map id (credit_batches st)
        /\ credit_usage st'
           = credit_usage st ++
               [mkUsage (uuid_supply st) u (id b1) n a i now])
  /\ (in_int4 (used_credits b1 + n) = false ->
      deduct_loop u a i now (b1 :: rest) n st
      = Raise integer_out_of_range).
Proof.
  intros Hs Hc Hn Hty.
  pose proof (cursor_ready _ _ _ _ Hs Hc) as Hready.
  pose proof Hready as (_ & _ & Hincl & Hall).
  inversion Hall as [|? ? [Hav Hpos] _]; subst. unfold available in *.
  assert (Hb1 : In b1 (credit_batches st)) by (apply Hincl; simpl; auto).
  split; [|split].
  - intros b Hb. destruct Hc as (_ & _ & _ & Hsorted).
    eapply sorted_head_least; eauto.
  - intros Hsum. eexists. split.
    + apply deduct_loop_enough; [assumption | lia |].
      intros r Hr E. rewrite (loop_ready_unique _ _ _ _ Hready Hr E).
      assumption.
    + simpl. split; [|split; [lia|split; [|split]]].
      * apply (bump_in_same (id b1) (fun row => used_credits row + n));
          auto.
      * intros b Hb Hne. apply bump_in_other; auto.
      * apply bump_ids.
      * reflexivity.
  - intros Hsum. cbn [deduct_loop]. unfold bind at 1, lift, int4mi.
    rewrite int4_in by assumption.
    destruct (Z.geb_spec (credits b1 - used_credits b1) n); [|lia].
    unfold bind, update_credit_batches.
    rewrite update_where_set_used_plus_raise; [reflexivity|].
    exists b1. auto.
Qed.

(** C10, as the code has it.  The query of the loop subtracts
    [used_credits] from [credits] on every unexpired batch of the owner
    and raises [integer_out_of_range], before any row is visited, when
    one of the differences is no [INTEGER].  When they all are and the
    amount is an [INTEGER] of 0 or less: with an active batch, the
    procedure adds the amount to the counter of an active batch [b1]
    that expires no later than any other, inserts one usage row of
    that amount, touches nothing else and returns [TRUE], provided the
    sum [used_credits + amount] is an [INTEGER]; when it is not, the
    update raises [integer_out_of_range]; without an active batch it
    returns [FALSE] and the ledger is as before.  The same holds of the
    loop over any sorted arrangement of the selected rows, and such an
    arrangement exists exactly when the query can be evaluated. *)
Theorem C10_non_positive_amount_charges_first_batch :
  (forall st u n a i now,
     schema st -> n <= 0 -> in_int4 n = true ->
     query_in_range u now (credit_batches st) ->
     ((exists b, In b (credit_batches st) /\ active u now b) ->
      exists b1,
        In b1 (credit_batches st) /\ active u now b1
        /\ (forall b, In b (credit_batches st) -> active u now b ->
                      expires_at b1 <= expires_at b)
        /\ (in_int4 (used_credits b1 + n) = true ->
            exists st',
              deduct_credits u n a i now st = Ok (true, st')
              /\ In (with_used_credits b1 (used_credits b1 + n) now)
                   (credit_batches st')
              /\ (n < 0 -> used_credits b1 + n < used_credits b1)
              /\ (forall b, In b (credit_batches st) -> id b <> id b1 ->
                            In b (credit_batches st'))
              /\ map id (credit_batches st') = map id (credit_batches st)
              /\ credit_usage st'
                 = credit_usage st ++
                     [mkUsage (uuid_supply st) u (id b1) n a i now])
        /\ (in_int4 (used_credits b1 + n) = false ->
            deduct_credits u n a i now st = Raise integer_out_of_range
            /\ state_after (deduct_credits u n a i now st) st = st))
     /\ ((forall b, In b (credit_batches st) -> ~ active u now b) ->
         deduct_credits u n a i now st = Ok (false, st)))
  /\ (forall st u n a i now,
        ~ query_in_range u now (credit_batches st) ->
        deduct_credits u n a i now st = Raise integer_out_of_range
        /\ state_after (deduct_credits u n a i now st) st = st)
  /\ (forall st u now,
        (exists rows, cursor_of st u now rows)
        <-> query_in_range u now (credit_batches st))
  /\ (forall st u n a i now b1 rest,
        schema st -> cursor_of st u now (b1 :: rest) ->
        n <= 0 -> in_int4 n = true ->
        (forall b, In b rest -> expires_at b1 <= expires_at b)
        /\ (in_int4 (used_credits b1 + n) = true ->
            exists st',
              deduct_loop u a i now (b1 :: rest) n st = Ok (true, st')
              /\ In (with_used_credits b1 (used_credits b1 + n) now)
                   (credit_batches st')
              /\ (n < 0 -> used_credits b1 + n < used_credits b1)
              /\ (forall b, In b (credit_batches st) -> id b <> id b1 ->
                            In b (credit_batches st'))
              /\ map id (credit_batches st') = map id (credit_batches st)
              /\ credit_usage st'
                 = credit_usage st ++
                     [mkUsage (uuid_supply st) u (id b1) n a i now])
        /\ (in_int4 (used_credits b1 + n) = false ->
            deduct_loop u a i now (b1 :: rest) n st
            = Raise integer_out_of_range))
  /\ (forall st u n a i now,
        cursor_of st u now [] ->
        (forall b, In b (credit_batches st) ->
           ~ (user_id b = u /\ now < expires_at b
              /\ 0 < credits b - used_credits b))
        /\ deduct_loop u a i now [] n st = Ok (false, st)).
Proof.
  split; [|split; [|split; [|split]]].
  - intros st u n a i now Hs Hn Hty Hq.
    destruct (deduct_credits_query u n a i now st Hty Hq) as (rows & Hc & E).
    rewrite E. destruct rows as [|b1 rest].
    + split; [|reflexivity].
      intros (b & Hb & Hact). exfalso.
      apply (cursor_of_active _ _ _ _ b Hc). unfold active in Hact. tauto.
    + assert (H1 : In b1 (credit_batches st) /\ active u now b1)
        by (unfold active; apply (cursor_of_active _ _ _ _ b1 Hc);
            simpl; auto).
      split.
      * intros _. exists b1.
        destruct (deduct_loop_non_positive st u n a i now b1 rest
                    Hs Hc Hn Hty) as (Hleast & Hok & Hraise).
        split; [apply H1|]. split; [apply H1|].
        split; [|split; [exact Hok|]].
        -- intros b Hb Hact.
           assert (Hin : In b (b1 :: rest))
             by (apply (cursor_of_active _ _ _ _ b Hc);
                 unfold active in Hact; tauto).
           destruct Hin as [<-|Hin]; [lia | auto].
        -- intros Hsum. rewrite (Hraise Hsum). auto.
      * intros Hnone. exfalso. apply (Hnone b1); apply H1.
  - intros st u n a i now Hq.
    rewrite (deduct_credits_query_raise u n a i now st Hq). auto.
  - intros st u now. apply cursor_of_query.
  - intros st u n a i now b1 rest.
    apply deduct_loop_non_positive.
  - intros st u n a i now Hc. split; [|reflexivity].
    intros b Hb Hact.
    apply (cursor_of_active _ _ _ _ b Hc). tauto.
Qed.

Lemma C10_non_positive_amount_charges_first_batch_witness :
  (exists b1,
     In b1 (credit_batches one_batch) /\ active 7%N 0 b1
     /\ (forall b, In b (credit_batches one_batch) -> active 7%N 0 b ->
                   expires_at b1 <= expires_at b)
     /\ exists st',
          deduct_credits 7%N (-1) "essay" None 0 one_batch = Ok (true, st')
          /\ In (with_used_credits b1 (used_credits b1 + -1) 0)
               (credit_batches st')
          /\ (-1 < 0 -> used_credits b1 + -1 < used_credits b1)
          /\ (forall b, In b (credit_batches one_batch) -> id b <> id b1 ->
                        In b (credit_batches st'))
          /\ map id (credit_batches st') = map id (credit_batches one_batch)
          /\ credit_usage st'
             = credit_usage one_batch ++
                 [mkUsage (uuid_supply one_batch) 7%N (id b1) (-1) "essay"
                    None 0])
  /\ deduct_credits 8%N 0 "essay" None 0 one_batch = Ok (false, one_batch)
  /\ (deduct_credits 7%N 0 "essay" None 0 overfull
      = Raise integer_out_of_range
      /\ state_after (deduct_credits 7%N 0 "essay" None 0 overfull) overfull
         = overfull).
Proof.
  assert (Hs : schema one_batch)
    by apply (steps_schema _ _ (run_calls_steps _ _)).
  assert (Hq : forall u, query_in_range u 0 (credit_batches one_batch)).
  { intros u b [<-|[]] _ _. reflexivity. }
  split; [|split].
  - assert (Hn : -1 <= 0) by lia.
    destruct (proj1 (proj1 C10_non_positive_amount_charges_first_batch
                       one_batch 7%N (-1) "essay"%string None 0
                       Hs Hn eq_refl (Hq 7%N)))
      as (b1 & Hb1 & Hact & Hleast & Hok & _).
    { eexists. split; [left; reflexivity|].
      unfold active. simpl. unfold usecs_per_day. lia. }
    exists b1. split; [assumption|]. split; [assumption|].
    split; [assumption|]. apply Hok.
    destruct Hb1 as [<-|[]]. reflexivity.
  - assert (Hn : 0 <= 0) by lia.
    apply (proj2 (proj1 C10_non_positive_amount_charges_first_batch
                    one_batch 8%N 0 "essay"%string None 0
                    Hs Hn eq_refl (Hq 8%N))).
    intros b [<-|[]] (Hu & _). discriminate Hu.
  - apply (proj1 (proj2 C10_non_positive_amount_charges_first_batch)
             overfull 7%N 0 "essay"%string None 0).
    intros H.
    specialize (H (mkBatch 0%N 7%N 2147483647 (-1) "free"
                     (14 * usecs_per_day) 0 0)).
    simpl in H. unfold usecs_per_day in H.
    assert (K : false = true)
      by (apply H; [left; reflexivity | reflexivity | lia]).
    discriminate K.
Defined.

(** C10 as stated fails: the owner of [overdrawn] has an active batch,
    with [used_credits = -1], and deducting the least [INTEGER] does not
    return [TRUE] but raises, since -1 - 2147483648 is no [INTEGER]. *)
Lemma C10_counterexample :
  steps empty_ledger overdrawn_calls overdrawn
  /\ map (fun b => (id b, user_id b, credits b, used_credits b, expires_at b))
       (credit_batches overdrawn)
     = [(0%N, 7%N, 5, -1, 14 * usecs_per_day)]
  /\ in_int4 (-2147483648) = true
  /\ deduct_credits 7%N (-2147483648) "essay" None 0 overdrawn
     = Raise integer_out_of_range
  /\ ~ (exists st',
          deduct_credits 7%N (-2147483648) "essay" None 0 overdrawn
          = Ok (true, st')).
Proof.
  split; [apply run_calls_steps|]. split; [reflexivity|].
  split; [reflexivity|]. split; [reflexivity|].
  intros [st' H]. vm_compute in H. discriminate.
Qed.

(** * Further properties of the ledger and of the credits service *)

(** ** The balance after a deduction *)

Lemma remaining_credits_total u now st :
  getRemainingCredits u now st
  = (total_available (unexpired_of u now (credit_batches st)), st).
Proof.
  unfold getRemainingCredits, select_credits_of, unexpired_of. simpl.
  rewrite fold_left_remaining. reflexivity.
Qed.

Lemma total_available_perm rows rows' :
  Permutation rows rows' -> total_available rows = total_available rows'.
Proof. induction 1; simpl; lia. Qed.

Lemma bump_absent b f now rows :
  ~ In b (map id rows) -> bump b f now rows = rows.
Proof.
  induction rows as [|x rest IH]; simpl; intros Hnot; [reflexivity|].
  destruct (N.eqb_spec (id x) b) as [E|E]; [exfalso; auto|].
  rewrite IH; auto.
Qed.

Lemma bump_cons b f now x rest :
  bump b f now (x :: rest)
  = (if N.eqb (id x) b then with_used_credits x (f x) now else x)
      :: bump b f now rest.
Proof. reflexivity. Qed.

(** Charging an unexpired batch of the owner lowers the balance by the
    charge. *)
Lemma unexpired_bump_charge u now t amount batch rows :
  NoDup (map id rows) -> In batch rows ->
  user_id batch = u -> now < expires_at batch ->
  total_available
    (unexpired_of u now
       (bump (id batch) (fun r => used_credits r + amount) t rows))
  = total_available (unexpired_of u now rows) - amount.
Proof.
  intros Hnd Hin Hu He.
  induction rows as [|x rest IH]; [contradiction|].
  simpl in Hnd. apply NoDup_cons_iff in Hnd. destruct Hnd as [Hnot Hnd'].
  rewrite bump_cons.
  destruct Hin as [->|Hin].
  - rewrite N.eqb_refl, bump_absent by assumption.
    unfold unexpired_of. cbn [filter with_used_credits user_id expires_at].
    rewrite Hu, N.eqb_refl.
    destruct (Z.gtb_spec (expires_at batch) now); [|lia].
    simpl. lia.
  - assert (Hne : id x <> id batch).
    { intros E. apply Hnot. rewrite E. apply in_map. assumption. }
    destruct (N.eqb_spec (id x) (id batch)); [contradiction|].
    specialize (IH Hnd' Hin). unfold unexpired_of in *. cbn [filter].
    destruct (N.eqb (user_id x) u && (expires_at x >? now)); simpl; lia.
Qed.

Lemma charge_all_balance u now p a i t cs : forall st,
  NoDup (map id (credit_batches st)) ->
  NoDup (map (fun c => id (fst c)) cs) ->
  (forall c, In c cs ->
     In (fst c) (credit_batches st) /\ user_id (fst c) = u
     /\ now < expires_at (fst c)) ->
  total_available
    (unexpired_of u now (credit_batches (charge_all p a i t cs st)))
  = total_available (unexpired_of u now (credit_batches st))
    - fold_right (fun c acc => snd c + acc) 0 cs.
Proof.
  induction cs as [|[b amount] rest IH]; intros st Hpk Hnd Hcs; simpl; [lia|].
  simpl in Hnd. apply NoDup_cons_iff in Hnd. destruct Hnd as [Hnot Hnd'].
  destruct (Hcs (b, amount)) as (Hb & Hu & He); [simpl; auto|]. simpl in *.
  rewrite IH.
  - simpl. rewrite unexpired_bump_charge by assumption. lia.
  - simpl. rewrite bump_ids. assumption.
  - assumption.
  - intros c Hc. destruct (Hcs c) as (Hc1 & Hc2 & Hc3); [auto|].
    split; [|auto]. simpl. apply bump_in_other; [assumption|].
    intros E. apply Hnot. rewrite <- E.
    apply (in_map (fun c => id (fst c)) rest c). assumption.
Qed.

(** What the cursor holds is at least the balance, and is the balance
    when no unexpired batch of the owner is overdrawn. *)
Lemma select_where_active_total u now rows sel :
  select_where (active_batch_qual u now) rows = Ok sel ->
  total_available (unexpired_of u now rows) <= total_available sel
  /\ ((forall b, In b rows -> user_id b = u -> now < expires_at b ->
                 0 <= credits b - used_credits b) ->
      total_available sel = total_available (unexpired_of u now rows)).
Proof.
  revert sel. induction rows as [|x rest IH]; simpl; intros sel H.
  - inversion H. simpl. split; [lia | reflexivity].
  - destruct (active_batch_qual u now x) as [keep|] eqn:Hq; [|discriminate].
    destruct (select_where _ rest) as [sel'|] eqn:Hs; [|discriminate].
    inversion H; subst; clear H.
    destruct (IH _ eq_refl) as [IH1 IH2].
    unfold active_batch_qual, int4mi, int4 in Hq.
    destruct (N.eqb (user_id x) u) eqn:Eu; simpl in *.
    + destruct (Z.gtb_spec (expires_at x) now) as [G|G]; simpl in *.
      * destruct (in_int4 (credits x - used_credits x)); [|discriminate].
        inversion Hq; subst; clear Hq.
        destruct (Z.gtb_spec (credits x - used_credits x) 0); simpl.
        -- split; [lia|]. intros Hb. rewrite IH2; auto.
        -- split; [lia|]. intros Hb. rewrite IH2 by auto.
           apply N.eqb_eq in Eu.
           specialize (Hb x (or_introl eq_refl) Eu G). lia.
      * inversion Hq; subst. split; [lia|]. intros Hb. apply IH2. auto.
    + inversion Hq; subst. split; [lia|]. intros Hb. apply IH2. auto.
Qed.

Lemma cursor_total_balance st u now rows :
  cursor_of st u now rows ->
  total_available (unexpired_of u now (credit_batches st))
  <= total_available rows
  /\ (Forall within_bounds (credit_batches st) ->
      total_available rows
      = total_available (unexpired_of u now (credit_batches st))).
Proof.
  intros (sel & Hs & Hp & _).
  rewrite <- (total_available_perm _ _ Hp).
  destruct (select_where_active_total u now _ _ Hs) as [H1 H2].
  split; [assumption|]. intros Hb. apply H2. intros b Hin _ _.
  rewrite Forall_forall in Hb. specialize (Hb b Hin).
  unfold within_bounds in Hb. lia.
Qed.

Lemma deduct_loop_balance u a i now rows n st :
  schema st -> cursor_of st u now rows -> 0 < n -> in_int4 n = true ->
  exists st',
    deduct_loop u a i now rows n st = Ok (covered rows n, st')
    /\ total_available (unexpired_of u now (credit_batches st'))
       = total_available (unexpired_of u now (credit_batches st))
         - (if covered rows n then n else total_available rows).
Proof.
  intros Hs Hc Hn Hty.
  pose proof (cursor_ready _ _ _ _ Hs Hc) as Hready.
  pose proof Hready as (_ & Hnd & Hincl & Hall).
  exists (charge_all u a i now (charges rows n) st). split.
  - apply deduct_loop_charges; [assumption | lia | assumption].
  - destruct (charges_ready st rows n Hnd Hincl) as (C1 & C2 & C3).
    rewrite charge_all_balance.
    + rewrite charges_sum by assumption. reflexivity.
    + apply Hs.
    + assumption.
    + intros c Hc'. split; [auto|].
      pose proof (proj1 (cursor_of_in _ _ _ _ (fst c) Hc) (C2 c Hc')).
      tauto.
Qed.

Lemma within_bounds_query st u now :
  schema st -> Forall within_bounds (credit_batches st) ->
  query_in_range u now (credit_batches st).
Proof.
  intros [_ Hint _ _] Hb b Hin _ _. rewrite Forall_forall in *.
  specialize (Hb b Hin). unfold within_bounds in Hb.
  destruct (Hint b Hin) as [Hc Hu]. int4_lia.
Qed.

(** X1. When the query of [deduct_credits] can be evaluated, which it
    can on a ledger whose counters are within bounds, a deduction of a
    positive [INTEGER] amount returns and lowers the owner's balance,
    read at the same instant, by the amount when it returns [TRUE] and
    by all the cursor held when it returns [FALSE], never by more than
    the amount; on a ledger whose counters are within bounds the
    balance left is the former balance less the amount, or 0 when that
    would be negative.  When the query cannot be evaluated the call
    raises and the balance is as before.  The loop does the same over
    any sorted arrangement of the selected rows. *)
Theorem X1_balance_after_deduction :
  (forall st u n a i now,
     schema st -> 0 < n -> in_int4 n = true ->
     query_in_range u now (credit_batches st) ->
     exists r st' rows,
       deduct_credits u n a i now st = Ok (r, st')
       /\ cursor_of st u now rows
       /\ fst (getRemainingCredits u now st')
          = fst (getRemainingCredits u now st)
            - (if r then n else total_available rows)
       /\ fst (getRemainingCredits u now st) - n
          <= fst (getRemainingCredits u now st')
       /\ (Forall within_bounds (credit_batches st) ->
           fst (getRemainingCredits u now st')
           = Z.max 0 (fst (getRemainingCredits u now st) - n)))
  /\ (forall st u now,
        schema st -> Forall within_bounds (credit_batches st) ->
        query_in_range u now (credit_batches st))
  /\ (forall st u n a i now,
        ~ query_in_range u now (credit_batches st) ->
        deduct_credits u n a i now st = Raise integer_out_of_range
        /\ fst (getRemainingCredits u now
                  (state_after (deduct_credits u n a i now st) st))
           = fst (getRemainingCredits u now st))
  /\ (forall st u n a i now rows,
        schema st -> cursor_of st u now rows -> 0 < n -> in_int4 n = true ->
        exists r st',
          deduct_loop u a i now rows n st = Ok (r, st')
          /\ fst (getRemainingCredits u now st')
             = fst (getRemainingCredits u now st)
               - (if r then n else total_available rows)
          /\ fst (getRemainingCredits u now st) - n
             <= fst (getRemainingCredits u now st')
          /\ (Forall within_bounds (credit_batches st) ->
              fst (getRemainingCredits u now st')
              = Z.max 0 (fst (getRemainingCredits u now st) - n))).
Proof.
  assert (Hloop : forall st u n a i now rows,
             schema st -> cursor_of st u now rows -> 0 < n ->
             in_int4 n = true ->
             exists r st',
               deduct_loop u a i now rows n st = Ok (r, st')
               /\ fst (getRemainingCredits u now st')
                  = fst (getRemainingCredits u now st)
                    - (if r then n else total_available rows)
               /\ fst (getRemainingCredits u now st) - n
                  <= fst (getRemainingCredits u now st')
               /\ (Forall within_bounds (credit_batches st) ->
                   fst (getRemainingCredits u now st')
                   = Z.max 0 (fst (getRemainingCredits u now st) - n))).
  { intros st u n a i now rows Hs Hc Hn Hty.
    destruct (deduct_loop_balance u a i now rows n st Hs Hc Hn Hty)
      as (st' & Hrun & Hbal).
    pose proof (cursor_ready _ _ _ _ Hs Hc) as (_ & _ & _ & Hall).
    pose proof (covered_iff rows n Hall Hn) as Hcov.
    destruct (cursor_total_balance _ _ _ _ Hc) as [Hle Heq].
    exists (covered rows n), st'. rewrite !remaining_credits_total. simpl.
    split; [assumption|]. split; [assumption|].
    destruct (covered rows n) eqn:E.
    - assert (n <= total_available rows) by (apply Hcov; reflexivity).
      split; [lia|]. intros Hb. rewrite <- (Heq Hb) in *. lia.
    - assert (~ n <= total_available rows)
        by (intros K; apply Hcov in K; discriminate).
      split; [lia|]. intros Hb. rewrite <- (Heq Hb) in *. lia. }
  split; [|split; [|split]].
  - intros st u n a i now Hs Hn Hty Hq.
    destruct (deduct_credits_query u n a i now st Hty Hq) as (rows & Hc & E).
    destruct (Hloop st u n a i now rows Hs Hc Hn Hty) as (r & st' & H & K).
    exists r, st', rows. rewrite E. auto.
  - intros st u now. apply within_bounds_query.
  - intros st u n a i now Hq.
    rewrite (deduct_credits_query_raise u n a i now st Hq). auto.
  - exact Hloop.
Qed.

Lemma X1_balance_after_deduction_witness :
  (exists r st' rows,
     deduct_credits 7%N 6 "essay" None usecs_per_day sample_ledger
     = Ok (r, st')
     /\ cursor_of sample_ledger 7%N usecs_per_day rows
     /\ fst (getRemainingCredits 7%N usecs_per_day st')
        = fst (getRemainingCredits 7%N usecs_per_day sample_ledger)
          - (if r then 6 else total_available rows)
     /\ fst (getRemainingCredits 7%N usecs_per_day sample_ledger) - 6
        <= fst (getRemainingCredits 7%N usecs_per_day st')
     /\ (Forall within_bounds (credit_batches sample_ledger) ->
         fst (getRemainingCredits 7%N usecs_per_day st')
         = Z.max 0
             (fst (getRemainingCredits 7%N usecs_per_day sample_ledger) - 6)))
  /\ (deduct_credits 7%N 1 "essay" None 0 overfull
      = Raise integer_out_of_range
      /\ fst (getRemainingCredits 7%N 0
                (state_after (deduct_credits 7%N 1 "essay" None 0 overfull)
                   overfull))
         = fst (getRemainingCredits 7%N 0 overfull))
  /\ (exists r st',
        deduct_loop 7%N "essay" None usecs_per_day
          (order_by_expires_at (credit_batches sample_ledger)) 6
          sample_ledger
        = Ok (r, st')
        /\ fst (getRemainingCredits 7%N usecs_per_day st')
           = fst (getRemainingCredits 7%N usecs_per_day sample_ledger)
             - (if r then 6
                else total_available
                       (order_by_expires_at (credit_batches sample_ledger)))
        /\ fst (getRemainingCredits 7%N usecs_per_day sample_ledger) - 6
           <= fst (getRemainingCredits 7%N usecs_per_day st')
        /\ (Forall within_bounds (credit_batches sample_ledger) ->
            fst (getRemainingCredits 7%N usecs_per_day st')
            = Z.max 0
                (fst (getRemainingCredits 7%N usecs_per_day sample_ledger)
                 - 6))).
Proof.
  destruct X1_balance_after_deduction as (H1 & H2 & H3 & H4).
  assert (Hb : Forall within_bounds (credit_batches sample_ledger))
    by (repeat constructor; unfold within_bounds; simpl; lia).
  split; [|split].
  - apply H1.
    + exact sample_ledger_schema.
    + lia.
    + reflexivity.
    + apply H2; [exact sample_ledger_schema | exact Hb].
  - apply H3. intros H.
    specialize (H (mkBatch 0%N 7%N 2147483647 (-1) "free"
                     (14 * usecs_per_day) 0 0)).
    simpl in H. unfold usecs_per_day in H.
    assert (K : false = true)
      by (apply H; [left; reflexivity | reflexivity | lia]).
    discriminate K.
  - apply H4.
    + exact sample_ledger_schema.
    + apply (select_active_batches_cursor 7%N usecs_per_day sample_ledger
               _ sample_ledger).
      reflexivity.
    + lia.
    + reflexivity.
Defined.

(** ** The check before and the deduction after *)

Lemma getCreditCost_range operation :
  1 <= getCreditCost operation <= 3.
Proof.
  unfold getCreditCost.
  repeat match goal with |- context [if ?c then _ else _] => destruct c end;
    lia.
Qed.

(** On a ledger within bounds the query of [deduct_credits] does not
    raise, and the procedure is its loop over a cursor. *)
Lemma deduct_credits_bounded u n a i now st :
  schema st -> Forall within_bounds (credit_batches st) ->
  in_int4 n = true ->
  exists rows,
    cursor_of st u now rows
    /\ deduct_credits u n a i now st = deduct_loop u a i now rows n st.
Proof.
  intros Hs Hb Hty.
  destruct (select_where_active_ok u now (credit_batches st)) as [sel Hsel].
  { destruct Hs as [_ Hint _ _]. rewrite Forall_forall in *.
    intros row Hrow. specialize (Hb row Hrow). unfold within_bounds in Hb.
    destruct (Hint row Hrow) as [Hc Hu]. int4_lia. }
  exists (order_by_expires_at sel). split.
  - exists sel. split; [assumption|]. split.
    + apply order_by_expires_at_perm.
    + apply order_by_expires_at_sorted.
  - apply deduct_credits_loop; assumption.
Qed.

(** X2. On a ledger whose counters are within bounds and for a positive
    [INTEGER] amount, [hasEnoughCredits] answers what [deductCredits]
    resolves to when it runs at the same instant with no call in
    between, and reads only; the balance [deductCredits] leaves is the
    former balance less the amount when it resolves to [true], and 0
    when it resolves to [false].  In particular this holds for the cost
    [getCreditCost] gives to any operation. *)
Theorem X2_check_predicts_deduction :
  (forall st u n a i now,
     schema st -> Forall within_bounds (credit_batches st) ->
     0 < n -> in_int4 n = true ->
     hasEnoughCredits u n now st = (fst (deductCredits u n a i now st), st)
     /\ fst (getRemainingCredits u now (snd (deductCredits u n a i now st)))
        = if fst (deductCredits u n a i now st)
          then fst (getRemainingCredits u now st) - n
          else 0)
  /\ (forall st u operation a i now,
        schema st -> Forall within_bounds (credit_batches st) ->
        hasEnoughCredits u (getCreditCost operation) now st
        = (fst (deductCredits u (getCreditCost operation) a i now st), st)).
Proof.
  assert (Hgen : forall st u n a i now,
             schema st -> Forall within_bounds (credit_batches st) ->
             0 < n -> in_int4 n = true ->
             hasEnoughCredits u n now st
             = (fst (deductCredits u n a i now st), st)
             /\ fst (getRemainingCredits u now
                       (snd (deductCredits u n a i now st)))
                = if fst (deductCredits u n a i now st)
                  then fst (getRemainingCredits u now st) - n
                  else 0).
  { intros st u n a i now Hs Hb Hn Hty.
    destruct (deduct_credits_bounded u n a i now st Hs Hb Hty)
      as (rows & Hc & Hrun).
    destruct (deduct_loop_balance u a i now rows n st Hs Hc Hn Hty)
      as (st' & Hloop & Hbal).
    pose proof (cursor_ready _ _ _ _ Hs Hc) as (_ & _ & _ & Hall).
    pose proof (covered_iff rows n Hall Hn) as Hcov.
    destruct (cursor_total_balance _ _ _ _ Hc) as [_ Heq].
    specialize (Heq Hb).
    unfold deductCredits, hasEnoughCredits. rewrite Hrun, Hloop.
    rewrite !remaining_credits_total. simpl. rewrite Hbal, <- Heq.
    destruct (covered rows n) eqn:E; simpl.
    - assert (n <= total_available rows) by (apply Hcov; reflexivity).
      split; [|reflexivity]. f_equal.
      destruct (Z.geb_spec (total_available rows) n); [reflexivity | lia].
    - assert (~ n <= total_available rows)
        by (intros K; apply Hcov in K; discriminate).
      split; [|lia]. f_equal.
      destruct (Z.geb_spec (total_available rows) n); [lia | reflexivity]. }
  split; [exact Hgen|].
  intros st u operation a i now Hs Hb.
  pose proof (getCreditCost_range operation) as Hcost.
  apply Hgen; auto; [lia | int4_lia].
Qed.

Lemma X2_check_predicts_deduction_witness :
  (hasEnoughCredits 7%N 6 usecs_per_day sample_ledger
   = (fst (deductCredits 7%N 6 "essay" None usecs_per_day sample_ledger),
      sample_ledger)
   /\ fst (getRemainingCredits 7%N usecs_per_day
             (snd (deductCredits 7%N 6 "essay" None usecs_per_day
                     sample_ledger)))
      = if fst (deductCredits 7%N 6 "essay" None usecs_per_day sample_ledger)
        then fst (getRemainingCredits 7%N usecs_per_day sample_ledger) - 6
        else 0)
  /\ hasEnoughCredits 7%N (getCreditCost "image_ocr") usecs_per_day one_batch
     = (fst (deductCredits 7%N (getCreditCost "image_ocr") "essay" None
               usecs_per_day one_batch),
        one_batch).
Proof.
  destruct X2_check_predicts_deduction as (H1 & H2).
  split.
  - apply H1.
    + exact sample_ledger_schema.
    + repeat constructor; simpl; lia.
    + lia.
    + reflexivity.
  - apply H2.
    + apply (steps_schema _ _ (run_calls_steps _ _)).
    + repeat constructor; simpl; lia.
Defined.

(** X3. When every unexpired batch of the owner is used up, and so when
    the owner has no batch or only expired ones, [deduct_credits]
    returns [FALSE] for any [INTEGER] amount and writes nothing, and
    [deductCredits] resolves to [false]. *)
Theorem X3_no_active_batch_no_deduction :
  forall st u n a i now,
    in_int4 n = true ->
    (forall b, In b (credit_batches st) -> user_id b = u ->
               now < expires_at b -> credits b = used_credits b) ->
    deduct_credits u n a i now st = Ok (false, st)
    /\ deductCredits u n a i now st = (false, st).
Proof.
  intros st u n a i now Hty Hnone.
  assert (Hsel : select_where (active_batch_qual u now) (credit_batches st)
                 = Ok []).
  { induction (credit_batches st) as [|x rest IH]; [reflexivity|].
    cbn [select_where]. rewrite IH by (intros; apply Hnone; simpl; auto).
    unfold active_batch_qual.
    destruct (N.eqb_spec (user_id x) u) as [Eu|Eu]; [|reflexivity].
    destruct (Z.gtb_spec (expires_at x) now) as [G|G]; [|reflexivity].
    simpl. rewrite (Hnone x (or_introl eq_refl) Eu G).
    unfold int4mi. rewrite Z.sub_diag. reflexivity. }
  assert (H : deduct_credits u n a i now st = Ok (false, st)).
  { rewrite (deduct_credits_loop u n a i now st [] Hty Hsel). reflexivity. }
  split; [assumption|]. unfold deductCredits. rewrite H. reflexivity.
Qed.

Lemma X3_no_active_batch_no_deduction_witness :
  deduct_credits 7%N 3 "essay" None (40 * usecs_per_day) sample_ledger
  = Ok (false, sample_ledger)
  /\ deductCredits 7%N 3 "essay" None (40 * usecs_per_day) sample_ledger
     = (false, sample_ledger).
Proof.
  apply X3_no_active_batch_no_deduction.
  - reflexivity.
  - intros b Hb _ Hlt. simpl in Hb.
    destruct Hb as [<-|[<-|[]]]; vm_compute in Hlt; discriminate.
Defined.

(** ** One owner's deduction and the others *)

Lemma filter_bump_stable (keep : CreditBatch -> bool) b f t rows :
  (forall r, In r rows -> id r = b ->
             keep r = false /\ keep (with_used_credits r (f r) t) = false) ->
  filter keep (bump b f t rows) = filter keep rows.
Proof.
  induction rows as [|x rest IH]; intros H; [reflexivity|].
  rewrite bump_cons. cbn [filter].
  rewrite IH by (intros; apply H; simpl; auto).
  destruct (N.eqb_spec (id x) b) as [E|E]; [|reflexivity].
  destruct (H x (or_introl eq_refl) E) as [-> ->]. reflexivity.
Qed.

Lemma unexpired_of_others u other t rows :
  other <> u ->
  unexpired_of other t rows = unexpired_of other t (batches_of_others u rows).
Proof.
  intros Hne. unfold unexpired_of, batches_of_others.
  induction rows as [|x rest IH]; [reflexivity|]. cbn [filter].
  destruct (N.eqb_spec (user_id x) u) as [E|E]; simpl.
  - destruct (N.eqb_spec (user_id x) other); [congruence|]. simpl. exact IH.
  - destruct (N.eqb (user_id x) other && (expires_at x >? t)); rewrite IH;
      reflexivity.
Qed.

Section Others.

Variables (u : uuid) (a : string) (i : option uuid) (now : timestamptz).

Lemma deduct_loop_others rows : forall n st r st',
  loop_ready st rows -> (forall b, In b rows -> user_id b = u) ->
  deduct_loop u a i now rows n st = Ok (r, st') ->
  batches_of_others u (credit_batches st')
  = batches_of_others u (credit_batches st).
Proof.
  induction rows as [|batch rest IH]; intros n st r st' Hready Hu H.
  - inversion H; subst. reflexivity.
  - assert (Hkeep : forall (x : Z) r0,
              In r0 (credit_batches st) -> id r0 = id batch ->
              negb (N.eqb (user_id r0) u) = false
              /\ negb (N.eqb (user_id (with_used_credits r0 x now)) u)
                 = false).
    { intros x r0 Hr0 E. rewrite (loop_ready_unique _ _ _ _ Hready Hr0 E).
      simpl. rewrite (Hu batch (or_introl eq_refl)), N.eqb_refl. auto. }
    apply deduct_loop_cons_inv in H.
    destruct H as [Hav [(Hle & -> & -> & Hin)|(Hlt & Hr & H)]].
    + simpl. unfold batches_of_others. apply filter_bump_stable.
      intros r0 Hr0 E. apply (Hkeep _ r0 Hr0 E).
    + apply IH in H.
      * rewrite H. simpl. unfold batches_of_others.
        apply filter_bump_stable. intros r0 Hr0 E. apply (Hkeep _ r0 Hr0 E).
      * apply loop_ready_charged; auto.
        apply (loop_ready_typed _ _ batch Hready). simpl. auto.
      * intros b Hb. apply Hu. simpl. auto.
Qed.

(** The usage rows a run of the loop appends, whatever the amount. *)
Lemma deduct_loop_usage_rows rows : forall n st r st',
  deduct_loop u a i now rows n st = Ok (r, st') ->
  exists us,
    credit_usage st' = credit_usage st ++ us
    /\ Forall (fun x => usage_user_id x = u /\ assignment_name x = a
                        /\ assignment_id x = i /\ usage_created_at x = now
                        /\ In (batch_id x) (map id rows)) us.
Proof.
  induction rows as [|batch rest IH]; intros n st r st' H.
  - inversion H; subst. exists []. rewrite app_nil_r. auto.
  - apply deduct_loop_cons_inv in H.
    destruct H as [Hav [(Hle & -> & -> & Hin)|(Hlt & Hr & H)]].
    + eexists. split; [reflexivity|]. constructor; [|constructor].
      simpl. auto 10.
    + apply IH in H. destruct H as (us & Hus & Hall).
      eexists. split.
      * rewrite Hus. simpl. rewrite <- app_assoc. reflexivity.
      * constructor; [simpl; auto 10|].
        eapply Forall_impl; [|exact Hall]. simpl. intuition.
Qed.

(** With a positive amount every usage row appended is of a positive
    amount. *)
Lemma deduct_loop_usage_positive rows : forall n st r st',
  loop_ready st rows -> 0 < n ->
  deduct_loop u a i now rows n st = Ok (r, st') ->
  exists us,
    credit_usage st' = credit_usage st ++ us
    /\ Forall (fun x => 0 < credits_used x) us.
Proof.
  induction rows as [|batch rest IH]; intros n st r st' Hready Hn H.
  - inversion H; subst. exists []. rewrite app_nil_r. auto.
  - pose proof Hready as (_ & _ & _ & Hall).
    inversion Hall as [|? ? [_ Hpos] _]; subst. unfold available in Hpos.
    apply deduct_loop_cons_inv in H.
    destruct H as [Hav [(Hle & -> & -> & Hin)|(Hlt & Hr & H)]].
    + eexists. split; [reflexivity|]. constructor; [simpl; lia|constructor].
    + apply IH in H.
      * destruct H as (us & Hus & Hall').
        eexists. split.
        -- rewrite Hus. simpl. rewrite <- app_assoc. reflexivity.
        -- constructor; [simpl; lia | assumption].
      * apply loop_ready_charged; auto.
        apply (loop_ready_typed _ _ batch Hready). simpl. auto.
      * lia.
Qed.

End Others.

(** X4. A deduction for one owner, whatever the amount, leaves the
    batches of every other owner exactly as they were, and so their
    balances at any time; the usage rows it appends carry that owner,
    the assignment name and identifier passed in and the time of the
    call, and each refers to a batch of that owner. *)
Theorem X4_deduction_touches_one_owner :
  forall st u n a i now rows r st',
    schema st -> cursor_of st u now rows ->
    deduct_loop u a i now rows n st = Ok (r, st') ->
    batches_of_others u (credit_batches st')
    = batches_of_others u (credit_batches st)
    /\ (forall other t, other <> u ->
          fst (getRemainingCredits other t st')
          = fst (getRemainingCredits other t st))
    /\ exists us,
         credit_usage st' = credit_usage st ++ us
         /\ Forall (fun x =>
                      usage_user_id x = u /\ assignment_name x = a
                      /\ assignment_id x = i /\ usage_created_at x = now
                      /\ exists b, In b (credit_batches st)
                                   /\ id b = batch_id x /\ user_id b = u) us.
Proof.
  intros st u n a i now rows r st' Hs Hc H.
  pose proof (cursor_ready _ _ _ _ Hs Hc) as Hready.
  assert (Hu : forall b, In b rows -> user_id b = u).
  { intros b Hb. apply (cursor_of_in _ _ _ _ b Hc) in Hb. tauto. }
  pose proof (deduct_loop_others u a i now rows n st r st' Hready Hu H) as Ho.
  split; [assumption|]. split.
  - intros other t Hne. rewrite !remaining_credits_total. simpl.
    rewrite (unexpired_of_others u other t (credit_batches st') Hne), Ho.
    rewrite <- (unexpired_of_others u other t (credit_batches st) Hne).
    reflexivity.
  - destruct (deduct_loop_usage_rows u a i now rows n st r st' H)
      as (us & Hus & Hall).
    exists us. split; [assumption|].
    eapply Forall_impl; [|exact Hall]. simpl.
    intros x (H1 & H2 & H3 & H4 & H5). repeat split; auto.
    apply in_map_iff in H5. destruct H5 as (b & E & Hb).
    exists b. split; [|auto]. destruct Hready as (_ & _ & Hincl & _). auto.
Qed.

Lemma X4_deduction_touches_one_owner_witness :
  let st := sample_ledger in
  let st' := run_calls sample_calls empty_ledger in
  batches_of_others 7%N (credit_batches st')
  = batches_of_others 7%N (credit_batches st)
  /\ (forall other t, other <> 7%N ->
        fst (getRemainingCredits other t st')
        = fst (getRemainingCredits other t st))
  /\ exists us,
       credit_usage st' = credit_usage st ++ us
       /\ Forall (fun x =>
                    usage_user_id x = 7%N /\ assignment_name x = "essay"%string
                    /\ assignment_id x = None
                    /\ usage_created_at x = usecs_per_day
                    /\ exists b, In b (credit_batches st)
                                 /\ id b = batch_id x /\ user_id b = 7%N) us.
Proof.
  intros st st'.
  apply (X4_deduction_touches_one_owner st 7%N 6 "essay"%string None
           usecs_per_day (order_by_expires_at (credit_batches st)) true st').
  - exact sample_ledger_schema.
  - apply (select_active_batches_cursor 7%N usecs_per_day st _ st).
    reflexivity.
  - reflexivity.
Defined.

(** ** The usage table along a history *)

Lemma step_usage st c st' :
  step st c st' -> schema st ->
  exists us,
    credit_usage st' = credit_usage st ++ us
    /\ Forall (fun x => exists b, In b (credit_batches st)
                                  /\ id b = batch_id x
                                  /\ user_id b = usage_user_id x) us
    /\ (positive_deduction c -> Forall (fun x => 0 < credits_used x) us).
Proof.
  intros Hstep Hs.
  assert (Hnone : exists us,
             credit_usage st = credit_usage st ++ us
             /\ Forall (fun x => exists b, In b (credit_batches st)
                                           /\ id b = batch_id x
                                           /\ user_id b = usage_user_id x) us
             /\ (positive_deduction c ->
                 Forall (fun x => 0 < credits_used x) us)).
  { exists []. rewrite app_nil_r. auto. }
  assert (Hadd : forall u n t d now,
             credit_usage (state_after (add_credits u n t d now st) st)
             = credit_usage st).
  { intros u n t d now.
    destruct (add_credits u n t d now st) as [[nid s]|] eqn:H; [|reflexivity].
    apply add_credits_inv in H. destruct H as (_ & _ & _ & _ & ->).
    reflexivity. }
  destruct Hstep as
    [st u n t d now | st u p now | st u n a i now rows Hn Hcur | |];
    try exact Hnone.
  - rewrite Hadd. exact Hnone.
  - assert (E : credit_usage (state_after (add_plan_credits u p now st) st)
                = credit_usage st).
    { unfold add_plan_credits. destruct (plan_credits p) as [[n t]|];
        [|reflexivity].
      specialize (Hadd u n t default_expiry_days now). unfold bind, ret.
      destruct (add_credits u n t default_expiry_days now st) as [[x s]|];
        exact Hadd. }
    rewrite E. exact Hnone.
  - destruct (deduct_loop u a i now rows n st) as [[r s]|] eqn:H;
      [|exact Hnone].
    simpl. pose proof (cursor_ready _ _ _ _ Hs Hcur) as Hready.
    destruct (deduct_loop_usage_rows u a i now rows n st r s H)
      as (us & Hus & Hall).
    exists us. split; [assumption|]. split.
    + eapply Forall_impl; [|exact Hall]. simpl.
      intros x (H1 & _ & _ & _ & H5).
      apply in_map_iff in H5. destruct H5 as (b & E & Hb).
      exists b. split; [apply Hready; assumption|]. split; [assumption|].
      apply (cursor_of_in _ _ _ _ b Hcur) in Hb. rewrite H1. tauto.
    + simpl. intros Hpos.
      destruct (deduct_loop_usage_positive u a i now rows n st r s
                  Hready Hpos H) as (us' & Hus' & Hall').
      rewrite Hus in Hus'. apply app_inv_head in Hus'. subst us'.
      assumption.
Qed.

Lemma steps_usage_owner st cs st' :
  steps st cs st' -> schema st ->
  (forall x, In x (credit_usage st) ->
     exists b, In b (credit_batches st) /\ id b = batch_id x
               /\ user_id b = usage_user_id x) ->
  forall x, In x (credit_usage st') ->
    exists b, In b (credit_batches st') /\ id b = batch_id x
              /\ user_id b = usage_user_id x.
Proof.
  induction 1 as [|st c st1 cs st2 Hstep _ IH]; intros Hs Hinv; auto.
  apply IH; [eapply step_schema; eauto|].
  destruct (step_usage _ _ _ Hstep Hs) as (us & Hus & Hall & _).
  destruct (step_fixed _ _ _ Hstep) as (rows' & new & E & Hfix & _).
  assert (Hmove : forall x,
             (exists b, In b (credit_batches st) /\ id b = batch_id x
                        /\ user_id b = usage_user_id x) ->
             exists b, In b (credit_batches st1) /\ id b = batch_id x
                       /\ user_id b = usage_user_id x).
  { intros x (b & Hb & E1 & E2).
    destruct (Forall2_in_l _ _ _ b Hfix Hb) as (b' & Hb' & (F1 & F2 & _)).
    exists b'. rewrite E. split; [apply in_or_app; auto|]. split; congruence. }
  intros x Hx. rewrite Hus in Hx. apply in_app_or in Hx.
  apply Hmove. destruct Hx as [Hx|Hx]; [auto|].
  rewrite Forall_forall in Hall. auto.
Qed.

Lemma steps_usage_positive st cs st' :
  steps st cs st' -> schema st -> Forall positive_deduction cs ->
  Forall (fun x => 0 < credits_used x) (credit_usage st) ->
  Forall (fun x => 0 < credits_used x) (credit_usage st').
Proof.
  induction 1 as [|st c st1 cs st2 Hstep _ IH]; intros Hs Hcs Hinv; auto.
  inversion Hcs as [|? ? Hc Hcs']; subst.
  apply IH; [eapply step_schema; eauto | assumption |].
  destruct (step_usage _ _ _ Hstep Hs) as (us & Hus & _ & Hpos).
  rewrite Hus. apply Forall_app. auto.
Qed.

(** X5. The usage table only grows at its end: a call keeps every usage
    row where and as it was.  After any history of calls from the empty
    ledger each usage row refers to a stored batch of the user the row
    names; when every deduction of the history was of a positive amount,
    each usage row is of a positive amount. *)
Theorem X5_usage_rows_along_a_history :
  (forall st c st',
     step st c st' -> exists us, credit_usage st' = credit_usage st ++ us)
  /\ (forall cs st,
        steps empty_ledger cs st ->
        forall x, In x (credit_usage st) ->
          exists b, In b (credit_batches st) /\ id b = batch_id x
                    /\ user_id b = usage_user_id x)
  /\ (forall cs st,
        Forall positive_deduction cs -> steps empty_ledger cs st ->
        forall x, In x (credit_usage st) -> 0 < credits_used x).
Proof.
  split; [|split].
  - intros st c st' Hstep.
    assert (Hnone : exists us, credit_usage st = credit_usage st ++ us)
      by (exists []; rewrite app_nil_r; reflexivity).
    assert (Hadd : forall u n t d now,
               credit_usage (state_after (add_credits u n t d now st) st)
               = credit_usage st).
    { intros u n t d now.
      destruct (add_credits u n t d now st) as [[nid s]|] eqn:H;
        [|reflexivity].
      apply add_credits_inv in H. destruct H as (_ & _ & _ & _ & ->).
      reflexivity. }
    destruct Hstep as
      [st u n t d now | st u p now | st u n a i now rows Hn Hcur | |];
      try exact Hnone.
    + rewrite Hadd. exact Hnone.
    + unfold add_plan_credits. destruct (plan_credits p) as [[n t]|];
        [|exact Hnone].
      specialize (Hadd u n t default_expiry_days now). unfold bind, ret.
      destruct (add_credits u n t default_expiry_days now st) as [[x s]|];
        simpl in *; [rewrite Hadd|]; exact Hnone.
    + destruct (deduct_loop u a i now rows n st) as [[r s]|] eqn:H;
        [|exact Hnone].
      destruct (deduct_loop_usage_rows u a i now rows n st r s H)
        as (us & Hus & _).
      exists us. assumption.
  - intros cs st Hsteps.
    apply (steps_usage_owner _ _ _ Hsteps schema_empty). intros x [].
  - intros cs st Hcs Hsteps x Hx.
    assert (H : Forall (fun x => 0 < credits_used x) (credit_usage st))
      by (apply (steps_usage_positive _ _ _ Hsteps schema_empty Hcs);
          constructor).
    rewrite Forall_forall in H. auto.
Qed.

Lemma X5_usage_rows_along_a_history_witness :
  let st := run_calls sample_calls empty_ledger in
  (exists us, credit_usage st = credit_usage sample_ledger ++ us)
  /\ (forall x, In x (credit_usage st) ->
        exists b, In b (credit_batches st) /\ id b = batch_id x
                  /\ user_id b = usage_user_id x)
  /\ (forall x, In x (credit_usage st) -> 0 < credits_used x).
Proof.
  intros st.
  destruct X5_usage_rows_along_a_history as (H1 & H2 & H3).
  split; [|split].
  - apply (H1 sample_ledger
             (call_deduct_credits 7%N 6 "essay" None usecs_per_day)).
    apply (run_call_step sample_ledger).
  - apply (H2 sample_calls). apply run_calls_steps.
  - apply (H3 sample_calls).
    + repeat constructor; simpl; lia.
    + apply run_calls_steps.
Defined.

(** ** The time of the last update *)

Lemma touched_at_trans now x y z :
  touched_at now x y -> touched_at now y z -> touched_at now x z.
Proof.
  unfold touched_at, fixed_columns.
  intros [->|[F1 U1]] [->|[F2 U2]]; auto. right. split; [|assumption].
  destruct F1 as (?&?&?&?&?&?), F2 as (?&?&?&?&?&?). repeat split; congruence.
Qed.

Lemma deduct_loop_touched u a i now rows : forall n st r st',
  deduct_loop u a i now rows n st = Ok (r, st') ->
  Forall2 (touched_at now) (credit_batches st) (credit_batches st').
Proof.
  induction rows as [|batch rest IH]; intros n st r st' H.
  - inversion H; subst. apply Forall2_refl_on. left. reflexivity.
  - assert (Hb : forall f,
              Forall2 (touched_at now) (credit_batches st)
                (bump (id batch) f now (credit_batches st))).
    { intros f. apply bump_Forall2.
      - left. reflexivity.
      - right. split; [repeat split | reflexivity]. }
    apply deduct_loop_cons_inv in H.
    destruct H as [Hav [(Hle & -> & -> & Hin)|(Hlt & Hr & H)]].
    + apply Hb.
    + eapply Forall2_trans_on; [apply touched_at_trans | apply Hb |].
      apply (IH _ _ _ _ H).
Qed.

(** X6. A run of [deduct_credits] at [now] leaves each batch either
    exactly as it was or with [updated_at = now] and every column but
    [used_credits] and [updated_at] as before: a batch whose counter
    moved carries the time of the call, and a batch that does not carry
    it was not written. *)
Theorem X6_updated_at_follows_the_counter :
  forall st u n a i now rows r st',
    deduct_loop u a i now rows n st = Ok (r, st') ->
    Forall2 (touched_at now) (credit_batches st) (credit_batches st')
    /\ Forall2
         (fun b b' =>
            (used_credits b' <> used_credits b -> updated_at b' = now)
            /\ (updated_at b' <> now -> b' = b))
         (credit_batches st) (credit_batches st').
Proof.
  intros st u n a i now rows r st' H.
  pose proof (deduct_loop_touched u a i now rows n st r st' H) as Ht.
  split; [assumption|].
  eapply Forall2_impl; [|exact Ht]. unfold touched_at.
  intros b b' [->|[_ Hu]]; split; intros K; try congruence; contradiction.
Qed.

Lemma X6_updated_at_follows_the_counter_witness :
  Forall2 (touched_at usecs_per_day) (credit_batches two_batches)
    (credit_batches
       (state_after (deduct_credits 7%N 2 "essay" None usecs_per_day two_batches)
          two_batches))
  /\ Forall2
       (fun b b' =>
          (used_credits b' <> used_credits b -> updated_at b' = usecs_per_day)
          /\ (updated_at b' <> usecs_per_day -> b' = b))
       (credit_batches two_batches)
       (credit_batches
          (state_after (deduct_credits 7%N 2 "essay" None usecs_per_day two_batches)
             two_batches)).
Proof.
  apply (X6_updated_at_follows_the_counter two_batches 7%N 2 "essay"%string
           None usecs_per_day (order_by_expires_at (credit_batches two_batches)) true).
  reflexivity.
Defined.

(** ** The first credits of a user *)

Lemma filter_user_app u rows b :
  filter (fun row => N.eqb (user_id row) u) (rows ++ [b])
  = filter (fun row => N.eqb (user_id row) u) rows
    ++ (if N.eqb (user_id b) u then [b] else []).
Proof. rewrite filter_app. reflexivity. Qed.

Lemma initializeUserCredits_skip u n t now st :
  (exists b, In b (credit_batches st) /\ user_id b = u) ->
  initializeUserCredits u n t now st = st.
Proof.
  intros (b & Hb & E). unfold initializeUserCredits.
  destruct (filter (fun row => N.eqb (user_id row) u) (credit_batches st))
    as [|x rest] eqn:Hf; [|reflexivity].
  exfalso.
  assert (Hin : In b (filter (fun row => N.eqb (user_id row) u)
                        (credit_batches st))).
  { apply filter_In. split; [assumption|]. apply N.eqb_eq. assumption. }
  rewrite Hf in Hin. contradiction.
Qed.

(** X7. [initializeUserCredits] changes nothing for a user who has a
    batch, be it expired or used up.  For a user without one, an
    [INTEGER] amount and one of the five subscription types it appends
    exactly one batch of that amount, which expires 30 days later when
    the type is [free] and after the days of its type otherwise.  Run a
    second time, at any time, it changes nothing more. *)
Theorem X7_first_credits_are_given_once :
  (forall st u n t now,
     (exists b, In b (credit_batches st) /\ user_id b = u) ->
     initializeUserCredits u n t now st = st)
  /\ (forall st u n t now,
        (forall b, In b (credit_batches st) -> user_id b <> u) ->
        in_int4 n = true -> In t subscription_types ->
        initializeUserCredits u n t now st
        = mkLedger
            (credit_batches st ++
               [mkBatch (uuid_supply st) u n 0 t (expiry_date_of t 30 now)
                  now now])
            (credit_usage st) (N.succ (uuid_supply st))
        /\ (t = "free"%string ->
            expiry_date_of t 30 now = now + 30 * usecs_per_day))
  /\ (forall st u n t now later,
        initializeUserCredits u n t later (initializeUserCredits u n t now st)
        = initializeUserCredits u n t now st).
Proof.
  split; [intros st u n t now; apply initializeUserCredits_skip|]. split.
  - intros st u n t now Hnone Hn Ht. split; [|intros ->; reflexivity].
    unfold initializeUserCredits.
    assert (Hf : filter (fun row => N.eqb (user_id row) u) (credit_batches st)
                 = []).
    { induction (credit_batches st) as [|x rest IH]; [reflexivity|].
      simpl. destruct (N.eqb_spec (user_id x) u) as [E|E].
      - exfalso. apply (Hnone x); simpl; auto.
      - apply IH. intros b Hb. apply Hnone. simpl. auto. }
    rewrite Hf. simpl. unfold addCredits.
    rewrite add_credits_ok;
      [reflexivity | assumption | reflexivity | |
       apply expiry_in_range_small; simpl; lia].
    apply subscription_types_check. assumption.
  - intros st u n t now later.
    destruct (filter (fun row => N.eqb (user_id row) u) (credit_batches st))
      as [|x rest] eqn:Hf.
    + assert (E : initializeUserCredits u n t now st
                  = snd (addCredits u n t (Some 30) now st))
        by (unfold initializeUserCredits; rewrite Hf; reflexivity).
      rewrite E. unfold addCredits.
      destruct (add_credits u n t 30 now st) as [[nid s]|e] eqn:H; simpl.
      * apply add_credits_inv in H. destruct H as (_ & _ & _ & _ & ->).
        apply initializeUserCredits_skip. eexists. split.
        -- simpl. apply in_or_app. right. left. reflexivity.
        -- reflexivity.
      * unfold initializeUserCredits. rewrite Hf. simpl. unfold addCredits.
        assert (Hr : exists e', add_credits u n t 30 later st = Raise e').
        { destruct (add_credits u n t 30 later st) as [[nid s]|e'] eqn:H2;
            [|eauto].
          apply add_credits_inv in H2. destruct H2 as (Hn & Hd & Hc & _).
          rewrite (add_credits_ok u n t 30 now st Hn Hd Hc) in H
            by (apply expiry_in_range_small; simpl; lia).
          discriminate. }
        destruct Hr as [e' ->]. reflexivity.
    + assert (Hskip : initializeUserCredits u n t now st = st).
      { apply initializeUserCredits_skip. exists x.
        assert (Hx : In x (filter (fun row => N.eqb (user_id row) u)
                             (credit_batches st)))
          by (rewrite Hf; simpl; auto).
        apply filter_In in Hx. destruct Hx as [Hx E].
        apply N.eqb_eq in E. auto. }
      rewrite Hskip. apply initializeUserCredits_skip. exists x.
      assert (Hx : In x (filter (fun row => N.eqb (user_id row) u)
                           (credit_batches st)))
        by (rewrite Hf; simpl; auto).
      apply filter_In in Hx. destruct Hx as [Hx E].
      apply N.eqb_eq in E. auto.
Qed.

Lemma X7_first_credits_are_given_once_witness :
  initializeUserCredits 7%N 1 "free" (40 * usecs_per_day) sample_ledger
  = sample_ledger
  /\ (initializeUserCredits 8%N 1 "free" 0 sample_ledger
      = mkLedger
          (credit_batches sample_ledger ++
             [mkBatch (uuid_supply sample_ledger) 8%N 1 0 "free"
                (expiry_date_of "free" 30 0) 0 0])
          (credit_usage sample_ledger) (N.succ (uuid_supply sample_ledger))
      /\ ("free"%string = "free"%string ->
          expiry_date_of "free" 30 0 = 0 + 30 * usecs_per_day)).
Proof.
  destruct X7_first_credits_are_given_once as (H1 & H2 & _).
  split.
  - apply H1. eexists. split; [left; reflexivity | reflexivity].
  - apply H2.
    + intros b Hb. simpl in Hb. destruct Hb as [<-|[<-|[]]]; discriminate.
    + reflexivity.
    + simpl. auto.
Defined.

(** ** The balance as time passes *)

(** X8. When no batch of the owner is overdrawn the balance is never
    negative and never grows as time passes with no call made, and it
    is 0 once every batch of the owner has expired. *)
Theorem X8_balance_decays_with_time :
  forall st u now later,
    now <= later ->
    (forall b, In b (credit_batches st) -> user_id b = u ->
               0 <= credits b - used_credits b) ->
    0 <= fst (getRemainingCredits u later st)
      <= fst (getRemainingCredits u now st)
    /\ ((forall b, In b (credit_batches st) -> user_id b = u ->
                   expires_at b <= later) ->
        fst (getRemainingCredits u later st) = 0).
Proof.
  intros st u now later Hle Hb. rewrite !remaining_credits_total. simpl.
  unfold unexpired_of.
  induction (credit_batches st) as [|x rest IH]; simpl; [split; [lia|auto]|].
  destruct IH as [IH1 IH2]; [intros; apply Hb; simpl; auto|].
  pose proof (Hb x (or_introl eq_refl)) as Hx.
  destruct (N.eqb_spec (user_id x) u) as [E|E]; simpl.
  - specialize (Hx E).
    destruct (Z.gtb_spec (expires_at x) later),
             (Z.gtb_spec (expires_at x) now); simpl; try lia.
    + split; [lia|]. intros Hexp.
      specialize (Hexp x (or_introl eq_refl) E). lia.
    + split; [lia|]. intros Hexp. apply IH2. intros. apply Hexp; simpl; auto.
    + split; [lia|]. intros Hexp. apply IH2. intros. apply Hexp; simpl; auto.
  - split; [lia|]. intros Hexp. apply IH2. intros. apply Hexp; simpl; auto.
Qed.

Lemma X8_balance_decays_with_time_witness :
  0 <= fst (getRemainingCredits 7%N (40 * usecs_per_day) sample_ledger)
    <= fst (getRemainingCredits 7%N usecs_per_day sample_ledger)
  /\ ((forall b, In b (credit_batches sample_ledger) -> user_id b = 7%N ->
                 expires_at b <= 40 * usecs_per_day) ->
      fst (getRemainingCredits 7%N (40 * usecs_per_day) sample_ledger) = 0).
Proof.
  apply X8_balance_decays_with_time.
  - vm_compute. discriminate.
  - intros b Hb _. simpl in Hb. destruct Hb as [<-|[<-|[]]]; simpl; lia.
Defined.

(** ** When add_credits returns *)

Lemma subscription_types_check_iff t :
  credit_batches_subscription_type_check t = true <-> In t subscription_types.
Proof.
  split; [|apply subscription_types_check].
  unfold credit_batches_subscription_type_check. intros H.
  apply existsb_exists in H. destruct H as (x & Hx & E).
  apply String.eqb_eq in E. subst. assumption.
Qed.

(** X9. Whenever [add_credits] returns, the credits and the expiry
    days were [INTEGER]s, the subscription type was one of the five of
    the check constraint and the expiry date a timestamp; with such
    arguments it does return.  Its errors come in the order of the
    code: a number that is no [INTEGER] is refused at the call; then
    days that lead out of the range of timestamps raise in the [ELSE]
    branch of the [CASE], for [free] and for an unknown subscription
    type alike; only then is a subscription type outside the five
    refused by the constraint.  Each time the ledger is as before and
    [addCredits] resolves to [null]. *)
Theorem X9_add_credits_errors_in_order :
  (forall st u n t d now nid st',
     add_credits u n t d now st = Ok (nid, st') ->
     in_int4 n = true /\ in_int4 d = true /\ In t subscription_types
     /\ (fixed_duration t = false -> days_in_range now d = true))
  /\ (forall st u n t d now,
        in_int4 n = true -> in_int4 d = true -> In t subscription_types ->
        (t = "free"%string -> days_in_range now d = true) ->
        exists nid st', add_credits u n t d now st = Ok (nid, st'))
  /\ (forall st u n t d now,
        in_int4 n = false \/ in_int4 d = false ->
        add_credits u n t d now st = Raise integer_out_of_range
        /\ addCredits u n t (Some d) now st = (None, st))
  /\ (forall st u n t d now,
        in_int4 n = true -> in_int4 d = true ->
        fixed_duration t = false -> days_in_range now d = false ->
        add_credits u n t d now st = Raise datetime_field_overflow
        /\ addCredits u n t (Some d) now st = (None, st))
  /\ (forall st u n t d now,
        in_int4 n = true -> in_int4 d = true ->
        ~ In t subscription_types -> days_in_range now d = true ->
        add_credits u n t d now st
        = Raise (check_violation "credit_batches_subscription_type_check")
        /\ addCredits u n t (Some d) now st = (None, st)).
Proof.
  split; [|split; [|split; [|split]]].
  - intros st u n t d now nid st' H.
    pose proof (add_credits_inv_expiry _ _ _ _ _ _ _ _ H) as He.
    apply add_credits_inv in H. destruct H as (Hn & Hd & Hc & _).
    rewrite <- subscription_types_check_iff.
    repeat split; try assumption.
    intros Hf. unfold expiry_in_range in He. rewrite Hf in He. exact He.
  - intros st u n t d now Hn Hd Ht Hfree. eexists _, _.
    apply add_credits_ok;
      auto using subscription_types_check, expiry_in_range_checked.
  - intros st u n t d now Hbad.
    assert (E : add_credits u n t d now st = Raise integer_out_of_range).
    { unfold add_credits, bind, lift, int4.
      destruct (in_int4 n); [|reflexivity].
      destruct Hbad as [Hbad|Hbad]; [discriminate|]. rewrite Hbad.
      reflexivity. }
    split; [assumption|]. unfold addCredits. rewrite E. reflexivity.
  - intros st u n t d now Hn Hd Hf He.
    assert (Hr : expiry_in_range t d now = false)
      by (unfold expiry_in_range; rewrite Hf, He; reflexivity).
    destruct (add_credits_overflow u n t d now st Hn Hd Hr) as [E _].
    split; [assumption|]. unfold addCredits. rewrite E. reflexivity.
  - intros st u n t d now Hn Hd Ht He.
    assert (Hc : credit_batches_subscription_type_check t = false).
    { destruct (credit_batches_subscription_type_check t) eqn:E;
        [|reflexivity].
      exfalso. apply Ht. apply subscription_types_check_iff. assumption. }
    destruct (add_credits_check_violation u n t d now st Hn Hd He Hc)
      as [E _].
    split; [assumption|]. unfold addCredits. rewrite E. reflexivity.
Qed.

Lemma X9_add_credits_errors_in_order_witness :
  (in_int4 50 = true /\ in_int4 30 = true
   /\ In "student"%string subscription_types
   /\ (fixed_duration "student" = false -> days_in_range 0 30 = true))
  /\ (exists nid st',
        add_credits 7%N 10 "free" 14 0 sample_ledger = Ok (nid, st'))
  /\ (add_credits 7%N 2147483648 "free" 30 0 sample_ledger
      = Raise integer_out_of_range
      /\ addCredits 7%N 2147483648 "free" (Some 30) 0 sample_ledger
         = (None, sample_ledger))
  /\ (add_credits 7%N 10 "premium" 2147483647 0 sample_ledger
      = Raise datetime_field_overflow
      /\ addCredits 7%N 10 "premium" (Some 2147483647) 0 sample_ledger
         = (None, sample_ledger))
  /\ (add_credits 7%N 10 "premium" 30 0 sample_ledger
      = Raise (check_violation "credit_batches_subscription_type_check")
      /\ addCredits 7%N 10 "premium" (Some 30) 0 sample_ledger
         = (None, sample_ledger)).
Proof.
  destruct X9_add_credits_errors_in_order as (H1 & H2 & H3 & H4 & H5).
  split; [|split; [|split; [|split]]].
  - apply (H1 empty_ledger 7%N 50 "student"%string 30 0 0%N
             (mkLedger
                [mkBatch 0%N 7%N 50 0 "student" (30 * usecs_per_day) 0 0]
                [] 1%N)).
    reflexivity.
  - apply H2; [reflexivity | reflexivity | simpl; auto |].
    intros _. reflexivity.
  - apply H3. left. reflexivity.
  - apply H4; reflexivity.
  - apply H5; [reflexivity | reflexivity | | reflexivity].
    simpl. intros [H|[H|[H|[H|[H|[]]]]]]; discriminate.
Defined.

(** ** What the yearly-plans migration changed *)

Lemma initial_add_credits_inv u n t d now st nid st' :
  initial_add_credits u n t d now st = Ok (nid, st') ->
  in_int4 n = true /\ in_int4 d = true /\ In t initial_subscription_types
  /\ nid = uuid_supply st
  /\ st' = mkLedger
             (credit_batches st ++
                [mkBatch (uuid_supply st) u n 0 t
                   (initial_expiry_date_of t d now) now now])
             (credit_usage st) (N.succ (uuid_supply st))
  /\ (t = "free"%string -> days_in_range now d = true).
Proof.
  unfold initial_add_credits, bind, lift, int4, gen_random_uuid,
    initial_expiry_date_of.
  destruct (in_int4 n); [|discriminate].
  destruct (in_int4 d); [|discriminate]. cbv beta iota.
  destruct (String.eqb t "student") eqn:E1.
  { apply String.eqb_eq in E1. subst t. unfold now_pl_days.
    replace (days_in_range now 90) with true by reflexivity.
    cbv beta iota. simpl existsb. cbv beta iota.
    intros H. inversion H. repeat split; simpl; auto. discriminate. }
  destruct (String.eqb t "pro") eqn:E2.
  { apply String.eqb_eq in E2. subst t. unfold now_pl_days.
    replace (days_in_range now 365) with true by reflexivity.
    cbv beta iota. simpl existsb. cbv beta iota.
    intros H. inversion H. repeat split; simpl; auto. discriminate. }
  unfold now_pl_days. destruct (days_in_range now d); [|discriminate].
  cbv beta iota.
  destruct (existsb (String.eqb t) initial_subscription_types) eqn:E;
    [|discriminate].
  intros H. inversion H. repeat split; auto.
  apply existsb_exists in E. destruct E as (x & Hx & E).
  apply String.eqb_eq in E. subst. assumption.
Qed.

(** X10. Every call the first [add_credits] accepted the current one
    accepts, appending a batch with the same owner, size, counter,
    subscription type and creation time; [expires_at] differs for
    [student] (30 days instead of 90) and [pro] (90 instead of 365)
    only.  The yearly subscription types, which the first procedure
    sent through the [ELSE] branch of its [CASE] and the first
    constraint then refused, are accepted now, whatever the days passed
    in. *)
Theorem X10_migration_changes_expiry_only :
  (forall st u n t d now nid st1,
     initial_add_credits u n t d now st = Ok (nid, st1) ->
     exists b1 b2 nid2 st2,
       add_credits u n t d now st = Ok (nid2, st2)
       /\ credit_batches st1 = credit_batches st ++ [b1]
       /\ credit_batches st2 = credit_batches st ++ [b2]
       /\ credit_usage st1 = credit_usage st
       /\ credit_usage st2 = credit_usage st
       /\ user_id b1 = u /\ user_id b2 = u
       /\ credits b1 = n /\ credits b2 = n
       /\ used_credits b1 = 0 /\ used_credits b2 = 0
       /\ subscription_type b1 = t /\ subscription_type b2 = t
       /\ created_at b1 = now /\ created_at b2 = now
       /\ (t = "student"%string ->
           expires_at b1 = now + 90 * usecs_per_day
           /\ expires_at b2 = now + 30 * usecs_per_day)
       /\ (t = "pro"%string ->
           expires_at b1 = now + 365 * usecs_per_day
           /\ expires_at b2 = now + 90 * usecs_per_day)
       /\ (t <> "student"%string -> t <> "pro"%string ->
           expires_at b1 = expires_at b2))
  /\ (forall st u n t d now,
        in_int4 n = true -> in_int4 d = true ->
        t = "student_yearly"%string \/ t = "pro_yearly"%string ->
        (days_in_range now d = true ->
         initial_add_credits u n t d now st
         = Raise (check_violation "credit_batches_subscription_type_check"))
        /\ (days_in_range now d = false ->
            initial_add_credits u n t d now st
            = Raise datetime_field_overflow)
        /\ exists b nid st',
             add_credits u n t d now st = Ok (nid, st')
             /\ credit_batches st' = credit_batches st ++ [b]
             /\ subscription_type b = t
             /\ expires_at b = now + 365 * usecs_per_day).
Proof.
  split.
  - intros st u n t d now nid st1 H.
    apply initial_add_credits_inv in H.
    destruct H as (Hn & Hd & Ht & -> & -> & Hfree).
    assert (Ht' : In t subscription_types) by (simpl in *; intuition).
    eexists (mkBatch _ _ _ _ _ _ _ _), (mkBatch _ _ _ _ _ _ _ _), _, _.
    split.
    { apply add_credits_ok;
        auto using subscription_types_check, expiry_in_range_checked. }
    simpl. repeat split; try (subst t; reflexivity).
    intros H1 H2. simpl in Ht.
    destruct Ht as [<-|[<-|[<-|[]]]]; [reflexivity | congruence | congruence].
  - intros st u n t d now Hn Hd Ht. split; [|split].
    + intros He. unfold initial_add_credits, bind, lift.
      rewrite !int4_in by assumption. unfold now_pl_days.
      destruct Ht as [-> | ->]; simpl; rewrite He; reflexivity.
    + intros He. unfold initial_add_credits, bind, lift.
      rewrite !int4_in by assumption. unfold now_pl_days.
      destruct Ht as [-> | ->]; simpl; rewrite He; reflexivity.
    + eexists (mkBatch _ _ _ _ _ _ _ _), _, _.
      split; [apply add_credits_ok; auto;
              destruct Ht as [-> | ->]; reflexivity|].
      simpl. split; [reflexivity|]. split; [reflexivity|].
      destruct Ht as [-> | ->]; reflexivity.
Qed.

Lemma X10_migration_changes_expiry_only_witness :
  (exists b1 b2 nid2 st2,
     add_credits 7%N 10 "student" 30 0 empty_ledger = Ok (nid2, st2)
     /\ credit_batches
          (mkLedger [mkBatch 0%N 7%N 10 0 "student" (90 * usecs_per_day) 0 0]
             [] 1%N)
        = credit_batches empty_ledger ++ [b1]
     /\ credit_batches st2 = credit_batches empty_ledger ++ [b2]
     /\ credit_usage
          (mkLedger [mkBatch 0%N 7%N 10 0 "student" (90 * usecs_per_day) 0 0]
             [] 1%N)
        = credit_usage empty_ledger
     /\ credit_usage st2 = credit_usage empty_ledger
     /\ user_id b1 = 7%N /\ user_id b2 = 7%N
     /\ credits b1 = 10 /\ credits b2 = 10
     /\ used_credits b1 = 0 /\ used_credits b2 = 0
     /\ subscription_type b1 = "student"%string
     /\ subscription_type b2 = "student"%string
     /\ created_at b1 = 0 /\ created_at b2 = 0
     /\ ("student"%string = "student"%string ->
         expires_at b1 = 0 + 90 * usecs_per_day
         /\ expires_at b2 = 0 + 30 * usecs_per_day)
     /\ ("student"%string = "pro"%string ->
         expires_at b1 = 0 + 365 * usecs_per_day
         /\ expires_at b2 = 0 + 90 * usecs_per_day)
     /\ ("student"%string <> "student"%string ->
         "student"%string <> "pro"%string ->
         expires_at b1 = expires_at b2))
  /\ ((days_in_range 0 30 = true ->
       initial_add_credits 7%N 605 "pro_yearly" 30 0 empty_ledger
       = Raise (check_violation "credit_batches_subscription_type_check"))
      /\ (days_in_range 0 30 = false ->
          initial_add_credits 7%N 605 "pro_yearly" 30 0 empty_ledger
          = Raise datetime_field_overflow)
      /\ exists b nid st',
           add_credits 7%N 605 "pro_yearly" 30 0 empty_ledger = Ok (nid, st')
           /\ credit_batches st' = credit_batches empty_ledger ++ [b]
           /\ subscription_type b = "pro_yearly"%string
           /\ expires_at b = 0 + 365 * usecs_per_day)
  /\ initial_add_credits 7%N 605 "pro_yearly" 2147483647 0 empty_ledger
     = Raise datetime_field_overflow.
Proof.
  destruct X10_migration_changes_expiry_only as (H1 & H2).
  split; [|split].
  - apply (H1 empty_ledger 7%N 10 "student"%string 30 0 0%N). reflexivity.
  - apply H2; [reflexivity | reflexivity | right; reflexivity].
  - apply (H2 empty_ledger 7%N 605 "pro_yearly"%string 2147483647 0);
      [reflexivity | reflexivity | right; reflexivity | reflexivity].
Defined.

(** ** One deduction after another *)

Lemma deduct_loop_within_bounds u a i now rows n st r st' :
  schema st -> cursor_of st u now rows -> 0 <= n ->
  Forall within_bounds (credit_batches st) ->
  deduct_loop u a i now rows n st = Ok (r, st') ->
  schema st' /\ Forall within_bounds (credit_batches st').
Proof.
  intros Hs Hc Hn Hb H.
  pose proof (cursor_ready _ _ _ _ Hs Hc) as Hready.
  split; [eapply deduct_loop_schema; eauto|].
  pose proof (deduct_loop_grown u a i now rows n st r st' Hready Hn H) as Hg.
  apply Forall_forall. intros y Hy.
  destruct (Forall2_in_r _ _ _ y Hg Hy) as (x & Hx & (_ & _ & Hxy)).
  apply Hxy. rewrite Forall_forall in Hb. auto.
Qed.

(** X11. On a ledger within bounds, two deductions of positive
    [INTEGER] amounts made one after the other at the same instant both
    return [TRUE] exactly when the balance covers the sum of the two
    amounts, and the balance is then lowered by that sum. *)
Theorem X11_two_deductions_in_a_row :
  forall st u n1 n2 a1 a2 i1 i2 now rows1,
    schema st -> Forall within_bounds (credit_batches st) ->
    cursor_of st u now rows1 ->
    0 < n1 -> in_int4 n1 = true -> 0 < n2 -> in_int4 n2 = true ->
    exists r1 st1,
      deduct_loop u a1 i1 now rows1 n1 st = Ok (r1, st1)
      /\ forall rows2,
           cursor_of st1 u now rows2 ->
           exists r2 st2,
             deduct_loop u a2 i2 now rows2 n2 st1 = Ok (r2, st2)
             /\ (r1 && r2 = true
                 <-> n1 + n2 <= fst (getRemainingCredits u now st))
             /\ (r1 && r2 = true ->
                 fst (getRemainingCredits u now st2)
                 = fst (getRemainingCredits u now st) - (n1 + n2)).
Proof.
  intros st u n1 n2 a1 a2 i1 i2 now rows1 Hs Hb Hc1 Hn1 Ht1 Hn2 Ht2.
  destruct (deduct_loop_balance u a1 i1 now rows1 n1 st Hs Hc1 Hn1 Ht1)
    as (st1 & Hrun1 & Hbal1).
  exists (covered rows1 n1), st1. split; [assumption|].
  intros rows2 Hc2.
  assert (Hn1' : 0 <= n1) by lia.
  destruct (deduct_loop_within_bounds u a1 i1 now rows1 n1 st _ st1
              Hs Hc1 Hn1' Hb Hrun1) as [Hs1 Hb1].
  destruct (deduct_loop_balance u a2 i2 now rows2 n2 st1 Hs1 Hc2 Hn2 Ht2)
    as (st2 & Hrun2 & Hbal2).
  exists (covered rows2 n2), st2. split; [assumption|].
  pose proof (cursor_ready _ _ _ _ Hs Hc1) as (_ & _ & _ & Hall1).
  pose proof (cursor_ready _ _ _ _ Hs1 Hc2) as (_ & _ & _ & Hall2).
  pose proof (covered_iff rows1 n1 Hall1 Hn1) as Hcov1.
  pose proof (covered_iff rows2 n2 Hall2 Hn2) as Hcov2.
  destruct (cursor_total_balance _ _ _ _ Hc1) as [_ Heq1].
  destruct (cursor_total_balance _ _ _ _ Hc2) as [_ Heq2].
  specialize (Heq1 Hb). specialize (Heq2 Hb1).
  rewrite !remaining_credits_total. simpl.
  rewrite Hbal2, Hbal1 in *. rewrite <- Heq1 in *.
  destruct (covered rows1 n1) eqn:E1, (covered rows2 n2) eqn:E2; simpl.
  - assert (n1 <= total_available rows1) by (apply Hcov1; reflexivity).
    assert (n2 <= total_available rows2) by (apply Hcov2; reflexivity).
    split; [split; [lia | reflexivity] | lia].
  - assert (~ n2 <= total_available rows2)
      by (intros K; apply Hcov2 in K; discriminate).
    split; [split; [discriminate | lia] | discriminate].
  - assert (~ n1 <= total_available rows1)
      by (intros K; apply Hcov1 in K; discriminate).
    split; [split; [discriminate | lia] | discriminate].
  - assert (~ n1 <= total_available rows1)
      by (intros K; apply Hcov1 in K; discriminate).
    split; [split; [discriminate | lia] | discriminate].
Qed.

Lemma X11_two_deductions_in_a_row_witness :
  exists r1 st1,
    deduct_loop 7%N "essay" None usecs_per_day
      (order_by_expires_at (credit_batches sample_ledger)) 6 sample_ledger
    = Ok (r1, st1)
    /\ forall rows2,
         cursor_of st1 7%N usecs_per_day rows2 ->
         exists r2 st2,
           deduct_loop 7%N "quiz" None usecs_per_day rows2 2 st1 = Ok (r2, st2)
           /\ (r1 && r2 = true
               <-> 6 + 2 <= fst (getRemainingCredits 7%N usecs_per_day
                                   sample_ledger))
           /\ (r1 && r2 = true ->
               fst (getRemainingCredits 7%N usecs_per_day st2)
               = fst (getRemainingCredits 7%N usecs_per_day sample_ledger)
                 - (6 + 2)).
Proof.
  apply X11_two_deductions_in_a_row.
  - exact sample_ledger_schema.
  - repeat constructor; simpl; lia.
  - apply (select_active_batches_cursor 7%N usecs_per_day sample_ledger
             _ sample_ledger).
    reflexivity.
  - lia.
  - reflexivity.
  - lia.
  - reflexivity.
Defined.

(** ** First to expire, first drained *)

(** A row the plan charges comes after drained rows only. *)
Lemma charges_fifo pre : forall n c post amount,
  NoDup (map id (pre ++ c :: post)) ->
  In (c, amount) (charges (pre ++ c :: post) n) ->
  forall b, In b pre -> In (b, available b) (charges (pre ++ c :: post) n).
Proof.
  induction pre as [|x pre' IH]; intros n c post amount Hnd Hc b Hb;
    [contradiction|].
  simpl in Hnd. apply NoDup_cons_iff in Hnd. destruct Hnd as [Hnot Hnd'].
  assert (Hne : c <> x).
  { intros ->. apply Hnot. rewrite map_app. apply in_or_app. right.
    simpl. auto. }
  simpl in *. destruct (available x >=? n).
  - destruct Hc as [E|[]]. inversion E. congruence.
  - destruct Hc as [E|Hc]; [inversion E; congruence|].
    destruct Hb as [->|Hb]; [left; reflexivity|].
    right. eapply IH; eauto.
Qed.

(** X12. Within one deduction of a positive amount a batch is written
    only once every batch before it in the cursor, that is every active
    batch of the owner that expires earlier, has been drained to
    [used_credits = credits]. *)
Theorem X12_later_batch_only_after_earlier_drained :
  forall st u n a i now pre c post,
    schema st -> cursor_of st u now (pre ++ c :: post) ->
    0 < n -> in_int4 n = true ->
    exists r st',
      deduct_loop u a i now (pre ++ c :: post) n st = Ok (r, st')
      /\ (~ In c (credit_batches st') ->
          forall b, In b pre ->
            expires_at b <= expires_at c
            /\ In (with_used_credits b (credits b) now) (credit_batches st')).
Proof.
  intros st u n a i now pre c post Hs Hc Hn Hty.
  pose proof (cursor_ready _ _ _ _ Hs Hc) as Hready.
  pose proof Hready as (_ & Hnd & Hincl & _).
  destruct (deduct_loop_effect u a i now _ n st Hready)
    as (st' & Hrun & _ & Hch & Hother & _); [lia | assumption |].
  exists (covered (pre ++ c :: post) n), st'. split; [assumption|].
  intros Hgone b Hb. split.
  - destruct Hc as (_ & _ & _ & Hsorted). clear -Hsorted Hb.
    induction pre as [|x pre' IH]; [contradiction|].
    simpl in Hsorted. inversion Hsorted as [|? ? Hs' Hall]; subst.
    destruct Hb as [->|Hb]; [|auto].
    rewrite Forall_forall in Hall. apply Hall. apply in_or_app.
    right. simpl. auto.
  - assert (Hin : In (id c)
                    (map (fun x => id (fst x)) (charges (pre ++ c :: post) n))).
    { destruct (in_dec N.eq_dec (id c)
                  (map (fun x => id (fst x)) (charges (pre ++ c :: post) n)))
        as [K|K]; [assumption|].
      exfalso. apply Hgone. apply Hother; [|assumption].
      apply Hincl. apply in_or_app. right. simpl. auto. }
    apply in_map_iff in Hin. destruct Hin as ([c' amount] & E & Hc').
    simpl in E.
    destruct (charges_ready st _ n Hnd Hincl) as (_ & C2 & _).
    assert (c' = c).
    { apply (nodup_id_inj (pre ++ c :: post)); auto.
      - apply (C2 (c', amount) Hc').
      - apply in_or_app. right. simpl. auto. }
    subst c'.
    rewrite <- with_used_credits_drained.
    apply (Hch (b, available b)).
    eapply charges_fifo; eauto.
Qed.

Lemma X12_later_batch_only_after_earlier_drained_witness :
  let b1 := mkBatch 0%N 7%N 5 0 "free" (14 * usecs_per_day) 0 0 in
  let b2 := mkBatch 1%N 7%N 3 0 "student" (30 * usecs_per_day) 0 0 in
  exists r st',
    deduct_loop 7%N "essay" None usecs_per_day ([b1] ++ b2 :: []) 6
      sample_ledger
    = Ok (r, st')
    /\ (~ In b2 (credit_batches st') ->
        forall b, In b [b1] ->
          expires_at b <= expires_at b2
          /\ In (with_used_credits b (credits b) usecs_per_day)
               (credit_batches st')).
Proof.
  intros b1 b2.
  apply X12_later_batch_only_after_earlier_drained.
  - exact sample_ledger_schema.
  - apply (select_active_batches_cursor 7%N usecs_per_day sample_ledger
             _ sample_ledger).
    reflexivity.
  - lia.
  - reflexivity.
Defined.

(** ** Buying a plan *)

Lemma add_credits_remaining u n t d now later st :
  in_int4 n = true -> in_int4 d = true ->
  credit_batches_subscription_type_check t = true ->
  expiry_in_range t d now = true ->
  later < expiry_date_of t d now ->
  fst (getRemainingCredits u later
         (state_after (add_credits u n t d now st) st))
  = fst (getRemainingCredits u later st) + n.
Proof.
  intros Hn Hd Ht He Hlater. rewrite add_credits_ok by assumption.
  rewrite !remaining_credits_total. simpl. unfold unexpired_of.
  rewrite filter_app. simpl. rewrite N.eqb_refl.
  destruct (Z.gtb_spec (expiry_date_of t d now) later); [|lia]. simpl.
  induction (filter _ _) as [|b rest IH]; simpl; lia.
Qed.

(** X13. [addPlanCredits] with one of the four plan types resolves to
    the identifier of a new batch and raises the owner's balance, read
    at any time within 30 days of the purchase, by the credits of the
    plan, which are 50 at least; with any other plan type it resolves
    to [null] and the ledger is as before. *)
Theorem X13_plan_purchase_raises_balance :
  (forall st u p n t now later,
     plan_credits p = Some (n, t) ->
     later < now + 30 * usecs_per_day ->
     fst (addPlanCredits u p now st) = Some (uuid_supply st)
     /\ fst (getRemainingCredits u later (snd (addPlanCredits u p now st)))
        = fst (getRemainingCredits u later st) + n
     /\ 50 <= n)
  /\ (forall st u p now,
        plan_credits p = None -> addPlanCredits u p now st = (None, st)).
Proof.
  split.
  - intros st u p n t now later Hp Hlater.
    assert (Hnt : in_int4 n = true
                  /\ credit_batches_subscription_type_check t = true
                  /\ now + 30 * usecs_per_day
                     <= expiry_date_of t default_expiry_days now
                  /\ 50 <= n).
    { unfold plan_credits in Hp.
      repeat match type of Hp with
             | (if ?c then _ else _) = _ => destruct c
             end; inversion Hp; subst;
        repeat split; try reflexivity; try lia;
        unfold expiry_date_of, plus_days, usecs_per_day; simpl; lia. }
    destruct Hnt as (Hn & Ht & Hexp & Hmin).
    assert (He : expiry_in_range t default_expiry_days now = true)
      by (apply expiry_in_range_small; unfold default_expiry_days; simpl;
          lia).
    pose proof (add_credits_remaining u n t default_expiry_days now later st
                  Hn eq_refl Ht He) as Hbal.
    unfold addPlanCredits, add_plan_credits. rewrite Hp.
    unfold bind, ret.
    rewrite (add_credits_ok u n t default_expiry_days now st Hn eq_refl Ht He)
      in *.
    simpl in *. split; [reflexivity|]. split; [apply Hbal; lia | assumption].
  - intros st u p now Hp. unfold addPlanCredits, add_plan_credits.
    rewrite Hp. reflexivity.
Qed.

Lemma X13_plan_purchase_raises_balance_witness :
  (fst (addPlanCredits 7%N "pro_monthly" usecs_per_day sample_ledger)
   = Some (uuid_supply sample_ledger)
   /\ fst (getRemainingCredits 7%N (20 * usecs_per_day)
             (snd (addPlanCredits 7%N "pro_monthly" usecs_per_day
                     sample_ledger)))
      = fst (getRemainingCredits 7%N (20 * usecs_per_day) sample_ledger) + 150
   /\ 50 <= 150)
  /\ addPlanCredits 7%N "lifetime" 0 sample_ledger = (None, sample_ledger).
Proof.
  destruct X13_plan_purchase_raises_balance as (H1 & H2).
  split.
  - apply (H1 sample_ledger 7%N "pro_monthly"%string 150 "pro"%string).
    + reflexivity.
    + vm_compute. reflexivity.
  - apply H2. reflexivity.
Defined.
